(** * rpcclient (Darwin): remote introspection layer

    A shallow embedding of [rpcclient/darwin/client.py] and
    [rpcclient/darwin/processes.py].  The remote target is only reachable
    through remote calls, so every remote call is a transition of an
    abstract [world]; Python exceptions are the [Raise] results of a small
    state-and-error monad. *)

From Stdlib Require Import ZArith Strings.Ascii Strings.String Strings.Byte List Lia Bool.
From stdpp Require Import gmap strings list.

Local Open Scope Z_scope.

(** ** Exceptions and the remote-call monad *)

(** The exception classes that the embedded code raises or lets through.
    [BadReturnValueError] and [ArgumentError] are the client's own
    ([rpcclient.exceptions]); the others are Python built-ins. *)
Inductive exn : Set :=
| BadReturnValueError
| ArgumentError
| TypeError
| OverflowError
| KeyError
| AttributeError
| IndexError
| UnicodeDecodeError.

Definition exn_eqb (a b : exn) : bool :=
  match a, b with
  | BadReturnValueError, BadReturnValueError
  | ArgumentError, ArgumentError
  | TypeError, TypeError
  | OverflowError, OverflowError
  | KeyError, KeyError
  | AttributeError, AttributeError
  | IndexError, IndexError
  | UnicodeDecodeError, UnicodeDecodeError => true
  | _, _ => false
  end.

Inductive result (A : Type) : Type :=
| Ok (a : A)
| Raise (e : exn).
Arguments Ok {A} a.
Arguments Raise {A} e.

(** A computation that talks to the remote: it reads and advances the
    world and either returns or raises. *)
Definition M (W A : Type) : Type := W -> result A * W.

Definition ret {W A} (a : A) : M W A := fun w => (Ok a, w).

Definition raise {W A} (e : exn) : M W A := fun w => (Raise e, w).

Definition bind {W A B} (c : M W A) (k : A -> M W B) : M W B :=
  fun w =>
    match c w with
    | (Ok a, w') => k a w'
    | (Raise e, w') => (Raise e, w')
    end.

(** [try: c  except e: h] for one exception class [e]. *)
Definition try_except {W A} (c : M W A) (e : exn) (h : M W A) : M W A :=
  fun w =>
    match c w with
    | (Ok a, w') => (Ok a, w')
    | (Raise e', w') => if exn_eqb e' e then h w' else (Raise e', w')
    end.

(** A remote call: total, its reply is whatever the stub sends back. *)
Definition call {W A} (f : W -> A * W) : M W A :=
  fun w => let '(a, w') := f w in (Ok a, w').

Notation "'let*' x ':=' c 'in' k" := (bind c (fun x => k))
  (at level 10, x pattern, c at level 100, k at level 200).

(** ** The remote target

    What the stub answers is not under the client's control; each remote
    routine the embedded code invokes is an oracle over the world. *)

(** Reply of [vm_read(task, address, size, p_buf, p_size)]: the kern
    return, the byte count the kernel stored through [p_size], and the
    bytes that [p_buf[0].peek(size)] then reads at the returned pointer. *)
Record vm_read_reply : Type := {
  vm_kr : Z;
  vm_data_cnt : Z;
  vm_data : list byte;
}.

(** Reply of [proc_listallpids(buffer, buffersize)]: the returned count
    and the items of the pid buffer, [pid_buf[i]]. *)
Record listallpids_reply : Type := {
  lp_count : Z;
  lp_item : nat -> Z;
}.

(** Reply of a [proc_pidinfo]/[proc_pidfdinfo] call: the returned size
    and the bytes left in the output buffer. *)
Record pidinfo_reply : Type := {
  pi_ret : Z;
  pi_buf : list byte;
}.

Class Remote : Type := {
  world : Type;
  (** [symbol[0]] at item size 8; [None] when the read raises the
      client's [RpcClientException]. *)
  symbol_getitem8 : Z -> world -> option Z * world;
  (** [symbols.kCFNull[0]] *)
  kCFNull_getitem : world -> Z * world;
  (** [CFDataCreate(kCFAllocatorDefault, bytes, length)] *)
  CFDataCreate : list byte -> Z -> world -> Z * world;
  (** [propertyListWithData:options:format:error:] of
      NSPropertyListSerialization, mutable containers and leaves. *)
  propertyListWithData : Z -> world -> Z * world;
  (** [dataWithPropertyList:format:options:error:] of
      NSPropertyListSerialization, binary format. *)
  dataWithPropertyList : Z -> world -> Z * world;
  (** [CFDataGetLength(objc_data)] *)
  CFDataGetLength : Z -> world -> Z * world;
  (** [CFDataGetBytePtr(objc_data).peek(count)]: the bytes read at the
      pointer returned. *)
  CFDataGetBytePtr_peek : Z -> Z -> world -> list byte * world;
  (** [objc_data.objc_call('release')] *)
  objc_release : Z -> world -> Z * world;
  (** [task_for_pid(mach_task_self(), pid, p_task)]: the kern return and
      [p_task[0].c_int64]. *)
  task_for_pid : Z -> world -> (Z * Z) * world;
  (** [vm_read(task, address, size, p_buf, p_size)] *)
  vm_read : Z -> Z -> Z -> world -> vm_read_reply * world;
  (** [proc_listallpids(buffer, buffersize)]; the buffer is NULL in the
      sizing call. *)
  proc_listallpids : Z -> world -> listallpids_reply * world;
  (** [proc_pidinfo(pid, PROC_PIDLISTFDS, 0, buffer, size)]; the buffer
      is NULL in the sizing call. *)
  proc_pidinfo_listfds : Z -> Z -> world -> pidinfo_reply * world;
  (** [proc_pidfdinfo(pid, fd, flavor, vi_buf, vi_size)] *)
  proc_pidfdinfo : Z -> Z -> Z -> Z -> world -> pidinfo_reply * world;
  (** [client.errno] *)
  client_errno : world -> Z;
  (** [proc_pidpath(pid, path, MAXPATHLEN)]: the returned length and
      [path.peek(path_len).decode()]. *)
  proc_pidpath : Z -> world -> (Z * string) * world;
  (** [proc_pidinfo(pid, PROC_PIDTASKALLINFO, 0, pti, size)]: the
      returned size and the parsed [pbsd.pbi_name]. *)
  proc_pidinfo_taskallinfo : Z -> world -> (Z * string) * world;
}.

(** ** Python library routines

    [plistlib], [bytes.decode] and [pathlib] are the interpreter's, not
    the repository's: they are parameters of the development. *)
Class PyRuntime : Type := {
  (** a Python object other than [None] *)
  PyObject : Type;
  (** [plistlib.dumps(o, fmt=plistlib.FMT_BINARY)] *)
  plistlib_dumps : PyObject -> result (list byte);
  (** [plistlib.loads(data)]; [Ok None] is Python's [None] *)
  plistlib_loads : list byte -> result (option PyObject);
  (** [bytes.decode()]; [None] is UnicodeDecodeError *)
  bytes_decode : list byte -> option string;
  (** [Path(path).parts[-1]]; [None] is IndexError *)
  path_last_part : string -> option string;
  (** [str(Path(path).absolute())] *)
  path_absolute : string -> string;
}.

(** ** Python values and what [plistlib] makes of them

    The values that a caller can hand to [cf], and the checks of
    [plistlib.dumps(value, fmt=plistlib.FMT_BINARY)].  The library is the
    interpreter's; this is a model of it, from its documentation: "values
    can be strings, integers, floats, booleans, tuples, lists,
    dictionaries (but only with string keys), bytes, bytearray or
    datetime.datetime objects", a [plistlib.UID] is written in a binary
    file, "a TypeError will be raised if the object is of an unsupported
    type or a container that contains objects of unsupported types" and
    "an OverflowError will be raised for integer values that cannot be
    represented in (binary) plist files". *)
Module Python.

#[local] Unset Elimination Schemes.

Inductive pyvalue : Type :=
| PNone
| PBool (b : bool)
| PInt (n : Z)
(** a float, as the 64 bits of its IEEE-754 double *)
| PFloat (bits : Z)
| PStr (s : string)
| PBytes (bs : list byte)
| PByteArray (bs : list byte)
(** a [datetime.datetime]: its date and time fields, as the microseconds
    from 2001-01-01 00:00:00 on its own clock, and its [tzinfo], as the
    offset from UTC in seconds; [None] for a naive one *)
| PDatetime (wall : Z) (tzinfo : option Z)
(** a [plistlib.UID] *)
| PUid (data : N)
| PList (items : list pyvalue)
| PTuple (items : list pyvalue)
(** a [dict], its items in insertion order; the keys are distinct *)
| PDict (items : list (pyvalue * pyvalue))
(** an object of any other type, by the name of its type: a set, a
    complex number, a date, an instance of a class of the caller *)
| POther (type_name : string).

#[local] Set Elimination Schemes.

Section Induction.
Variable P : pyvalue -> Prop.
Hypothesis case_none : P PNone.
Hypothesis case_bool : forall b, P (PBool b).
Hypothesis case_int : forall n, P (PInt n).
Hypothesis case_float : forall bits, P (PFloat bits).
Hypothesis case_str : forall s, P (PStr s).
Hypothesis case_bytes : forall bs, P (PBytes bs).
Hypothesis case_bytearray : forall bs, P (PByteArray bs).
Hypothesis case_datetime : forall wall tzinfo, P (PDatetime wall tzinfo).
Hypothesis case_uid : forall data, P (PUid data).
Hypothesis case_list : forall items, List.Forall P items -> P (PList items).
Hypothesis case_tuple : forall items, List.Forall P items -> P (PTuple items).
Hypothesis case_dict :
  forall items, List.Forall (fun kv => P (snd kv)) items -> P (PDict items).
Hypothesis case_other : forall type_name, P (POther type_name).

(** Induction through the items of lists, tuples and dicts. *)
Fixpoint pyvalue_items_ind (v : pyvalue) : P v :=
  match v with
  | PNone => case_none
  | PBool b => case_bool b
  | PInt n => case_int n
  | PFloat bits => case_float bits
  | PStr s => case_str s
  | PBytes bs => case_bytes bs
  | PByteArray bs => case_bytearray bs
  | PDatetime wall tzinfo => case_datetime wall tzinfo
  | PUid data => case_uid data
  | PList items =>
      case_list items
        ((fix all (l : list pyvalue) : List.Forall P l :=
            match l with
            | [] => List.Forall_nil P
            | x :: l => @List.Forall_cons _ P x l (pyvalue_items_ind x) (all l)
            end) items)
  | PTuple items =>
      case_tuple items
        ((fix all (l : list pyvalue) : List.Forall P l :=
            match l with
            | [] => List.Forall_nil P
            | x :: l => @List.Forall_cons _ P x l (pyvalue_items_ind x) (all l)
            end) items)
  | PDict items =>
      case_dict items
        ((fix all (l : list (pyvalue * pyvalue))
            : List.Forall (fun kv => P (snd kv)) l :=
            match l with
            | [] => List.Forall_nil (fun kv => P (snd kv))
            | kv :: l =>
                @List.Forall_cons _ (fun kv => P (snd kv)) kv l
                  (pyvalue_items_ind (snd kv)) (all l)
            end) items)
  | POther type_name => case_other type_name
  end.

End Induction.

(** [cf] tests [o is None] first: the argument of the embedded [cf] is
    [None] for Python's [None] and the value otherwise. *)
Definition argument (v : pyvalue) : option pyvalue :=
  match v with
  | PNone => None
  | _ => Some v
  end.

(** [isinstance(k, str)] *)
Definition is_str (k : pyvalue) : bool :=
  match k with
  | PStr _ => true
  | _ => false
  end.

Definition key_text (k : pyvalue) : string :=
  match k with
  | PStr s => s
  | _ => ""%string
  end.

(** [sorted(value.items())] of a dict with text keys: by key, in the
    order of the code points. *)
Fixpoint insert_by_key {A : Type} (x : string * A) (l : list (string * A))
  : list (string * A) :=
  match l with
  | [] => [x]
  | y :: l' =>
      if String.leb (fst x) (fst y) then x :: l
      else y :: insert_by_key x l'
  end.

Fixpoint sort_by_key {A : Type} (l : list (string * A)) : list (string * A) :=
  match l with
  | [] => []
  | x :: l => insert_by_key x (sort_by_key l)
  end.

Fixpoint first_error (l : list (option exn)) : option exn :=
  match l with
  | [] => None
  | Some e :: _ => Some e
  | None :: l => first_error l
  end.

(** The first pass of the binary writer numbers the objects to write,
    through the items of lists and tuples and the keys and values of
    dicts, and raises TypeError ("keys must be strings") at a dict one of
    whose keys is not a text. *)
Fixpoint has_bad_key (v : pyvalue) : bool :=
  match v with
  | PList items | PTuple items => existsb has_bad_key items
  | PDict items =>
      existsb (fun kv => negb (is_str (fst kv)) || has_bad_key (snd kv)) items
  | _ => false
  end.

(** The second pass writes the objects in the order of their numbers,
    a container before its items and the values of a dict in the order of
    their keys.  It raises OverflowError at an integer outside
    -2^63 .. 2^64 - 1 and TypeError at an object of an unsupported type,
    and at a [datetime] with a [tzinfo]: the date is stored as the seconds
    since [datetime.datetime(2001, 1, 1)], a naive datetime, and Python
    refuses to subtract a naive datetime from an aware one with
    TypeError.  This is the first error of that pass, if any. *)
Fixpoint write_error (v : pyvalue) : option exn :=
  match v with
  | PNone | PBool _ | PFloat _ | PStr _ | PBytes _ | PByteArray _ => None
  | PInt n =>
      if (- 2 ^ 63 <=? n) && (n <? 2 ^ 64) then None else Some OverflowError
  | PDatetime _ None => None
  | PDatetime _ (Some _) => Some TypeError
  | PUid data => if (data <? 2 ^ 64)%N then None else Some OverflowError
  | PList items | PTuple items => first_error (map write_error items)
  | PDict items =>
      first_error
        (map snd
           (sort_by_key
              (map (fun kv => (key_text (fst kv), write_error (snd kv)))
                 items)))
  | POther _ => Some TypeError
  end.

(** [plistlib.dumps(value, fmt=plistlib.FMT_BINARY)]; [writer] gives the
    bytes of a value that is written. *)
Definition dumps (writer : pyvalue -> list byte) (v : pyvalue)
  : result (list byte) :=
  if has_bad_key v then Raise TypeError
  else
    match write_error v with
    | Some e => Raise e
    | None => Ok (writer v)
    end.

(** The interpreter with these values: [writer] and [reader] are the
    two directions of the binary format, the rest is as in [base]. *)
Definition runtime (base : PyRuntime) (writer : pyvalue -> list byte)
    (reader : list byte -> result (option pyvalue)) : PyRuntime := {|
  PyObject := pyvalue;
  plistlib_dumps := dumps writer;
  plistlib_loads := reader;
  bytes_decode := @bytes_decode base;
  path_last_part := @path_last_part base;
  path_absolute := @path_absolute base;
|}.

End Python.

(** ** darwin/client.py *)

Module Client.

Record IsaMagic : Type := { mask : Z; value : Z }.

Definition ISA_MAGICS : list IsaMagic :=
  [ (* ARM64 *)
    {| mask := 0x000003f000000001; value := 0x000001a000000001 |};
    (* X86_64 *)
    {| mask := 0x001f800000000001; value := 0x001d800000000001 |} ].

(** Mask for tagged pointer, from objc-internal.h *)
Definition OBJC_TAG_MASK : Z := Z.shiftl 1 63.

(** [for mask, value in ISA_MAGICS: if x & mask == value: return ...]:
    does the loop reach the [return] of its body? *)
Definition matches_isa_magic (x : Z) : bool :=
  existsb (fun m => Z.land x (mask m) =? value m) ISA_MAGICS.

Section WithRemote.
Context `{R : Remote} `{Py : PyRuntime}.

Definition decode_cf (symbol : Z) : M world (option PyObject) :=
  let* objc_data := call (dataWithPropertyList symbol) in
  if objc_data =? 0 then ret None
  else
    let* count := call (CFDataGetLength objc_data) in
    let* data := call (CFDataGetBytePtr_peek objc_data count) in
    match plistlib_loads data with
    | Raise e => raise e
    | Ok result =>
        let* _ := call (objc_release objc_data) in
        ret result
    end.

(** construct a CFObject from a given python object; [o] is [None] for
    Python's [None]. *)
Definition cf (o : option PyObject) : M world Z :=
  match o with
  | None => call kCFNull_getitem
  | Some o =>
      match plistlib_dumps o with
      | Raise e => raise e
      | Ok plist_bytes =>
          let* plist_objc_bytes :=
            call (CFDataCreate plist_bytes (Z.of_nat (length plist_bytes))) in
          call (propertyListWithData plist_objc_bytes)
      end
  end.

Definition is_objc_type (symbol : Z) : M world bool :=
  (* Tagged pointers are ObjC objects *)
  if Z.land symbol OBJC_TAG_MASK =? OBJC_TAG_MASK then ret true
  (* Class are not ObjC objects *)
  else if matches_isa_magic symbol then ret false
  else fun w =>
    match symbol_getitem8 symbol w with
    | (None, w') => (Ok false, w')
    | (Some isa, w') =>
        (if matches_isa_magic isa then Ok true else Ok false, w')
    end.

End WithRemote.
End Client.

(** ** darwin/processes.py *)

Module Processes.

(** *** Raw structures ([rpcclient.darwin.structs])

    The struct layouts and constants are imported by [processes.py] from
    another module of the package; they are parameters here, and the
    parsed structures keep only the fields that [processes.py] reads. *)

Record proc_fdinfo : Type := { proc_fd : Z; proc_fdtype : Z }.

(** [pvip.vip_path] *)
Record vnode_fdinfowithpath : Type := { vip_path : string }.

(** [insi_laddr.ina_46.i46a_addr4], [insi_lport],
    [insi_faddr.ina_46.i46a_addr4], [insi_fport] *)
Record in_sockinfo : Type := {
  insi_laddr : string;
  insi_lport : Z;
  insi_faddr : string;
  insi_fport : Z;
}.

(** [psi.soi_family], [psi.soi_kind], [psi.soi_proto.pri_tcp.tcpsi_ini],
    [psi.soi_proto.pri_in], [psi.soi_proto.pri_un.unsi_addr.ua_sun.sun_path] *)
Record socket_fdinfo : Type := {
  soi_family : Z;
  soi_kind : Z;
  pri_tcp_tcpsi_ini : in_sockinfo;
  pri_in : in_sockinfo;
  pri_un_sun_path : string;
}.

Record pipe_info : Type := { pipe_status : Z }.

Class Structs : Type := {
  PROX_FDTYPE_VNODE : Z;
  PROX_FDTYPE_SOCKET : Z;
  PROX_FDTYPE_PIPE : Z;
  PROC_PIDFDVNODEPATHINFO : Z;
  PROC_PIDFDSOCKETINFO : Z;
  PROC_PIDFDPIPEINFO : Z;
  SOCKINFO_TCP : Z;
  SOCKINFO_IN : Z;
  SOCKINFO_UN : Z;
  AF_INET : Z;
  AF_INET6 : Z;
  pid_t_sizeof : Z;
  proc_fdinfo_sizeof : Z;
  (** [Array(n, proc_fdinfo).parse(raw)] *)
  proc_fdinfo_array_parse : Z -> list byte -> list proc_fdinfo;
  vnode_fdinfowithpath_sizeof : Z;
  vnode_fdinfowithpath_parse : list byte -> vnode_fdinfowithpath;
  socket_fdinfo_parse : list byte -> socket_fdinfo;
  pipe_info_sizeof : Z;
  pipe_info_parse : list byte -> pipe_info;
}.

(** [errno.EBADF] *)
Definition EBADF : Z := 9.

(** *** File-descriptor records *)

Inductive parsed_struct : Type :=
| VnodeStruct (v : vnode_fdinfowithpath)
| SocketStruct (s : socket_fdinfo)
| PipeStruct (p : pipe_info).

(** [FdStruct = namedtuple('FdStruct', 'fd struct')] *)
Record FdStruct : Type := { fs_fd : proc_fdinfo; fs_struct : parsed_struct }.

(** The dataclasses that can be instantiated: [Fd] and the abstract
    socket classes are never constructed. *)
Inductive Fd : Type :=
| PipeFd (fd : Z)
| FileFd (fd : Z) (path : string)
| UnixFd (fd : Z) (path : string)
| Ipv4TcpFd (fd : Z) (local_address : string) (local_port : Z)
            (remote_address : string) (remote_port : Z)
| Ipv6TcpFd (fd : Z) (local_address : string) (local_port : Z)
            (remote_address : string) (remote_port : Z)
| Ipv4UdpFd (fd : Z) (local_address : string) (local_port : Z)
            (remote_address : string) (remote_port : Z)
| Ipv6UdpFd (fd : Z) (local_address : string) (local_port : Z)
            (remote_address : string) (remote_port : Z).

(** A process handle; the memoised attributes are fetched through the
    remote whenever the embedded code reads them on a fresh handle. *)
Record Process : Type := { pid : Z }.

(** The text before the first NUL, [buf.split(b'\x00', 1)[0]]. *)
Fixpoint before_nul (buf : list byte) : list byte :=
  match buf with
  | [] => []
  | b :: rest => if Byte.eqb b x00 then [] else b :: before_nul rest
  end.

(** [b'\x00' in buf] *)
Definition has_nul (buf : list byte) : bool := existsb (Byte.eqb x00) buf.

(** [needle in hay] on text *)
Fixpoint str_contains (needle hay : string) : bool :=
  String.prefix needle hay
  || match hay with
     | EmptyString => false
     | String _ hay' => str_contains needle hay'
     end.

Section WithRemote.
Context `{R : Remote} `{Py : PyRuntime} `{St : Structs}.

(** *** class Process: memory access *)

Definition PEEK_STR_CHUNK_SIZE : Z := 0x100.

(** State seen by the methods of one [Process] object: the remote world
    and the object's memoised [task] ([cached_property]). *)
Definition pstate : Type := world * option Z.

Definition remote {A} (f : world -> A * world) : M pstate A :=
  fun st => let '(a, w') := f (fst st) in (Ok a, (w', snd st)).

Definition task (self : Process) : M pstate Z :=
  fun st =>
    match snd st with
    | Some t => (Ok t, st)
    | None =>
        let '((kr, t), w') := task_for_pid (pid self) (fst st) in
        if kr =? 0 then (Ok t, (w', Some t))
        else (Raise BadReturnValueError, (w', None))
    end.

(** peek at memory address *)
Definition peek (self : Process) (address size : Z) : M pstate (list byte) :=
  let* t := task self in
  let* r := remote (vm_read t address size) in
  if vm_kr r =? 0 then ret (vm_data r)
  else raise BadReturnValueError.

(** What one turn of the [while] loop of [peek_str] leaves behind. *)
Inductive peek_str_step : Type :=
| Return (s : string)
| Next (address size : Z) (buf : list byte).

Definition peek_str_body (self : Process) (address size : Z) (buf : list byte)
  : M pstate peek_str_step :=
  try_except
    (let* chunk := peek self address size in
     let buf := buf ++ chunk in
     if has_nul buf then
       match bytes_decode (before_nul buf) with
       | Some s => ret (Return s)
       | None => raise UnicodeDecodeError
       end
     else ret (Next (address + size) size buf))
    BadReturnValueError
    (ret (Next address (size / 2) buf)).

(** The loop may run for ever; [None] is fuel running out.  Inside,
    [Some s] is [return s] and [None] is falling off the loop, Python's
    implicit [None]. *)
Fixpoint peek_str_loop (fuel : nat) (self : Process) (address size : Z)
    (buf : list byte) : M pstate (option (option string)) :=
  match fuel with
  | O => ret None
  | S fuel =>
      if size =? 0 then ret (Some None)
      else
        let* s := peek_str_body self address size buf in
        match s with
        | Return v => ret (Some (Some v))
        | Next address size buf => peek_str_loop fuel self address size buf
        end
  end.

(** peek string at memory address *)
Definition peek_str (fuel : nat) (self : Process) (address : Z)
  : M pstate (option (option string)) :=
  peek_str_loop fuel self address PEEK_STR_CHUNK_SIZE [].

(** *** class Process: file descriptors *)

Definition vi_size : Z := 8196.

(** [buf.peek(n)] on a scratch buffer whose bytes are [buf] *)
Definition buf_peek (buf : list byte) (n : Z) : list byte :=
  take (Z.to_nat n) buf.

(** The detail query of one descriptor, the same in the three branches
    of [fd_structs]: [None] is the [continue] taken on EBADF. *)
Definition fd_detail (self : Process) (fd : proc_fdinfo) (flavor : Z)
  : M world (option (list byte)) :=
  let* vs := call (proc_pidfdinfo (pid self) (proc_fd fd) flavor vi_size) in
  if pi_ret vs =? 0 then
    fun w =>
      if client_errno w =? EBADF then
        (* lsof treats this as fine *)
        (Ok None, w)
      else (Raise BadReturnValueError, w)
  else ret (Some (pi_buf vs)).

Fixpoint fd_structs_loop (self : Process) (fds : list proc_fdinfo)
    (result : list FdStruct) : M world (list FdStruct) :=
  match fds with
  | [] => ret result
  | fd :: fds =>
      if proc_fdtype fd =? PROX_FDTYPE_VNODE then
        (* file *)
        let* vi_buf := fd_detail self fd PROC_PIDFDVNODEPATHINFO in
        match vi_buf with
        | None => fd_structs_loop self fds result
        | Some vi_buf =>
            fd_structs_loop self fds
              (result ++
               [{| fs_fd := fd;
                   fs_struct := VnodeStruct (vnode_fdinfowithpath_parse
                     (buf_peek vi_buf vnode_fdinfowithpath_sizeof)) |}])
        end
      else if proc_fdtype fd =? PROX_FDTYPE_SOCKET then
        (* socket *)
        let* vi_buf := fd_detail self fd PROC_PIDFDSOCKETINFO in
        match vi_buf with
        | None => fd_structs_loop self fds result
        | Some vi_buf =>
            fd_structs_loop self fds
              (result ++
               [{| fs_fd := fd;
                   fs_struct := SocketStruct (socket_fdinfo_parse
                     (buf_peek vi_buf vi_size)) |}])
        end
      else if proc_fdtype fd =? PROX_FDTYPE_PIPE then
        (* pipe *)
        let* vi_buf := fd_detail self fd PROC_PIDFDPIPEINFO in
        match vi_buf with
        | None => fd_structs_loop self fds result
        | Some vi_buf =>
            fd_structs_loop self fds
              (result ++
               [{| fs_fd := fd;
                   fs_struct := PipeStruct (pipe_info_parse
                     (buf_peek vi_buf pipe_info_sizeof)) |}])
        end
      else fd_structs_loop self fds result
  end.

(** get a list of process opened file descriptors as raw structs *)
Definition fd_structs (self : Process) : M world (list FdStruct) :=
  let* size := call (proc_pidinfo_listfds (pid self) 0) in
  let* fdinfo_buf := call (proc_pidinfo_listfds (pid self) (pi_ret size)) in
  let size := pi_ret fdinfo_buf in
  if size =? 0 then raise BadReturnValueError
  else
    fd_structs_loop self
      (proc_fdinfo_array_parse (size / proc_fdinfo_sizeof)
         (buf_peek (pi_buf fdinfo_buf) size))
      [].

(** The class table; the entries are inserted in the order of the dict
    display. *)
Definition SOCKET_TYPE_DATACLASS
  : gmap Z (gmap Z (Z -> string -> Z -> string -> Z -> Fd)) :=
  <[AF_INET6 := <[SOCKINFO_IN := Ipv6UdpFd]> (<[SOCKINFO_TCP := Ipv6TcpFd]> ∅)]>
    (<[AF_INET := <[SOCKINFO_IN := Ipv4UdpFd]> (<[SOCKINFO_TCP := Ipv4TcpFd]> ∅)]>
       ∅).

Fixpoint fds_loop (fd_structs : list FdStruct) (result : list Fd)
  : M world (list Fd) :=
  match fd_structs with
  | [] => ret result
  | fdstruct :: fd_structs =>
      let fd := fs_fd fdstruct in
      let parsed := fs_struct fdstruct in
      if proc_fdtype fd =? PROX_FDTYPE_VNODE then
        match parsed with
        | VnodeStruct pvip =>
            fds_loop fd_structs (result ++ [FileFd (proc_fd fd) (vip_path pvip)])
        | _ => raise AttributeError
        end
      else if proc_fdtype fd =? PROX_FDTYPE_PIPE then
        fds_loop fd_structs (result ++ [PipeFd (proc_fd fd)])
      else if proc_fdtype fd =? PROX_FDTYPE_SOCKET then
        match parsed with
        | SocketStruct psi =>
            if (soi_kind psi =? SOCKINFO_TCP) || (soi_kind psi =? SOCKINFO_IN) then
              match SOCKET_TYPE_DATACLASS !! soi_family psi with
              | None => raise KeyError
              | Some by_kind =>
                  match by_kind !! soi_kind psi with
                  | None => raise KeyError
                  | Some correct_class =>
                      let info :=
                        if soi_kind psi =? SOCKINFO_TCP
                        then pri_tcp_tcpsi_ini psi
                        else pri_in psi in
                      fds_loop fd_structs
                        (result ++
                         [correct_class (proc_fd fd) (insi_laddr info)
                            (insi_lport info) (insi_faddr info)
                            (insi_fport info)])
                  end
              end
            else if soi_kind psi =? SOCKINFO_UN then
              fds_loop fd_structs
                (result ++ [UnixFd (proc_fd fd) (pri_un_sun_path psi)])
            else fds_loop fd_structs result
        | _ => raise AttributeError
        end
      else fds_loop fd_structs result
  end.

(** get a list of process opened file descriptors *)
Definition fds (self : Process) : M world (list Fd) :=
  let* structs := fd_structs self in
  fds_loop structs [].

(** *** class Process: memoised attributes, read on a fresh handle *)

Definition path (self : Process) : M world (option string) :=
  let* r := call (proc_pidpath (pid self)) in
  let '(path_len, text) := r in
  if path_len =? 0 then ret None else ret (Some text).

Definition basename (self : Process) : M world (option string) :=
  let* path := path self in
  match path with
  | None => ret None
  | Some path =>
      if String.eqb path "" then ret None
      else
        match path_last_part path with
        | Some part => ret (Some part)
        | None => raise IndexError
        end
  end.

Definition name (self : Process) : M world string :=
  let* r := call (proc_pidinfo_taskallinfo (pid self)) in
  let '(size, pbi_name) := r in
  if size =? 0 then raise BadReturnValueError else ret pbi_name.

(** *** class DarwinProcesses *)

(** list all currently running processes *)
Definition list_ : M world (list Process) :=
  let* n := call (proc_listallpids 0) in
  let pid_buf_size := pid_t_sizeof * lp_count n in
  let* pid_buf := call (proc_listallpids pid_buf_size) in
  let n := lp_count pid_buf in
  ret (map (fun i => {| pid := lp_item pid_buf i |}) (seq 0 (Z.to_nat n))).

(** [for p in proc_list: if test(p): return p] and then
    [raise ArgumentError]: the loop shared by the three [get_by_*]. *)
Fixpoint first_match (test : Process -> M world bool)
    (proc_list : list Process) : M world Process :=
  match proc_list with
  | [] => raise ArgumentError
  | p :: proc_list =>
      let* hit := test p in
      if hit then ret p else first_match test proc_list
  end.

(** get process object by pid *)
Definition get_by_pid (pid_ : Z) : M world Process :=
  let* proc_list := list_ in
  first_match (fun p => ret (pid p =? pid_)) proc_list.

Definition opt_str_eqb (a : option string) (b : string) : bool :=
  match a with
  | Some a => String.eqb a b
  | None => false
  end.

(** get process object by basename *)
Definition get_by_basename (name_ : string) : M world Process :=
  let* proc_list := list_ in
  first_match
    (fun p => let* b := basename p in ret (opt_str_eqb b name_)) proc_list.

(** get process object by name *)
Definition get_by_name (name_ : string) : M world Process :=
  let* proc_list := list_ in
  first_match
    (fun p => let* n := name p in ret (String.eqb n name_)) proc_list.

(** [p.basename and name in p.basename] *)
Definition grep_test (name_ : string) (b : option string) : bool :=
  match b with
  | Some b => negb (String.eqb b "") && str_contains name_ b
  | None => false
  end.

Fixpoint grep_loop (name_ : string) (proc_list result : list Process)
  : M world (list Process) :=
  match proc_list with
  | [] => ret result
  | p :: proc_list =>
      let* b := basename p in
      if grep_test name_ b then grep_loop name_ proc_list (result ++ [p])
      else grep_loop name_ proc_list result
  end.

(** get process list by basename filter *)
Definition grep (name_ : string) : M world (list Process) :=
  let* proc_list := list_ in
  grep_loop name_ proc_list [].

(** [try: fds = process.fds  except BadReturnValueError: continue];
    [None] is the [continue]. *)
Definition try_fds (process : Process) : M world (option (list Fd)) :=
  try_except
    (let* fds := fds process in ret (Some fds))
    BadReturnValueError
    (ret None).

(** [(isinstance(fd, Ipv4SocketFd) or isinstance(fd, Ipv6SocketFd)) and
    fd.local_port == port and fd.remote_port == 0] *)
Definition is_listening_on (port : Z) (fd : Fd) : bool :=
  match fd with
  | Ipv4TcpFd _ _ local_port _ remote_port
  | Ipv6TcpFd _ _ local_port _ remote_port
  | Ipv4UdpFd _ _ local_port _ remote_port
  | Ipv6UdpFd _ _ local_port _ remote_port =>
      (local_port =? port) && (remote_port =? 0)
  | _ => false
  end.

Fixpoint listening_port_loop (port : Z) (procs : list Process)
  : M world (option Process) :=
  match procs with
  | [] => ret None
  | process :: procs =>
      let* fds := try_fds process in
      match fds with
      | None => listening_port_loop port procs
      | Some fds =>
          if existsb (is_listening_on port) fds then ret (Some process)
          else listening_port_loop port procs
      end
  end.

(** get a process object listening on the specified port *)
Definition get_process_by_listening_port (port : Z)
  : M world (option Process) :=
  let* procs := list_ in
  listening_port_loop port procs.

Fixpoint lsof_loop (procs : list Process) (result : gmap Z (list Fd))
  : M world (gmap Z (list Fd)) :=
  match procs with
  | [] => ret result
  | process :: procs =>
      let* fds := try_fds process in
      match fds with
      | None => lsof_loop procs result
      | Some fds => lsof_loop procs (<[pid process := fds]> result)
      end
  end.

(** get dictionary of pid to its opened fds *)
Definition lsof : M world (gmap Z (list Fd)) :=
  let* procs := list_ in
  lsof_loop procs ∅.

(** The inner loop of [fuser]: one [result.append(process)] for every
    [FileFd] whose absolute path is that of [path]. *)
Fixpoint fuser_fds (path_ : string) (process : Process) (fds : list Fd)
    (result : list Process) : list Process :=
  match fds with
  | [] => result
  | FileFd _ fd_path :: fds =>
      if String.eqb (path_absolute fd_path) (path_absolute path_)
      then fuser_fds path_ process fds (result ++ [process])
      else fuser_fds path_ process fds result
  | _ :: fds => fuser_fds path_ process fds result
  end.

Fixpoint fuser_loop (path_ : string) (proc_list result : list Process)
  : M world (list Process) :=
  match proc_list with
  | [] => ret result
  | process :: proc_list =>
      let* fds := try_fds process in
      match fds with
      | None => fuser_loop path_ proc_list result
      | Some fds =>
          fuser_loop path_ proc_list (fuser_fds path_ process fds result)
      end
  end.

(** get a list of all processes have an open hande to the specified path *)
Definition fuser (path_ : string) : M world (list Process) :=
  let* proc_list := list_ in
  fuser_loop path_ proc_list [].

End WithRemote.
End Processes.


(** ** Remote memory as the statements about strings see it

    [mem address] is the byte mapped at [address], if any; [mem_range]
    reads [n] consecutive addresses and fails at the first hole. *)
Fixpoint mem_range (mem : Z -> option byte) (address : Z) (n : nat)
  : option (list byte) :=
  match n with
  | O => Some []
  | S n =>
      match mem address, mem_range mem (address + 1) n with
      | Some b, Some bs => Some (b :: bs)
      | _, _ => None
      end
  end.


(** ** Vocabulary of the statements *)

Section Vocabulary.
Context `{R : Remote} `{Py : PyRuntime} `{St : Processes.Structs}.

(** [x] has the bit pattern of a class pointer on one of the two
    architectures, ARM64 and X86_64: under the architecture's mask it
    equals the expected value. *)
Definition isa_pattern (x : Z) : Prop :=
  Z.land x 0x000003f000000001 = 0x000001a000000001
  \/ Z.land x 0x001f800000000001 = 0x001d800000000001.

(** The task port of the process can be obtained, and is [t]. *)
Definition task_is (self : Processes.Process) (t : Z) : Prop :=
  forall w, exists w', task_for_pid (Processes.pid self) w = ((0, t), w').

(** [vm_read] on task [t] reads the memory [mem]: a read that succeeds
    delivers the bytes of a fully mapped range, and a one-byte read of a
    mapped address succeeds. *)
Definition reads_memory (t : Z) (mem : Z -> option byte) : Prop :=
  forall w address size, 0 < size ->
    let r := fst (vm_read t address size w) in
    (vm_kr r = 0 -> mem_range mem address (Z.to_nat size) = Some (vm_data r))
    /\ (size = 1 -> mem address <> None -> vm_kr r = 0).

(** The memo of [task] is empty or holds [t]. *)
Definition memo_ok (t : Z) (memo : option Z) : Prop :=
  memo = None \/ memo = Some t.

(** What [peek_str] must return for the text [s]: [s] decoded. *)
Definition decoded (s : list byte) : result (option (option string)) :=
  match bytes_decode s with
  | Some v => Ok (Some (Some v))
  | None => Raise UnicodeDecodeError
  end.

(** The flavor of the detail query that [fd_structs] issues for a raw
    descriptor, if it issues one. *)
Definition detail_flavor (fd : Processes.proc_fdinfo) : option Z :=
  if Processes.proc_fdtype fd =? Processes.PROX_FDTYPE_VNODE
  then Some Processes.PROC_PIDFDVNODEPATHINFO
  else if Processes.proc_fdtype fd =? Processes.PROX_FDTYPE_SOCKET
  then Some Processes.PROC_PIDFDSOCKETINFO
  else if Processes.proc_fdtype fd =? Processes.PROX_FDTYPE_PIPE
  then Some Processes.PROC_PIDFDPIPEINFO
  else None.

(** One attribute of every process of a snapshot, fetched in order. *)
Fixpoint each {A : Type} (f : Processes.Process -> M world A)
    (procs : list Processes.Process) : M world (list A) :=
  match procs with
  | [] => ret []
  | p :: procs =>
      let* a := f p in
      let* rest := each f procs in
      ret (a :: rest)
  end.

(** The processes [grep] keeps, given the basenames of the snapshot. *)
Definition grep_keeps (name_ : string) (procs : list Processes.Process)
    (basenames : list (option string)) : list Processes.Process :=
  map fst (List.filter (fun pb => Processes.grep_test name_ (snd pb))
             (combine procs basenames)).

(** What [lsof] and [fuser] make of the descriptors of every process of
    the snapshot; [None] stands for a process whose descriptors could not
    be read. *)
Fixpoint lsof_collect (procs : list Processes.Process)
    (outs : list (option (list Processes.Fd)))
    (result : gmap Z (list Processes.Fd)) : gmap Z (list Processes.Fd) :=
  match procs, outs with
  | process :: procs, Some fds :: outs =>
      lsof_collect procs outs (<[Processes.pid process := fds]> result)
  | _ :: procs, None :: outs => lsof_collect procs outs result
  | _, _ => result
  end.

Fixpoint fuser_collect (path_ : string) (procs : list Processes.Process)
    (outs : list (option (list Processes.Fd)))
    (result : list Processes.Process) : list Processes.Process :=
  match procs, outs with
  | process :: procs, Some fds :: outs =>
      fuser_collect path_ procs outs
        (Processes.fuser_fds path_ process fds result)
  | _ :: procs, None :: outs => fuser_collect path_ procs outs result
  | _, _ => result
  end.

(** [decode(encode(o))]: what [decode_cf] makes of the object that [cf]
    makes of [o]. *)
Definition round_trip (o : option PyObject) : M world (option PyObject) :=
  let* symbol := Client.cf o in
  Client.decode_cf symbol.

End Vocabulary.

(** ** Vocabulary of the statements about the value bridge *)

(** The shapes that the spec lists for a StructuredValue, in Python:
    Null, Bool, Instant (timezone-aware), Text, Bytes, Integer, Float64,
    Sequence of such values and Mapping from Text to such values. *)
Fixpoint listed (v : Python.pyvalue) : bool :=
  match v with
  | Python.PNone | Python.PBool _ | Python.PInt _ | Python.PFloat _
  | Python.PStr _ | Python.PBytes _ => true
  | Python.PDatetime _ (Some _) => true
  | Python.PDatetime _ None => false
  | Python.PList items => forallb listed items
  | Python.PDict items =>
      forallb (fun kv => Python.is_str (fst kv) && listed (snd kv)) items
  | Python.PByteArray _ | Python.PUid _ | Python.PTuple _
  | Python.POther _ => false
  end.


(** The value is, or holds as an item of a list or a tuple or as a value
    of a dict, an instant with a timezone. *)
Fixpoint holds_aware (v : Python.pyvalue) : bool :=
  match v with
  | Python.PDatetime _ (Some _) => true
  | Python.PList items | Python.PTuple items => existsb holds_aware items
  | Python.PDict items => existsb (fun kv => holds_aware (snd kv)) items
  | _ => false
  end.

(** The serializer raises on the value, in its first or in its second
    pass. *)
Definition refused (v : Python.pyvalue) : Prop :=
  Python.has_bad_key v = true \/ Python.write_error v <> None.

(** ** A scripted remote, for running the embedding on concrete inputs

    The world counts the remote calls made so far and holds the errno the
    last failing call left; what the stub answers is read off a script. *)
Module Demo.

Record state : Type := { errno : Z; calls : nat }.

Definition tick (w : state) : state :=
  {| errno := errno w; calls := S (calls w) |}.

Definition fail_with (e : Z) (w : state) : state :=
  {| errno := e; calls := S (calls w) |}.

Record script : Type := {
  (** remote memory *)
  memory : Z -> option byte;
  (** the byte count [vm_read] stores for a request of the given size *)
  reported : Z -> Z;
  (** the pids [proc_listallpids] stores *)
  pids : list Z;
  (** the raw [proc_fdinfo] array of a pid; empty makes the listing fail *)
  fd_table : Z -> list byte;
  (** pid and fd to the errno of the detail query (0: it succeeds) and
      the bytes it leaves in the scratch buffer *)
  fd_info : Z -> Z -> Z * list byte;
  (** the executable path of a pid; empty makes [proc_pidpath] return 0 *)
  paths : Z -> string;
  (** [pbi_name] of a pid; [None] makes the query return 0 *)
  names : Z -> option string;
}.

(** little-endian unsigned integer *)
Fixpoint le_to_Z (bs : list byte) : Z :=
  match bs with
  | [] => 0
  | b :: bs => Z.of_N (Byte.to_N b) + 256 * le_to_Z bs
  end.

Definition KERN_INVALID_ADDRESS : Z := 1.

Definition remote_of (sc : script) : Remote := {|
  world := state;
  symbol_getitem8 := fun address w =>
    (le_to_Z <$> mem_range (memory sc) address 8, tick w);
  kCFNull_getitem := fun w => (0x1f0, tick w);
  CFDataCreate := fun _ _ w => (0x2000, tick w);
  propertyListWithData := fun _ w => (0x3000, tick w);
  dataWithPropertyList := fun symbol w =>
    (if symbol =? 0x3000 then 0x4000 else 0, tick w);
  CFDataGetLength := fun _ w => (0, tick w);
  CFDataGetBytePtr_peek := fun _ _ w => ([], tick w);
  objc_release := fun _ w => (0, tick w);
  task_for_pid := fun pid w => ((0, 0x103), tick w);
  vm_read := fun _ address size w =>
    match mem_range (memory sc) address (Z.to_nat size) with
    | Some bs =>
        ({| vm_kr := 0; vm_data_cnt := reported sc size; vm_data := bs |},
         tick w)
    | None =>
        ({| vm_kr := KERN_INVALID_ADDRESS; vm_data_cnt := 0; vm_data := [] |},
         tick w)
    end;
  proc_listallpids := fun _ w =>
    ({| lp_count := Z.of_nat (length (pids sc));
        lp_item := fun i => nth i (pids sc) 0 |}, tick w);
  proc_pidinfo_listfds := fun pid _ w =>
    ({| pi_ret := Z.of_nat (length (fd_table sc pid));
        pi_buf := fd_table sc pid |}, tick w);
  proc_pidfdinfo := fun pid fd _ _ w =>
    let '(e, buf) := fd_info sc pid fd in
    if e =? 0 then
      ({| pi_ret := Z.of_nat (length buf); pi_buf := buf |}, tick w)
    else ({| pi_ret := 0; pi_buf := [] |}, fail_with e w);
  client_errno := errno;
  proc_pidpath := fun pid w =>
    ((Z.of_nat (String.length (paths sc pid)), paths sc pid), tick w);
  proc_pidinfo_taskallinfo := fun pid w =>
    match names sc pid with
    | Some n => ((232, n), tick w)
    | None => ((0, ""%string), tick w)
    end;
|}.

(** Python values for the examples: a text, and a set, which [plistlib]
    rejects. *)
Inductive value : Type :=
| Text (s : string)
| SetOf (items : list string).

(** the part of a path after its last slash *)
Fixpoint last_part (acc : string) (path : string) : string :=
  match path with
  | EmptyString => acc
  | String c rest =>
      if Ascii.eqb c "/"%char then last_part "" rest
      else last_part (acc ++ String c "") rest
  end.

Definition python : PyRuntime := {|
  PyObject := value;
  plistlib_dumps := fun o =>
    match o with
    | Text s => Ok (list_byte_of_string s)
    | SetOf _ => Raise TypeError
    end;
  plistlib_loads := fun bs => Ok (Some (Text (string_of_list_byte bs)));
  bytes_decode := fun bs =>
    if forallb (fun b => (Byte.to_N b <? 128)%N) bs
    then Some (string_of_list_byte bs) else None;
  path_last_part := fun path =>
    match last_part "" path with
    | EmptyString => None
    | part => Some part
    end;
  path_absolute := fun path => path;
|}.

(** The constants of the XNU headers and a compact stand-in for the
    layouts: a descriptor entry is two little-endian 32-bit words, a
    vnode detail is its NUL-terminated path, a socket detail is family,
    kind, local port and remote port as 16-bit words followed by the
    NUL-terminated unix path. *)
Fixpoint fdinfo_array (n : nat) (raw : list byte) : list Processes.proc_fdinfo :=
  match n with
  | O => []
  | S n =>
      {| Processes.proc_fd := le_to_Z (take 4 raw);
         Processes.proc_fdtype := le_to_Z (take 4 (drop 4 raw)) |}
      :: fdinfo_array n (drop 8 raw)
  end.

Definition text_of (raw : list byte) : string :=
  string_of_list_byte (Processes.before_nul raw).

Definition socket_of (raw : list byte) : Processes.socket_fdinfo :=
  let info := {| Processes.insi_laddr := "0.0.0.0";
                 Processes.insi_lport := le_to_Z (take 2 (drop 4 raw));
                 Processes.insi_faddr := "0.0.0.0";
                 Processes.insi_fport := le_to_Z (take 2 (drop 6 raw)) |} in
  {| Processes.soi_family := le_to_Z (take 2 raw);
     Processes.soi_kind := le_to_Z (take 2 (drop 2 raw));
     Processes.pri_tcp_tcpsi_ini := info;
     Processes.pri_in := info;
     Processes.pri_un_sun_path := text_of (drop 8 raw) |}.

Definition xnu : Processes.Structs := {|
  Processes.PROX_FDTYPE_VNODE := 1;
  Processes.PROX_FDTYPE_SOCKET := 2;
  Processes.PROX_FDTYPE_PIPE := 6;
  Processes.PROC_PIDFDVNODEPATHINFO := 2;
  Processes.PROC_PIDFDSOCKETINFO := 3;
  Processes.PROC_PIDFDPIPEINFO := 6;
  Processes.SOCKINFO_TCP := 2;
  Processes.SOCKINFO_IN := 1;
  Processes.SOCKINFO_UN := 3;
  Processes.AF_INET := 2;
  Processes.AF_INET6 := 30;
  Processes.pid_t_sizeof := 4;
  Processes.proc_fdinfo_sizeof := 8;
  Processes.proc_fdinfo_array_parse := fun n raw => fdinfo_array (Z.to_nat n) raw;
  Processes.vnode_fdinfowithpath_sizeof := 1200;
  Processes.vnode_fdinfowithpath_parse := fun raw =>
    {| Processes.vip_path := text_of raw |};
  Processes.socket_fdinfo_parse := socket_of;
  Processes.pipe_info_sizeof := 160;
  Processes.pipe_info_parse := fun raw => {| Processes.pipe_status := 0 |};
|}.

(** A descriptor entry as the kernel lays it out. *)
Definition entry (fd type : byte) : list byte :=
  [fd; x00; x00; x00; type; x00; x00; x00].

Definition w0 : state := {| errno := 0; calls := 0 |}.

(** Nothing mapped, nothing running. *)
Definition idle : script := {|
  memory := fun _ => None;
  reported := fun size => size;
  pids := [];
  fd_table := fun _ => [];
  fd_info := fun _ _ => (0, []);
  paths := fun _ => ""%string;
  names := fun _ => None;
|}.

(** The three bytes of ["hi"] and its NUL at 0x1000, nothing around. *)
Definition hi_memory (address : Z) : option byte :=
  if address <? 0x1000 then None
  else ([x68; x69; x00] : list byte) !! Z.to_nat (address - 0x1000).


(** ["hi"] in memory; [vm_read] reports byte counts honestly. *)
Definition hi : script := {|
  memory := hi_memory;
  reported := fun size => size;
  pids := [];
  fd_table := fun _ => [];
  fd_info := fun _ _ => (0, []);
  paths := fun _ => ""%string;
  names := fun _ => None;
|}.

(** The same memory behind a stub whose [vm_read] succeeds but always
    reports one byte. *)
Definition short_count : script := {|
  memory := hi_memory;
  reported := fun _ => 1;
  pids := [];
  fd_table := fun _ => [];
  fd_info := fun _ _ => (0, []);
  paths := fun _ => ""%string;
  names := fun _ => None;
|}.

(** An instance at 0x2000: its first eight bytes are an ARM64 isa. *)
Definition instance_memory (address : Z) : option byte :=
  if address <? 0x2000 then None
  else ([x01; x00; x00; x00; xa0; x01; x00; x00] : list byte)
         !! Z.to_nat (address - 0x2000).

Definition objc : script := {|
  memory := instance_memory;
  reported := fun size => size;
  pids := [];
  fd_table := fun _ => [];
  fd_info := fun _ _ => (0, []);
  paths := fun _ => ""%string;
  names := fun _ => None;
|}.

(** Three processes.  Pid 1 holds a file that is closed while the
    descriptors are enumerated (fd 3), a pipe (fd 4), the file
    [/etc/hosts] (fd 5), a kqueue (fd 6) and a kernel-event socket
    (fd 7).  Pid 2 is gone: its descriptor listing returns 0.  Pid 3
    holds [/etc/hosts] (fd 3) and a TCP socket listening on port 8080
    (fd 4). *)
Definition hosts : list byte := list_byte_of_string "/etc/hosts" ++ [x00].

Definition busy : script := {|
  memory := fun _ => None;
  reported := fun size => size;
  pids := [1; 2; 3];
  fd_table := fun pid =>
    if pid =? 1 then
      entry x03 x01 ++ entry x04 x06 ++ entry x05 x01 ++ entry x06 x05
      ++ entry x07 x02
    else if pid =? 3 then entry x03 x01 ++ entry x04 x02
    else [];
  fd_info := fun pid fd =>
    if pid =? 1 then
      if fd =? 3 then (Processes.EBADF, [])
      else if fd =? 4 then (0, [x01])
      else if fd =? 5 then (0, hosts)
      else (0, [x20; x00; x05; x00; x00; x00; x00; x00; x00])
    else
      if fd =? 3 then (0, hosts)
      else (0, [x02; x00; x02; x00; x90; x1f; x00; x00; x00]);
  paths := fun pid =>
    if pid =? 1 then "/sbin/launchd"%string
    else if pid =? 3 then "/usr/sbin/httpd"%string
    else ""%string;
  names := fun pid =>
    if pid =? 1 then Some "launchd"%string
    else if pid =? 3 then Some "httpd"%string
    else Some "zombie"%string;
|}.

(** The same, except that the detail query of fd 3 of pid 1 fails with
    EACCES. *)
Definition EACCES : Z := 13.

Definition denied : script := {|
  memory := memory busy;
  reported := reported busy;
  pids := pids busy;
  fd_table := fd_table busy;
  fd_info := fun pid fd =>
    if (pid =? 1) && (fd =? 3) then (EACCES, []) else fd_info busy pid fd;
  paths := paths busy;
  names := names busy;
|}.

(** The three processes again, but the name of pid 2 cannot be fetched. *)
Definition nameless : script := {|
  memory := memory busy;
  reported := reported busy;
  pids := pids busy;
  fd_table := fd_table busy;
  fd_info := fd_info busy;
  paths := paths busy;
  names := fun pid => if pid =? 2 then None else names busy pid;
|}.

(** Memory that reads as the letter A at every address. *)
Definition endless : script := {|
  memory := fun _ => Some x41;
  reported := fun size => size;
  pids := [];
  fd_table := fun _ => [];
  fd_info := fun _ _ => (0, []);
  paths := fun _ => ""%string;
  names := fun _ => None;
|}.

(** The two letters of ["hi"] at 0x1000 and nothing after them. *)
Definition cut_memory (address : Z) : option byte :=
  if address <? 0x1000 then None
  else ([x68; x69] : list byte) !! Z.to_nat (address - 0x1000).

Definition cut : script := {|
  memory := cut_memory;
  reported := fun size => size;
  pids := [];
  fd_table := fun _ => [];
  fd_info := fun _ _ => (0, []);
  paths := fun _ => ""%string;
  names := fun _ => None;
|}.

(** One process whose only descriptor is a TCP socket of a family that
    is neither AF_INET nor AF_INET6. *)
Definition odd_family : script := {|
  memory := fun _ => None;
  reported := fun size => size;
  pids := [1];
  fd_table := fun _ => entry x03 x02;
  fd_info := fun _ _ => (0, [x63; x00; x02; x00; x90; x1f; x00; x00; x00]);
  paths := fun _ => "/bin/odd"%string;
  names := fun _ => Some "odd"%string;
|}.

(** The bytes of [plistlib.dumps(plistlib.UID(3), fmt=plistlib.FMT_BINARY)]:
    the header, the UID, the offset table and the trailer. *)
Definition uid3 : list byte :=
  [x62; x70; x6c; x69; x73; x74; x30; x30; x80; x03; x08]
  ++ [x00; x00; x00; x00; x00; x00; x01; x01]
  ++ [x00; x00; x00; x00; x00; x00; x00; x01]
  ++ [x00; x00; x00; x00; x00; x00; x00; x00]
  ++ [x00; x00; x00; x00; x00; x00; x00; x0a].

(** The instant of the repository's test,
    [datetime.datetime(1967, 5, 4, 3, 2, 1, tzinfo=datetime.timezone.utc)]:
    1062363479 seconds before 2001-01-01 00:00:00, at UTC. *)
Definition test_instant : Python.pyvalue :=
  Python.PDatetime (-1062363479000000) (Some 0).

(** The interpreter with the values of [Python]; every value written
    comes out as the bytes [uid3], nothing is read back. *)
Definition python_values : PyRuntime :=
  Python.runtime python (fun _ => uid3) (fun _ => Ok None).

End Demo.

(** ** pyzshell/fs.py *)

Module Fs.

(** The exceptions of [fs.py]. *)
Inductive error : Set :=
| ZShellError
| NotImplementedError.

Inductive outcome (A : Type) : Type :=
| Done (a : A)
| Failed (e : error).
Arguments Done {A} a.
Arguments Failed {A} e.

(** A computation of [Fs] over some state [W]. *)
Definition F (W A : Type) : Type := W -> outcome A * W.

Definition pure {W A} (a : A) : F W A := fun w => (Done a, w).

Definition fail {W A} (e : error) : F W A := fun w => (Failed e, w).

Definition and_then {W A B} (c : F W A) (k : A -> F W B) : F W B :=
  fun w =>
    match c w with
    | (Done a, w') => k a w'
    | (Failed e, w') => (Failed e, w')
    end.

Definition invoke {W A} (f : W -> A * W) : F W A :=
  fun w => let '(a, w') := f w in (Done a, w').

Notation "'let!' x ':=' c 'in' k" := (and_then c (fun x => k))
  (at level 10, x pattern, c at level 100, k at level 200).

(** Modelled from the spec: the signed 32-bit and 64-bit views of a value
    returned by a remote call ("fixed-width integer reinterpretation");
    the class that provides [c_int32] and [c_int64] is in another module
    of the package. *)
Definition c_int32 (x : Z) : Z := (x + 2 ^ 31) mod 2 ^ 32 - 2 ^ 31.

Definition c_int64 (x : Z) : Z := (x + 2 ^ 63) mod 2 ^ 64 - 2 ^ 63.

(** The remote routines that [Fs] invokes, each with the raw value it
    returns; [listdir] and [stat] are the methods that the subclasses of
    [Fs] provide, with the [d_name] of every entry and the [st_mode]. *)
Class Remote : Type := {
  fsworld : Type;
  sym_chmod : string -> Z -> fsworld -> Z * fsworld;
  sym_remove : string -> fsworld -> Z * fsworld;
  sym_mkdir : string -> Z -> fsworld -> Z * fsworld;
  sym_chdir : string -> fsworld -> Z * fsworld;
  (** [open(filename, flags)] or [open(filename, flags, mode)] *)
  sym_open : string -> Z -> option Z -> fsworld -> Z * fsworld;
  (** [write(fd, buf, len(buf))] *)
  sym_write : Z -> list byte -> Z -> fsworld -> Z * fsworld;
  (** [read(fd, chunk, size)]: the value returned and the bytes found at
      [chunk] afterwards *)
  sym_read : Z -> Z -> fsworld -> (Z * list byte) * fsworld;
  sym_close : Z -> fsworld -> Z * fsworld;
  sym_symlink : string -> string -> fsworld -> Z * fsworld;
  sym_link : string -> string -> fsworld -> Z * fsworld;
  listdir : string -> fsworld -> outcome (list string) * fsworld;
  stat : string -> fsworld -> outcome Z * fsworld;
}.

(** The constants of [pyzshell.structs.consts] and [posixpath.join]. *)
Class Env : Type := {
  O_RDONLY : Z;
  O_WRONLY : Z;
  O_CREAT : Z;
  O_TRUNC : Z;
  S_IFMT : Z;
  S_IFDIR : Z;
  posixpath_join : string -> string -> string;
}.

Definition CHUNK_SIZE : Z := 1024.

Section WithRemote.
Context `{R : Remote} `{E : Env}.

(** chmod(filename, mode)at remote. read man for more details. *)
Definition chmod (filename : string) (mode : Z) : F fsworld unit :=
  let! r := invoke (sym_chmod filename mode) in
  if c_int32 r <? 0 then fail ZShellError else pure tt.

(** remove(filename) at remote. read man for more details. *)
Definition remove (filename : string) : F fsworld unit :=
  let! r := invoke (sym_remove filename) in
  if c_int32 r <? 0 then fail ZShellError else pure tt.

(** mkdir(filename, mode) at remote. read man for more details. *)
Definition mkdir (filename : string) (mode : Z) : F fsworld unit :=
  let! r := invoke (sym_mkdir filename mode) in
  if c_int64 r <? 0 then fail ZShellError else pure tt.

(** chdir(filename) filename at remote. read man for more details. *)
Definition chdir (filename : string) : F fsworld unit :=
  let! r := invoke (sym_chdir filename) in
  if c_int64 r <? 0 then fail ZShellError else pure tt.

(** The [while buf:] loop of [write_file]; [None] is fuel running out. *)
Fixpoint write_loop (fuel : nat) (fd : Z) (buf : list byte)
  : F fsworld (option unit) :=
  match fuel with
  | O => pure None
  | S fuel =>
      match buf with
      | [] => pure (Some tt)
      | _ =>
          let! r := invoke (sym_write fd buf (Z.of_nat (length buf))) in
          let err := c_int64 r in
          if err <? 0 then fail ZShellError
          else write_loop fuel fd (drop (Z.to_nat err) buf)
      end
  end.

(** write file at remote *)
Definition write_file (fuel : nat) (filename : string) (buf : list byte)
    (mode : Z) : F fsworld (option unit) :=
  let! r :=
    invoke (sym_open filename (Z.lor (Z.lor O_WRONLY O_CREAT) O_TRUNC)
              (Some mode)) in
  let fd := c_int32 r in
  if fd <? 0 then fail ZShellError
  else
    let! finished := write_loop fuel fd buf in
    match finished with
    | None => pure None
    | Some _ => let! _ := invoke (sym_close fd) in pure (Some tt)
    end.

(** The [while True:] loop of [read_file]; [None] is fuel running out. *)
Fixpoint read_loop (fuel : nat) (fd : Z) (buf : list byte)
  : F fsworld (option (list byte)) :=
  match fuel with
  | O => pure None
  | S fuel =>
      let! r := invoke (sym_read fd CHUNK_SIZE) in
      let err := c_int64 (fst r) in
      if err =? 0 then pure (Some buf)
      else if err <? 0 then fail ZShellError
      else read_loop fuel fd (buf ++ take (Z.to_nat err) (snd r))
  end.

(** read file at remote *)
Definition read_file (fuel : nat) (filename : string)
  : F fsworld (option (list byte)) :=
  let! r := invoke (sym_open filename O_RDONLY None) in
  let fd := c_int32 r in
  if fd <? 0 then fail ZShellError
  else
    let! buf := read_loop fuel fd [] in
    match buf with
    | None => pure None
    | Some buf => let! _ := invoke (sym_close fd) in pure (Some buf)
    end.

(** symlink(target, linkpath) at remote. read man for more details. *)
Definition symlink (target linkpath : string) : F fsworld Z :=
  let! r := invoke (sym_symlink target linkpath) in
  let err := c_int64 r in
  if err <? 0 then fail ZShellError else pure err.

(** link(target, linkpath) - hardlink at remote. read man for more details. *)
Definition link (target linkpath : string) : F fsworld Z :=
  let! r := invoke (sym_link target linkpath) in
  let err := c_int64 r in
  if err <? 0 then fail ZShellError else pure err.

(** *** walk

    The generator is run to its end by a consumer that only collects:
    the state holds the remote, the [blacklist] list, which the recursive
    calls share and extend, and what has been yielded so far. *)
Record walk_state : Type := {
  remote : fsworld;
  blacklist : list string;
  yielded : list (string * list string * list string);
}.

Definition on_remote {A} (f : fsworld -> outcome A * fsworld)
  : F walk_state A :=
  fun st =>
    let '(a, w') := f (remote st) in
    (a, {| remote := w'; blacklist := blacklist st; yielded := yielded st |}).

(** [filename in ('.', '..', '')] *)
Definition is_dot_entry (filename : string) : bool :=
  String.eqb filename "." || String.eqb filename ".."
  || String.eqb filename "".

(** [dirname in blacklist] *)
Definition in_blacklist (dirname : string) (blacklist : list string) : bool :=
  existsb (String.eqb dirname) blacklist.

(** The loop over [self.listdir(dirname)]. *)
Fixpoint sort_entries (dirname : string) (entries dirs files : list string)
  : F walk_state (list string * list string) :=
  match entries with
  | [] => pure (dirs, files)
  | filename :: entries =>
      if is_dot_entry filename then sort_entries dirname entries dirs files
      else
        let! st_mode := on_remote (stat (posixpath_join dirname filename)) in
        if Z.land st_mode S_IFMT =? Z.land st_mode S_IFDIR
        then sort_entries dirname entries (dirs ++ [filename]) files
        else sort_entries dirname entries dirs (files ++ [filename])
  end.

(** [yield dirname, dirs, files] followed by [blacklist.append(dirname)] *)
Definition yield_and_blacklist (dirname : string) (dirs files : list string)
  : F walk_state unit :=
  fun st =>
    (Done tt,
     {| remote := remote st;
        blacklist := blacklist st ++ [dirname];
        yielded := yielded st ++ [(dirname, dirs, files)] |}).

(** [None] is fuel running out: the tree may have no end. *)
Fixpoint walk (fuel : nat) (dirname : string) : F walk_state (option unit) :=
  match fuel with
  | O => pure None
  | S fuel =>
      fun st =>
        if in_blacklist dirname (blacklist st) then (Done (Some tt), st)
        else
          (let! entries := on_remote (listdir dirname) in
           let! sorted := sort_entries dirname entries [] [] in
           let '(dirs, files) := sorted in
           let! _ := yield_and_blacklist dirname dirs files in
           (fix each_dir (ds : list string) : F walk_state (option unit) :=
              match ds with
              | [] => pure (Some tt)
              | d :: ds =>
                  let! finished := walk fuel (posixpath_join dirname d) in
                  match finished with
                  | None => pure None
                  | Some _ => each_dir ds
                  end
              end) dirs) st
  end.

End WithRemote.

(** *** The remote under observation

    The same remote with a log of the descriptor traffic beside its
    world. *)
Inductive event : Type :=
| Opened (filename : string) (flags : Z) (mode : option Z)
| Wrote (fd : Z) (data : list byte)
| ReadFrom (fd : Z)
| Closed (fd : Z).

Definition logging {A} {W} (ev : list event) (f : W -> A * W)
  : W * list event -> A * (W * list event) :=
  fun st => let '(a, w') := f (fst st) in (a, (w', snd st ++ ev)).

Definition observed (R : Remote) : Remote := {|
  fsworld := @fsworld R * list event;
  sym_chmod := fun filename mode => logging [] (sym_chmod filename mode);
  sym_remove := fun filename => logging [] (sym_remove filename);
  sym_mkdir := fun filename mode => logging [] (sym_mkdir filename mode);
  sym_chdir := fun filename => logging [] (sym_chdir filename);
  sym_open := fun filename flags mode =>
    logging [Opened filename flags mode] (sym_open filename flags mode);
  sym_write := fun fd buf n => logging [Wrote fd buf] (sym_write fd buf n);
  sym_read := fun fd n => logging [ReadFrom fd] (sym_read fd n);
  sym_close := fun fd => logging [Closed fd] (sym_close fd);
  sym_symlink := fun target linkpath =>
    logging [] (sym_symlink target linkpath);
  sym_link := fun target linkpath => logging [] (sym_link target linkpath);
  listdir := fun dirname => logging [] (listdir dirname);
  stat := fun filename => logging [] (stat filename);
|}.

(** The descriptors closed in a log, in order. *)
Fixpoint closed_in (log : list event) : list Z :=
  match log with
  | [] => []
  | Closed fd :: log => fd :: closed_in log
  | _ :: log => closed_in log
  end.

End Fs.

(** ** Vocabulary of the statements about files *)

Section FsVocabulary.
Context `{R : Fs.Remote}.

(** [content] is what has been written to the descriptor so far, and a
    write on [fd] accepts some, not none and not more than offered, of
    the bytes it is given, adds them to the content and reports how many
    they were. *)
Definition accepts_some (fd : Z) (content : Fs.fsworld -> list byte) : Prop :=
  forall w buf, buf <> [] ->
    let r := Fs.sym_write fd buf (Z.of_nat (length buf)) w in
    0 < Fs.c_int64 (fst r) <= Z.of_nat (length buf)
    /\ content (snd r) = content w ++ take (Z.to_nat (Fs.c_int64 (fst r))) buf.

(** [rest] is what is left to read from the descriptor, and a read on
    [fd] reports 0 at the end of the file and otherwise delivers some
    first bytes of the rest and reports how many they are. *)
Definition delivers (fd : Z) (rest : Fs.fsworld -> list byte) : Prop :=
  forall w,
    let r := Fs.sym_read fd Fs.CHUNK_SIZE w in
    let k := Fs.c_int64 (fst (fst r)) in
    (rest w = [] -> k = 0)
    /\ (rest w <> [] ->
        0 < k <= Z.of_nat (length (rest w))
        /\ take (Z.to_nat k) (snd (fst r)) = take (Z.to_nat k) (rest w)
        /\ rest (snd r) = drop (Z.to_nat k) (rest w)).

(** The [dirname] of a yielded triple. *)
Definition dirname_of (y : string * list string * list string) : string :=
  fst (fst y).

(** The [dirs] and [files] of a yielded triple have no dot entry and no
    empty name. *)
Definition no_dot_entries (y : string * list string * list string) : Prop :=
  Forall (fun n => Fs.is_dot_entry n = false) (snd (fst y) ++ snd y).

(** From [st0] a walk has led to [st1]: it has yielded the triples [new]
    on top of what was yielded, and added their directories, in that
    order, to the blacklist. *)
Definition walked (st0 st1 : Fs.walk_state)
    (new : list (string * list string * list string)) : Prop :=
  Fs.yielded st1 = Fs.yielded st0 ++ new
  /\ Fs.blacklist st1 = Fs.blacklist st0 ++ map dirname_of new.

(** What holds of the triples a walk adds when it starts from the
    blacklist [bl]: no directory twice, none that was on the blacklist,
    no dot entry. *)
Definition sound_walk (bl : list string)
    (new : list (string * list string * list string)) : Prop :=
  List.NoDup (map dirname_of new)
  /\ (forall d, In d (map dirname_of new) -> ~ In d bl)
  /\ Forall no_dot_entries new.

(** The file-type test of [walk] on a mode: the type bits are those of a
    directory, or there are none. *)
Definition counts_as_dir (st_mode : Z) : bool :=
  (Z.land st_mode 0xf000 =? 0x4000) || (Z.land st_mode 0xf000 =? 0).

End FsVocabulary.

(** ** Vocabulary of the statements about descriptors and scans *)

Section MoreVocabulary.
Context `{R : Remote} `{Py : PyRuntime} `{St : Processes.Structs}.

(** The struct that [fd_structs] stores beside a raw descriptor is the
    one that [fds] will read for it. *)
Definition well_tagged (s : Processes.FdStruct) : bool :=
  let type := Processes.proc_fdtype (Processes.fs_fd s) in
  if type =? Processes.PROX_FDTYPE_VNODE then
    match Processes.fs_struct s with
    | Processes.VnodeStruct _ => true
    | _ => false
    end
  else if type =? Processes.PROX_FDTYPE_SOCKET then
    match Processes.fs_struct s with
    | Processes.SocketStruct _ => true
    | _ => false
    end
  else true.

(** [fd.fd] of a record *)
Definition fd_of (fd : Processes.Fd) : Z :=
  match fd with
  | Processes.PipeFd fd
  | Processes.FileFd fd _
  | Processes.UnixFd fd _
  | Processes.Ipv4TcpFd fd _ _ _ _
  | Processes.Ipv6TcpFd fd _ _ _ _
  | Processes.Ipv4UdpFd fd _ _ _ _
  | Processes.Ipv6UdpFd fd _ _ _ _ => fd
  end.

(** The raw descriptors that [fd_structs] enumerates when called in
    world [w]: what the second listing call delivers, parsed. *)
Definition raw_descriptors (self : Processes.Process) (w : world)
  : list Processes.proc_fdinfo :=
  let size := fst (proc_pidinfo_listfds (Processes.pid self) 0 w) in
  let wa := snd (proc_pidinfo_listfds (Processes.pid self) 0 w) in
  let fdinfo_buf :=
    fst (proc_pidinfo_listfds (Processes.pid self) (pi_ret size) wa) in
  Processes.proc_fdinfo_array_parse
    (pi_ret fdinfo_buf / Processes.proc_fdinfo_sizeof)
    (Processes.buf_peek (pi_buf fdinfo_buf) (pi_ret fdinfo_buf)).

(** Some descriptor of a process listens on [port]; a process whose
    descriptors could not be read does not. *)
Definition listens (port : Z) (fds : option (list Processes.Fd)) : bool :=
  match fds with
  | Some fds => existsb (Processes.is_listening_on port) fds
  | None => false
  end.

(** The descriptor is a file whose absolute path is that of [path_]. *)
Definition holds_path (path_ : string) (fd : Processes.Fd) : bool :=
  match fd with
  | Processes.FileFd _ fd_path =>
      String.eqb (path_absolute fd_path) (path_absolute path_)
  | _ => false
  end.

(** An IPv4/IPv6 record built by one of the four socket dataclasses from
    the descriptor number and the addresses and ports of [info]. *)
Definition inet_record
    (class : Z -> string -> Z -> string -> Z -> Processes.Fd)
    (fd : Processes.proc_fdinfo) (info : Processes.in_sockinfo)
  : Processes.Fd :=
  class (Processes.proc_fd fd) (Processes.insi_laddr info)
    (Processes.insi_lport info) (Processes.insi_faddr info)
    (Processes.insi_fport info).

(** How many descriptors of a process are open on [path_]; none when
    its descriptors could not be read. *)
Definition hits (path_ : string) (fds : option (list Processes.Fd)) : nat :=
  match fds with
  | Some fds => length (List.filter (holds_path path_) fds)
  | None => 0%nat
  end.

End MoreVocabulary.

(** A remote file system with one file: the world is the content of the
    file and the read position; writes take at most three bytes at a
    time, reads deliver at most four. *)
Module DemoFs.

Record disk : Type := { file : list byte; position : nat }.

Definition short_writes : Fs.Remote := {|
  Fs.fsworld := disk;
  Fs.sym_chmod := fun _ _ w => (0, w);
  Fs.sym_remove := fun _ w => (0, w);
  Fs.sym_mkdir := fun _ _ w => (0xffffffff, w);
  Fs.sym_chdir := fun _ w => (0, w);
  Fs.sym_open := fun _ flags _ w =>
    (3, if flags =? 0 then {| file := file w; position := 0 |}
        else {| file := []; position := 0 |});
  Fs.sym_write := fun _ buf _ w =>
    (Z.of_nat (length (take 3 buf)),
     {| file := file w ++ take 3 buf; position := position w |});
  Fs.sym_read := fun _ _ w =>
    let chunk := take 4 (drop (position w) (file w)) in
    ((Z.of_nat (length chunk), chunk),
     {| file := file w; position := (position w + length chunk)%nat |});
  Fs.sym_close := fun _ w => (0, w);
  Fs.sym_symlink := fun _ _ w => (0, w);
  Fs.sym_link := fun _ _ w => (0, w);
  Fs.listdir := fun _ w => (Fs.Failed Fs.NotImplementedError, w);
  Fs.stat := fun _ w => (Fs.Failed Fs.NotImplementedError, w);
|}.

(** The same file system, except that [write] accepts nothing. *)
Definition full : Fs.Remote := {|
  Fs.fsworld := disk;
  Fs.sym_chmod := fun _ _ w => (0, w);
  Fs.sym_remove := fun _ w => (0, w);
  Fs.sym_mkdir := fun _ _ w => (0, w);
  Fs.sym_chdir := fun _ w => (0, w);
  Fs.sym_open := fun _ _ _ w => (3, w);
  Fs.sym_write := fun _ _ _ w => (0, w);
  Fs.sym_read := fun _ _ w => ((0, []), w);
  Fs.sym_close := fun _ w => (0, w);
  Fs.sym_symlink := fun _ _ w => (0, w);
  Fs.sym_link := fun _ _ w => (0, w);
  Fs.listdir := fun _ w => (Fs.Failed Fs.NotImplementedError, w);
  Fs.stat := fun _ w => (Fs.Failed Fs.NotImplementedError, w);
|}.

(** The POSIX constants, and [posixpath.join] for a relative second
    part. *)
Definition posix : Fs.Env := {|
  Fs.O_RDONLY := 0;
  Fs.O_WRONLY := 1;
  Fs.O_CREAT := 0x200;
  Fs.O_TRUNC := 0x400;
  Fs.S_IFMT := 0xf000;   (* 0o170000 *)
  Fs.S_IFDIR := 0x4000;  (* 0o040000 *)
  Fs.posixpath_join := fun a b => (a ++ "/" ++ b)%string;
|}.

Definition blank : disk := {| file := []; position := 0 |}.

(** A directory tree: [/r] holds the directory [a], listed twice, the
    file [f] and the dot entries; [/r/a] holds the file [g]. *)
Definition tree : Fs.Remote := {|
  Fs.fsworld := nat;
  Fs.sym_chmod := fun _ _ w => (0, w);
  Fs.sym_remove := fun _ w => (0, w);
  Fs.sym_mkdir := fun _ _ w => (0, w);
  Fs.sym_chdir := fun _ w => (0, w);
  Fs.sym_open := fun _ _ _ w => (3, w);
  Fs.sym_write := fun _ _ _ w => (0, w);
  Fs.sym_read := fun _ _ w => ((0, []), w);
  Fs.sym_close := fun _ w => (0, w);
  Fs.sym_symlink := fun _ _ w => (0, w);
  Fs.sym_link := fun _ _ w => (0, w);
  Fs.listdir := fun dirname w =>
    (if String.eqb dirname "/r"
     then Fs.Done ["."; ".."; "a"; "f"; "a"]%string
     else if String.eqb dirname "/r/a" then Fs.Done ["."; ".."; "g"]%string
     else Fs.Failed Fs.ZShellError, S w);
  Fs.stat := fun filename w =>
    (if String.eqb filename "/r/a" then Fs.Done 0x41ed
     else Fs.Done 0x81a4, S w);
|}.

Definition fresh : @Fs.walk_state tree :=
  @Fs.Build_walk_state tree 0%nat [] [].

Definition hello : list byte := list_byte_of_string "hello world".

End DemoFs.

(** * Theorems *)

Lemma exn_eqb_eq (a b : exn) : exn_eqb a b = true <-> a = b.
Proof. destruct a, b; simpl; split; intros H; congruence. Qed.

Lemma exn_eqb_refl (a : exn) : exn_eqb a a = true.
Proof. now apply exn_eqb_eq. Qed.

Lemma tag_mask_test (x : Z) :
  (Z.land x Client.OBJC_TAG_MASK =? Client.OBJC_TAG_MASK) = Z.testbit x 63.
Proof.
  unfold Client.OBJC_TAG_MASK. rewrite Z.shiftl_1_l.
  destruct (Z.testbit x 63) eqn:Hb.
  - apply Z.eqb_eq. apply Z.bits_inj'. intros n Hn.
    rewrite Z.land_spec, Z.pow2_bits_eqb by lia.
    destruct (Z.eqb_spec 63 n) as [<-|Hne].
    + now rewrite Hb.
    + apply andb_false_r.
  - apply Z.eqb_neq. intros Heq.
    assert (Ht : Z.testbit (Z.land x (2 ^ 63)) 63 = true).
    { rewrite Heq. apply Z.pow2_bits_true. lia. }
    rewrite Z.land_spec, Hb in Ht. discriminate.
Qed.

Lemma matches_isa_magic_pattern (x : Z) :
  Client.matches_isa_magic x = true <-> isa_pattern x.
Proof.
  unfold Client.matches_isa_magic, Client.ISA_MAGICS, isa_pattern.
  cbn [existsb Client.mask Client.value].
  rewrite orb_false_r, orb_true_iff, !Z.eqb_eq. reflexivity.
Qed.

(** C2. The classifier applies three tests in this order.  An address
    with bit 63 set is an object, and nothing is read, whatever its other
    bits.  Otherwise an address that has itself the bit pattern of a class
    pointer (under the mask of one of the two architectures it equals the
    expected value) is not an object, and nothing is read.  Otherwise the
    8 bytes at the address are read: a failed read means not an object,
    and a value read means object exactly when that value has the bit
    pattern of a class pointer. *)
Theorem is_objc_type_decision `{R : Remote} (symbol : Z) (w : world) :
  (Z.testbit symbol 63 = true ->
   Client.is_objc_type symbol w = (Ok true, w))
  /\ (Z.testbit symbol 63 = false -> isa_pattern symbol ->
      Client.is_objc_type symbol w = (Ok false, w))
  /\ (Z.testbit symbol 63 = false -> ~ isa_pattern symbol ->
      forall w',
        (symbol_getitem8 symbol w = (None, w') ->
         Client.is_objc_type symbol w = (Ok false, w'))
        /\ (forall isa,
              symbol_getitem8 symbol w = (Some isa, w') ->
              (isa_pattern isa ->
               Client.is_objc_type symbol w = (Ok true, w'))
              /\ (~ isa_pattern isa ->
                  Client.is_objc_type symbol w = (Ok false, w')))).
Proof.
  unfold Client.is_objc_type. rewrite tag_mask_test.
  split; [|split].
  - now intros ->.
  - intros -> Hclass. apply matches_isa_magic_pattern in Hclass.
    now rewrite Hclass.
  - intros -> Hclass w'.
    destruct (Client.matches_isa_magic symbol) eqn:Hself.
    { exfalso. now apply Hclass, matches_isa_magic_pattern. }
    split.
    + now intros ->.
    + intros isa ->. split.
      * intros Hisa. apply matches_isa_magic_pattern in Hisa.
        now rewrite Hisa.
      * intros Hisa.
        destruct (Client.matches_isa_magic isa) eqn:Hm; [|reflexivity].
        exfalso. now apply Hisa, matches_isa_magic_pattern.
Qed.

Lemma is_objc_type_decision_witness :
  @Client.is_objc_type (Demo.remote_of Demo.objc) 0x2000 Demo.w0
  = (Ok true, {| Demo.errno := 0; Demo.calls := 1 |}).
Proof.
  refine (proj1 (proj2 (proj2 (proj2
            (@is_objc_type_decision (Demo.remote_of Demo.objc) 0x2000 Demo.w0))
            eq_refl _ {| Demo.errno := 0; Demo.calls := 1 |})
            0x000001a000000001 eq_refl) _).
  - intros [H|H]; discriminate H.
  - left. reflexivity.
Defined.

(** The tag decides first: an address with bit 63 set is an object even
    when its other bits are those of a class pointer. *)
Example is_objc_type_tagged_class :
  @Client.is_objc_type (Demo.remote_of Demo.objc) 0x800001a000000001 Demo.w0
  = (Ok true, Demo.w0).
Proof. reflexivity. Qed.

(** A tagged pointer and a class-like address are settled without a
    read; an instance is recognised through its isa; an address that
    cannot be read is not an object. *)
Example is_objc_type_tagged :
  @Client.is_objc_type (Demo.remote_of Demo.objc) 0x8000000000000007 Demo.w0
  = (Ok true, Demo.w0).
Proof. reflexivity. Qed.

Example is_objc_type_class :
  @Client.is_objc_type (Demo.remote_of Demo.objc) 0x000001a000000001 Demo.w0
  = (Ok false, Demo.w0).
Proof. reflexivity. Qed.

Example is_objc_type_instance :
  @Client.is_objc_type (Demo.remote_of Demo.objc) 0x2000 Demo.w0
  = (Ok true, {| Demo.errno := 0; Demo.calls := 1 |}).
Proof. reflexivity. Qed.

Example is_objc_type_unmapped :
  @Client.is_objc_type (Demo.remote_of Demo.objc) 0x1000 Demo.w0
  = (Ok false, {| Demo.errno := 0; Demo.calls := 1 |}).
Proof. reflexivity. Qed.

(** ** Memory access: [peek] and [peek_str] *)

Lemma mem_range_lookup mem address n bs :
  mem_range mem address n = Some bs ->
  length bs = n /\
  forall i : nat, (i < n)%nat -> mem (address + Z.of_nat i) = bs !! i.
Proof.
  revert address bs. induction n as [|n IH]; intros address bs H; simpl in H.
  - injection H as <-. split; [reflexivity|]. intros i Hi. lia.
  - destruct (mem address) as [b|] eqn:Hb; [|discriminate].
    destruct (mem_range mem (address + 1) n) as [bs'|] eqn:Hr; [|discriminate].
    injection H as <-. destruct (IH _ _ Hr) as [Hlen Hnth].
    split; [simpl; congruence|].
    intros [|i] Hi.
    + simpl. now rewrite Z.add_0_r.
    + simpl. rewrite <- Hnth by lia. f_equal. lia.
Qed.

Lemma has_nul_app (l1 l2 : list byte) :
  Processes.has_nul (l1 ++ l2) = Processes.has_nul l1 || Processes.has_nul l2.
Proof. unfold Processes.has_nul. apply existsb_app. Qed.

Lemma has_nul_take (n : nat) (l : list byte) :
  Processes.has_nul l = false -> Processes.has_nul (take n l) = false.
Proof.
  revert n. induction l as [|b l IH]; intros [|n] H; simpl in *; try reflexivity.
  apply orb_false_iff in H as [Hb Hl]. rewrite Hb. simpl. now apply IH.
Qed.

Lemma before_nul_app (l rest : list byte) :
  Processes.has_nul l = false ->
  Processes.before_nul (l ++ x00 :: rest) = l.
Proof.
  induction l as [|b l IH]; intros H; simpl in *.
  - reflexivity.
  - apply orb_false_iff in H as [Hb Hl].
    destruct (Byte.eqb b x00) eqn:E.
    + apply Byte.byte_dec_bl in E. subst b. discriminate.
    + f_equal. now apply IH.
Qed.

Section PeekStr.
Context `{R : Remote} `{Py : PyRuntime}.
Variable self : Processes.Process.

Lemma task_ok t w memo :
  task_is self t -> memo_ok t memo ->
  exists w', Processes.task self (w, memo) = (Ok t, (w', Some t)).
Proof.
  intros Ht [->| ->]; unfold Processes.task; simpl.
  - destruct (Ht w) as [w' ->]. simpl. now exists w'.
  - now exists w.
Qed.

(** [peek] either raises BadReturnValueError or returns what [vm_read]
    delivered. *)
Lemma peek_outcome t w memo address size :
  task_is self t -> memo_ok t memo ->
  exists w',
    let r := fst (vm_read t address size w') in
    Processes.peek self address size (w, memo) =
      (if vm_kr r =? 0 then Ok (vm_data r) else Raise BadReturnValueError,
       (snd (vm_read t address size w'), Some t)).
Proof.
  intros Ht Hm. destruct (task_ok t w memo Ht Hm) as [w' Htask].
  exists w'. unfold Processes.peek, bind. rewrite Htask.
  unfold Processes.remote. simpl.
  destruct (vm_read t address size w') as [r w'']. simpl.
  now destruct (vm_kr r =? 0).
Qed.

Lemma peek_str_body_failure address size buf st st' :
  Processes.peek self address size st = (Raise BadReturnValueError, st') ->
  Processes.peek_str_body self address size buf st =
    (Ok (Processes.Next address (size / 2) buf), st').
Proof.
  intros H. unfold Processes.peek_str_body, try_except, bind. now rewrite H.
Qed.

Lemma peek_str_body_success address size buf st st' chunk :
  Processes.peek self address size st = (Ok chunk, st') ->
  Processes.peek_str_body self address size buf st =
    if Processes.has_nul (buf ++ chunk) then
      match bytes_decode (Processes.before_nul (buf ++ chunk)) with
      | Some s => (Ok (Processes.Return s), st')
      | None => (Raise UnicodeDecodeError, st')
      end
    else (Ok (Processes.Next (address + size) size (buf ++ chunk)), st').
Proof.
  intros H. unfold Processes.peek_str_body, try_except, bind. rewrite H.
  destruct (Processes.has_nul (buf ++ chunk)); [|reflexivity].
  now destruct (bytes_decode _).
Qed.

Lemma peek_str_body_outcome address size buf st :
  exists st',
    (exists step, Processes.peek_str_body self address size buf st = (Ok step, st'))
    \/ Processes.peek_str_body self address size buf st =
         (Raise UnicodeDecodeError, st').
Proof.
  unfold Processes.peek_str_body, try_except, bind.
  destruct (Processes.peek self address size st) as [[chunk|e] st'] eqn:Hpeek.
  - exists st'. destruct (Processes.has_nul (buf ++ chunk)).
    + destruct (bytes_decode _); simpl; eauto.
    + simpl. eauto.
  - exists st'. left.
    assert (e = BadReturnValueError) as ->.
    { unfold Processes.peek, bind in Hpeek.
      destruct (Processes.task self st) as [[t|e'] st1] eqn:Htask.
      - unfold Processes.remote in Hpeek.
        destruct (vm_read t address size st1.1) as [r w2].
        destruct (vm_kr r =? 0); unfold ret, raise in Hpeek; simpl in Hpeek;
          congruence.
      - injection Hpeek as -> _. unfold Processes.task in Htask.
        destruct (st.2); [congruence|].
        destruct (task_for_pid _ _) as [[kr t] w1].
        destruct (kr =? 0); congruence. }
    simpl. eauto.
Qed.

Lemma peek_str_loop_no_escape (fuel : nat) :
  forall address size buf st,
    fst (Processes.peek_str_loop fuel self address size buf st)
      <> Raise BadReturnValueError.
Proof.
  induction fuel as [|fuel IH]; intros address size buf st; simpl;
    [discriminate|].
  destruct (size =? 0); [discriminate|].
  unfold bind.
  destruct (peek_str_body_outcome address size buf st) as [st' [[step ->]| ->]].
  - destruct step; [discriminate|apply IH].
  - discriminate.
Qed.

Lemma peek_str_loop_gives_up (fuel : nat) :
  (forall a n st,
     0 < n -> fst (Processes.peek self a n st) = Raise BadReturnValueError) ->
  forall (j : nat) address size buf st,
    0 <= size < 2 ^ Z.of_nat j -> (j + 1 <= fuel)%nat ->
    fst (Processes.peek_str_loop fuel self address size buf st) = Ok (Some None).
Proof.
  intros Hfail.
  induction fuel as [|fuel IH]; intros j address size buf st Hsize Hfuel;
    [lia|].
  simpl. destruct (Z.eqb_spec size 0) as [->|Hnz]; [reflexivity|].
  unfold bind.
  destruct (Processes.peek self address size st) as [res st'] eqn:Hpeek.
  pose proof (Hfail address size st ltac:(lia)) as Hres. rewrite Hpeek in Hres.
  simpl in Hres. subst res.
  rewrite (peek_str_body_failure _ _ _ _ _ Hpeek).
  destruct j as [|j]; [simpl in Hsize; lia|].
  apply (IH j); [|lia].
  rewrite Nat2Z.inj_succ, Z.pow_succ_r in Hsize by lia.
  split.
  - apply Z.div_pos; lia.
  - apply Z.div_lt_upper_bound; lia.
Qed.

Section Correct.
Variables (t : Z) (mem : Z -> option byte) (address : Z) (s : list byte).
Hypothesis Htask : task_is self t.
Hypothesis Hread : reads_memory t mem.
Hypothesis Hs : Processes.has_nul s = false.
Hypothesis Hmem : mem_range mem address (S (length s)) = Some (s ++ [x00]).

Lemma string_at (i : nat) :
  (i <= length s)%nat -> mem (address + Z.of_nat i) = (s ++ [x00]) !! i.
Proof.
  intros Hi. destruct (mem_range_lookup _ _ _ _ Hmem) as [_ H].
  apply H. lia.
Qed.

Lemma chunk_lookup k n chunk (i : nat) :
  mem_range mem (address + Z.of_nat k) n = Some chunk ->
  (i < n)%nat -> (k + i <= length s)%nat ->
  chunk !! i = (s ++ [x00]) !! (k + i)%nat.
Proof.
  intros Hc Hi Hk. destruct (mem_range_lookup _ _ _ _ Hc) as [_ H].
  rewrite <- (H i Hi), <- string_at by lia. f_equal. lia.
Qed.

Lemma chunk_inside k n chunk :
  (k + n <= length s)%nat ->
  mem_range mem (address + Z.of_nat k) n = Some chunk ->
  take k s ++ chunk = take (k + n) s.
Proof.
  intros Hk Hc. rewrite <- take_take_drop. f_equal.
  destruct (mem_range_lookup _ _ _ _ Hc) as [Hlen _].
  apply list_eq. intros i.
  destruct (Nat.lt_ge_cases i n) as [Hi|Hi].
  - rewrite (chunk_lookup k n chunk i Hc Hi) by lia.
    rewrite lookup_take_lt, lookup_drop by lia.
    apply lookup_app_l. lia.
  - rewrite lookup_take_ge by lia. apply lookup_ge_None. lia.
Qed.

Lemma chunk_past k n chunk :
  (k <= length s)%nat -> (length s < k + n)%nat ->
  mem_range mem (address + Z.of_nat k) n = Some chunk ->
  exists rest, take k s ++ chunk = s ++ x00 :: rest.
Proof.
  intros Hk Hn Hc.
  destruct (mem_range_lookup _ _ _ _ Hc) as [Hlen _].
  set (m := (length s - k)%nat).
  assert (Hx : chunk !! m = Some x00).
  { rewrite (chunk_lookup k n chunk m Hc) by (unfold m; lia).
    replace (k + m)%nat with (length s + 0)%nat by (unfold m; lia).
    now rewrite lookup_app_r, Nat.add_comm, Nat.add_sub by lia. }
  assert (Ht : take m chunk = drop k s).
  { apply list_eq. intros i.
    destruct (Nat.lt_ge_cases i m) as [Hi|Hi].
    - rewrite lookup_take_lt by lia.
      rewrite (chunk_lookup k n chunk i Hc) by (unfold m in *; lia).
      rewrite lookup_drop. apply lookup_app_l. unfold m in *. lia.
    - rewrite lookup_take_ge by lia. symmetry. apply lookup_ge_None.
      rewrite length_drop. unfold m in *. lia. }
  exists (drop (S m) chunk).
  transitivity (take k s ++ (take m chunk ++ x00 :: drop (S m) chunk)).
  { f_equal. symmetry. now apply take_drop_middle. }
  now rewrite Ht, app_assoc, take_drop.
Qed.

Lemma peek_str_loop_correct (fuel : nat) :
  forall (j k : nat) (size : Z) (w : world) (memo : option Z),
    memo_ok t memo ->
    (k <= length s)%nat ->
    0 < size < 2 ^ (Z.of_nat j + 1) ->
    (length s - k + j + 1 <= fuel)%nat ->
    fst (Processes.peek_str_loop fuel self (address + Z.of_nat k) size
           (take k s) (w, memo)) = decoded s.
Proof.
  induction fuel as [|fuel IH]; intros j k size w memo Hmemo Hk Hsize Hfuel;
    [lia|].
  simpl. destruct (Z.eqb_spec size 0) as [->|_]; [lia|].
  destruct (peek_outcome t w memo (address + Z.of_nat k) size Htask Hmemo)
    as [w' Hpeek].
  simpl in Hpeek.
  destruct (Hread w' (address + Z.of_nat k) size ltac:(lia)) as [Hsound Hbyte].
  unfold bind at 1.
  destruct (Z.eqb_spec (vm_kr (fst (vm_read t (address + Z.of_nat k) size w'))) 0)
    as [Hkr|Hkr].
  - (* the chunk was read *)
    specialize (Hsound Hkr).
    rewrite (peek_str_body_success _ _ _ _ _ _ Hpeek).
    destruct (Nat.le_gt_cases (k + Z.to_nat size) (length s)) as [Hin|Hout].
    + rewrite (chunk_inside k _ _ Hin Hsound).
      rewrite has_nul_take by exact Hs.
      replace (address + Z.of_nat k + size)
        with (address + Z.of_nat (k + Z.to_nat size)) by lia.
      apply (IH j); [now right | lia | lia | lia].
    + destruct (chunk_past k _ _ Hk Hout Hsound) as [rest ->].
      rewrite has_nul_app. simpl. rewrite orb_true_r.
      rewrite before_nul_app by exact Hs. unfold decoded.
      now destruct (bytes_decode s).
  - (* the chunk could not be read: halve and retry *)
    rewrite (peek_str_body_failure _ _ _ _ _ Hpeek).
    assert (Hne1 : size <> 1).
    { intros ->. apply Hkr, Hbyte; [reflexivity|].
      rewrite string_at by lia. intros Hnone.
      apply lookup_ge_None in Hnone. rewrite length_app in Hnone. simpl in Hnone. lia. }
    destruct j as [|j].
    { simpl in Hsize. lia. }
    apply (IH j); [now right | lia | | lia].
    replace (Z.of_nat (S j) + 1) with (Z.succ (Z.of_nat j + 1)) in Hsize by lia.
    rewrite Z.pow_succ_r in Hsize by lia.
    split.
    + apply Z.div_str_pos. lia.
    + apply Z.div_lt_upper_bound; lia.
Qed.

End Correct.

End PeekStr.

(** C3. Where memory holds the text [s] followed by a NUL at [address],
    [peek_str] returns [s] decoded, given enough turns of its loop: it
    starts with chunks of 256 bytes, keeps what it read, and halves the
    chunk at the same address whenever a read fails.  Nothing is assumed
    about which reads succeed beyond a one-byte read of a mapped address,
    so the first reads are free to fail. *)
Theorem peek_str_returns_prefix `{R : Remote} `{Py : PyRuntime}
    (self : Processes.Process) (t : Z) (mem : Z -> option byte)
    (address : Z) (s : list byte) (fuel : nat) (w : world)
    (memo : option Z) :
  task_is self t ->
  reads_memory t mem ->
  Processes.has_nul s = false ->
  mem_range mem address (S (length s)) = Some (s ++ [x00]) ->
  memo_ok t memo ->
  (length s + 9 <= fuel)%nat ->
  fst (Processes.peek_str fuel self address (w, memo)) = decoded s.
Proof.
  intros Htask Hread Hs Hmem Hmemo Hfuel. unfold Processes.peek_str.
  replace address with (address + Z.of_nat 0) by lia.
  change (@nil byte) with (take 0 s).
  apply (peek_str_loop_correct self t mem address s Htask Hread Hs Hmem fuel 8);
    [exact Hmemo | lia | | lia].
  unfold Processes.PEEK_STR_CHUNK_SIZE. simpl. lia.
Qed.

Lemma demo_task_is (sc : Demo.script) (self : Processes.Process) :
  @task_is (Demo.remote_of sc) self 0x103.
Proof. intros w. now exists (Demo.tick w). Qed.

Lemma demo_reads_memory (sc : Demo.script) (t : Z) :
  @reads_memory (Demo.remote_of sc) t (Demo.memory sc).
Proof.
  intros w address size Hsize. simpl.
  destruct (mem_range (Demo.memory sc) address (Z.to_nat size)) as [bs|] eqn:E;
    simpl; split; try easy.
  intros -> Hmapped. simpl in E.
  destruct (Demo.memory sc address); [discriminate|contradiction].
Qed.

(** The first read, of 256 bytes, fails on the three mapped bytes. *)
Example hi_first_read_fails :
  fst (@Processes.peek (Demo.remote_of Demo.hi) {| Processes.pid := 1 |}
         0x1000 0x100 (Demo.w0, None))
  = Raise BadReturnValueError.
Proof. reflexivity. Qed.

Lemma peek_str_returns_prefix_witness :
  fst (@Processes.peek_str (Demo.remote_of Demo.hi) Demo.python 11
         {| Processes.pid := 1 |} 0x1000 (Demo.w0, None))
  = Ok (Some (Some "hi"%string)).
Proof.
  apply (@peek_str_returns_prefix (Demo.remote_of Demo.hi) Demo.python
           {| Processes.pid := 1 |} 0x103 Demo.hi_memory 0x1000 [x68; x69]
           11 Demo.w0 None).
  - apply demo_task_is.
  - apply (demo_reads_memory Demo.hi).
  - reflexivity.
  - reflexivity.
  - now left.
  - simpl. lia.
Defined.

(** C5 (as the code has it). With the task port at hand, [peek] raises
    BadReturnValueError exactly when [vm_read] returns a non-zero status,
    and otherwise returns the bytes read; the byte count that [vm_read]
    reports plays no part. *)
Theorem peek_fails_on_status_only `{R : Remote} (self : Processes.Process)
    (address size : Z) (st : Processes.pstate) (t : Z) (w1 w2 : world)
    (memo1 : option Z) (r : vm_read_reply) :
  Processes.task self st = (Ok t, (w1, memo1)) ->
  vm_read t address size w1 = (r, w2) ->
  Processes.peek self address size st =
    (if vm_kr r =? 0 then Ok (vm_data r) else Raise BadReturnValueError,
     (w2, memo1)).
Proof.
  intros Htask Hread. unfold Processes.peek, bind. rewrite Htask.
  unfold Processes.remote. simpl. rewrite Hread.
  now destruct (vm_kr r =? 0).
Qed.

Lemma peek_fails_on_status_only_witness :
  @Processes.peek (Demo.remote_of Demo.short_count) {| Processes.pid := 1 |}
    0x1000 2 (Demo.w0, None)
  = (Ok [x68; x69], ({| Demo.errno := 0; Demo.calls := 2 |}, Some 0x103)).
Proof.
  apply (@peek_fails_on_status_only (Demo.remote_of Demo.short_count)
           {| Processes.pid := 1 |} 0x1000 2 (Demo.w0, None) 0x103
           {| Demo.errno := 0; Demo.calls := 1 |}
           {| Demo.errno := 0; Demo.calls := 2 |} (Some 0x103)
           {| vm_kr := 0; vm_data_cnt := 1; vm_data := [x68; x69] |}).
  - reflexivity.
  - reflexivity.
Defined.

(** C5 as stated fails: a [vm_read] that succeeds while reporting one
    byte for a request of two makes [peek] return. *)
Lemma peek_ignores_reported_length :
  ~ (forall (R : Remote) (self : Processes.Process) (address size : Z)
       (w : world) (t : Z) (bs : list byte) (st' : Processes.pstate),
       Processes.peek self address size (w, Some t) = (Ok bs, st') ->
       vm_data_cnt (fst (vm_read t address size w)) = size).
Proof.
  intros H.
  specialize (H (Demo.remote_of Demo.short_count) {| Processes.pid := 1 |}
                0x1000 2 Demo.w0 0x103 _ _ eq_refl).
  discriminate H.
Qed.

(** C9. [peek_str] never lets BadReturnValueError out, whatever the
    reads do: a read that fails leaves the address and the buffer as they
    were and halves the chunk size; once the chunk size is zero the loop
    ends and the result is Python's [None]; and when every read fails that
    is reached after the nine halvings of 256. *)
Theorem peek_str_absorbs_read_failures `{R : Remote} `{Py : PyRuntime}
    (self : Processes.Process) :
  (forall fuel address st,
     fst (Processes.peek_str fuel self address st) <> Raise BadReturnValueError)
  /\ (forall address size buf st st',
        Processes.peek self address size st = (Raise BadReturnValueError, st') ->
        Processes.peek_str_body self address size buf st
        = (Ok (Processes.Next address (size / 2) buf), st'))
  /\ (forall fuel address buf st,
        Processes.peek_str_loop (S fuel) self address 0 buf st
        = (Ok (Some None), st))
  /\ (forall fuel address st,
        (forall a n st1,
           0 < n ->
           fst (Processes.peek self a n st1) = Raise BadReturnValueError) ->
        (10 <= fuel)%nat ->
        fst (Processes.peek_str fuel self address st) = Ok (Some None)).
Proof.
  split; [|split; [|split]].
  - intros fuel address st. apply peek_str_loop_no_escape.
  - intros address size buf st st'. apply peek_str_body_failure.
  - reflexivity.
  - intros fuel address st Hfail Hfuel.
    apply (peek_str_loop_gives_up self fuel Hfail 9); [|lia].
    unfold Processes.PEEK_STR_CHUNK_SIZE. simpl. lia.
Qed.

Lemma peek_str_absorbs_read_failures_witness :
  fst (@Processes.peek_str (Demo.remote_of Demo.idle) Demo.python 10
         {| Processes.pid := 1 |} 0x1000 (Demo.w0, None))
  = Ok (Some None).
Proof.
  apply (proj2 (proj2 (proj2 (@peek_str_absorbs_read_failures
                                (Demo.remote_of Demo.idle) Demo.python
                                {| Processes.pid := 1 |})))).
  - intros a n [w1 memo] Hn.
    unfold Processes.peek, bind, Processes.task, Processes.remote. simpl.
    destruct memo; simpl; (destruct (Z.to_nat n) eqn:E; [lia|reflexivity]).
  - lia.
Defined.

(** ** The value bridge: [cf] *)

Section Serializer.

Lemma first_error_in (l : list (option exn)) (e : exn) :
  Python.first_error l = Some e -> In (Some e) l.
Proof.
  induction l as [|[e1|] l IH]; simpl; intros H; [discriminate| |].
  - left. exact H.
  - right. exact (IH H).
Qed.

Lemma first_error_none (l : list (option exn)) (o : option exn) :
  Python.first_error l = None -> In o l -> o = None.
Proof.
  induction l as [|[e1|] l IH]; simpl; intros H Hin;
    [contradiction|discriminate|].
  destruct Hin as [<-|Hin]; [reflexivity|exact (IH H Hin)].
Qed.

Lemma in_insert_by_key {A : Type} (x y : string * A) (l : list (string * A)) :
  In x (Python.insert_by_key y l) <-> x = y \/ In x l.
Proof.
  induction l as [|z l IH]; simpl.
  - intuition congruence.
  - destruct (String.leb (fst y) (fst z)); simpl; rewrite ?IH;
      intuition congruence.
Qed.

Lemma in_sort_by_key {A : Type} (x : string * A) (l : list (string * A)) :
  In x (Python.sort_by_key l) <-> In x l.
Proof.
  induction l as [|y l IH]; simpl; [reflexivity|].
  rewrite in_insert_by_key, IH. intuition congruence.
Qed.

(** The second pass raises nothing but TypeError and OverflowError. *)
Lemma write_error_kind (v : Python.pyvalue) :
  forall e, Python.write_error v = Some e -> e = TypeError \/ e = OverflowError.
Proof.
  induction v as [| | n | | | | | wall tzinfo | data | items IH | items IH
                  | items IH | ] using Python.pyvalue_items_ind;
    intros e H; simpl in H; try discriminate.
  - destruct ((- 2 ^ 63 <=? n) && (n <? 2 ^ 64)); [discriminate|].
    injection H as <-. now right.
  - destruct tzinfo; [|discriminate]. injection H as <-. now left.
  - destruct (data <? 2 ^ 64)%N; [discriminate|]. injection H as <-. now right.
  - apply first_error_in in H.
    induction IH as [|x l Hx _ IHl]; simpl in H; [contradiction|].
    destruct H as [H|H]; [exact (Hx e H)|exact (IHl H)].
  - apply first_error_in in H.
    induction IH as [|x l Hx _ IHl]; simpl in H; [contradiction|].
    destruct H as [H|H]; [exact (Hx e H)|exact (IHl H)].
  - apply first_error_in, in_map_iff in H as [[k o] [Ho Hin]].
    simpl in Ho. subst o. apply (proj1 (in_sort_by_key _ _)) in Hin.
    induction IH as [|kv l Hkv _ IHl]; simpl in Hin; [contradiction|].
    destruct Hin as [Heq|Hin]; [|exact (IHl Hin)].
    injection Heq as _ Hw. exact (Hkv e Hw).
  - injection H as <-. now left.
Qed.

Lemma refused_item (items : list Python.pyvalue) (x : Python.pyvalue) :
  In x items -> refused x ->
  refused (Python.PList items) /\ refused (Python.PTuple items).
Proof.
  intros Hin [Hkey|Herr].
  - assert (Hex : existsb Python.has_bad_key items = true).
    { apply existsb_exists. now exists x. }
    split; left; exact Hex.
  - assert (Hfirst : Python.first_error (map Python.write_error items) <> None).
    { intros Hnone. apply Herr.
      apply (first_error_none _ _ Hnone). now apply in_map. }
    split; right; exact Hfirst.
Qed.


Lemma refused_dict_value (items : list (Python.pyvalue * Python.pyvalue))
    (kv : Python.pyvalue * Python.pyvalue) :
  In kv items -> refused (snd kv) -> refused (Python.PDict items).
Proof.
  intros Hin [Hkey|Herr].
  - left. simpl. apply existsb_exists. exists kv.
    split; [exact Hin|]. rewrite Hkey. apply orb_true_r.
  - right. simpl. intros Hnone. apply Herr.
    apply (first_error_none _ _ Hnone).
    apply in_map_iff.
    exists (Python.key_text (fst kv), Python.write_error (snd kv)).
    split; [reflexivity|]. apply in_sort_by_key.
    apply in_map_iff. now exists kv.
Qed.

(** What the serializer refuses, [dumps] raises on, with one of its two
    errors. *)
Lemma dumps_raises (writer : Python.pyvalue -> list byte)
    (v : Python.pyvalue) :
  refused v ->
  exists e, (e = TypeError \/ e = OverflowError)
            /\ Python.dumps writer v = Raise e.
Proof.
  intros Hv. unfold Python.dumps.
  destruct (Python.has_bad_key v) eqn:Hkey.
  - exists TypeError. split; [now left|reflexivity].
  - destruct Hv as [Hv|Hv]; [congruence|].
    destruct (Python.write_error v) as [e|] eqn:He; [|contradiction].
    exists e. split; [exact (write_error_kind v e He)|reflexivity].
Qed.


(** A value that holds an instant with a timezone is refused. *)
Lemma aware_refused (v : Python.pyvalue) :
  holds_aware v = true -> refused v.
Proof.
  induction v as [| | | | | | | wall tzinfo | | items IH | items IH
                  | items IH | ] using Python.pyvalue_items_ind;
    intros Hv; simpl in Hv; try discriminate.
  - destruct tzinfo; [|discriminate]. right. discriminate.
  - apply existsb_exists in Hv as (x & Hin & Hx).
    rewrite List.Forall_forall in IH.
    exact (proj1 (refused_item items x Hin (IH x Hin Hx))).
  - apply existsb_exists in Hv as (x & Hin & Hx).
    rewrite List.Forall_forall in IH.
    exact (proj2 (refused_item items x Hin (IH x Hin Hx))).
  - apply existsb_exists in Hv as (kv & Hin & Hx).
    rewrite List.Forall_forall in IH.
    exact (refused_dict_value items kv Hin (IH kv Hin Hx)).
Qed.

End Serializer.




(** The UID costs two remote calls; so do a tuple and a bytearray. *)
Example cf_uid_is_sent :
  @Client.cf (Demo.remote_of Demo.idle) Demo.python_values
    (Some (Python.PUid 3)) Demo.w0
  = (Ok 0x3000, {| Demo.errno := 0; Demo.calls := 2 |}).
Proof. reflexivity. Qed.

Example cf_tuple_is_sent :
  fst (@Client.cf (Demo.remote_of Demo.idle) Demo.python_values
         (Some (Python.PTuple [Python.PInt 1; Python.PInt 2])) Demo.w0)
  = Ok 0x3000
  /\ fst (@Client.cf (Demo.remote_of Demo.idle) Demo.python_values
            (Some (Python.PByteArray [x61; x62])) Demo.w0)
     = Ok 0x3000.
Proof. split; reflexivity. Qed.

(** The error is the first that the serializer meets: the values of a
    dict are written in the order of their keys. *)
Example cf_first_error :
  fst (@Client.cf (Demo.remote_of Demo.idle) Demo.python_values
         (Some (Python.PDict
                  [(Python.PStr "b", Python.PInt (2 ^ 64));
                   (Python.PStr "a", Python.POther "set")])) Demo.w0)
  = Raise TypeError
  /\ fst (@Client.cf (Demo.remote_of Demo.idle) Demo.python_values
            (Some (Python.PDict
                     [(Python.PStr "a", Python.PInt (2 ^ 64));
                      (Python.PStr "b", Python.POther "set")])) Demo.w0)
     = Raise OverflowError.
Proof. split; reflexivity. Qed.

(** C1: the round trip breaks on the timezone-aware instants.  The
    serializer refuses an instant that has a [tzinfo], alone or inside a
    list, a tuple or a dict, so that [cf] raises the serializer's error
    before it has sent anything and there is nothing to decode:
    [decode(encode(v))] is not [v], and this holds of the instant of the
    repository's own test. *)
Theorem round_trip_breaks_on_aware_instant `{R : Remote} (base : PyRuntime)
    (writer : Python.pyvalue -> list byte)
    (reader : list byte -> result (option Python.pyvalue))
    (v : Python.pyvalue) (w : world) :
  holds_aware v = true ->
  exists e,
    (e = TypeError \/ e = OverflowError)
    /\ @round_trip R (Python.runtime base writer reader) (Python.argument v) w
       = (Raise e, w).
Proof.
  intros Hv.
  destruct (dumps_raises writer v (aware_refused v Hv)) as (e & He & Hd).
  exists e. split; [exact He|].
  assert (Harg : Python.argument v = Some v) by (destruct v; try reflexivity;
                                                 discriminate Hv).
  rewrite Harg. unfold round_trip, bind, Client.cf.
  cbn [plistlib_dumps Python.runtime]. now rewrite Hd.
Qed.

Lemma round_trip_breaks_on_aware_instant_witness :
  listed Demo.test_instant = true
  /\ exists e,
       (e = TypeError \/ e = OverflowError)
       /\ @round_trip (Demo.remote_of Demo.idle) Demo.python_values
            (Some Demo.test_instant) Demo.w0
          = (Raise e, Demo.w0).
Proof.
  split; [reflexivity|].
  apply (@round_trip_breaks_on_aware_instant (Demo.remote_of Demo.idle)
           Demo.python (fun _ => Demo.uid3) (fun _ => Ok None)
           Demo.test_instant Demo.w0).
  reflexivity.
Defined.

(** On the instant of the test, and on a list that holds it. *)
Example round_trip_of_test_instant :
  @round_trip (Demo.remote_of Demo.idle) Demo.python_values
    (Python.argument Demo.test_instant) Demo.w0
  = (Raise TypeError, Demo.w0)
  /\ @round_trip (Demo.remote_of Demo.idle) Demo.python_values
       (Python.argument (Python.PList [Python.PInt 1; Demo.test_instant]))
       Demo.w0
     = (Raise TypeError, Demo.w0).
Proof. split; reflexivity. Qed.

(** The same instant without its [tzinfo] is sent, and [None] makes the
    round trip: the serializer of the remote has no data for the null
    object. *)
Example round_trip_of_naive_instant :
  fst (@Client.cf (Demo.remote_of Demo.idle) Demo.python_values
         (Some (Python.PDatetime (-1062363479000000) None)) Demo.w0)
  = Ok 0x3000
  /\ fst (@round_trip (Demo.remote_of Demo.idle) Demo.python_values
            (Python.argument Python.PNone) Demo.w0)
     = Ok None.
Proof. split; reflexivity. Qed.

(** A value that serializes costs two remote calls. *)
Example cf_text_is_sent :
  @Client.cf (Demo.remote_of Demo.idle) Demo.python
    (Some (Demo.Text "string")) Demo.w0
  = (Ok 0x3000, {| Demo.errno := 0; Demo.calls := 2 |}).
Proof. reflexivity. Qed.

(** ** File-descriptor enumeration: [fd_structs] and [fds] *)

Section FdEnumeration.
Context `{R : Remote} `{St : Processes.Structs}.
Variable self : Processes.Process.

Lemma fd_detail_failed fd flavor w1 vs w2 :
  proc_pidfdinfo (Processes.pid self) (Processes.proc_fd fd) flavor
    Processes.vi_size w1 = (vs, w2) ->
  pi_ret vs = 0 ->
  Processes.fd_detail self fd flavor w1 =
    (if client_errno w2 =? Processes.EBADF then Ok None
     else Raise BadReturnValueError, w2).
Proof.
  intros Hq Hret. unfold Processes.fd_detail, bind, call. rewrite Hq, Hret.
  simpl. now destruct (client_errno w2 =? Processes.EBADF).
Qed.

Lemma fd_structs_loop_failed fd flavor post acc w1 vs w2 :
  detail_flavor fd = Some flavor ->
  proc_pidfdinfo (Processes.pid self) (Processes.proc_fd fd) flavor
    Processes.vi_size w1 = (vs, w2) ->
  pi_ret vs = 0 ->
  Processes.fd_structs_loop self (fd :: post) acc w1 =
    if client_errno w2 =? Processes.EBADF
    then Processes.fd_structs_loop self post acc w2
    else (Raise BadReturnValueError, w2).
Proof.
  intros Hfl Hq Hret. unfold detail_flavor in Hfl.
  cbn [Processes.fd_structs_loop].
  destruct (Processes.proc_fdtype fd =? Processes.PROX_FDTYPE_VNODE);
    [|destruct (Processes.proc_fdtype fd =? Processes.PROX_FDTYPE_SOCKET);
      [|destruct (Processes.proc_fdtype fd =? Processes.PROX_FDTYPE_PIPE);
        [|discriminate]]];
    injection Hfl as <-; unfold bind;
    rewrite (fd_detail_failed fd _ w1 vs w2 Hq Hret);
    now destruct (client_errno w2 =? Processes.EBADF).
Qed.

Lemma fd_structs_loop_app pre post :
  forall acc w,
    Processes.fd_structs_loop self (pre ++ post) acc w =
      match Processes.fd_structs_loop self pre acc w with
      | (Ok acc', w') => Processes.fd_structs_loop self post acc' w'
      | (Raise e, w') => (Raise e, w')
      end.
Proof.
  induction pre as [|fd pre IH]; intros acc w; [reflexivity|].
  cbn [Processes.fd_structs_loop app].
  destruct (Processes.proc_fdtype fd =? Processes.PROX_FDTYPE_VNODE);
    [|destruct (Processes.proc_fdtype fd =? Processes.PROX_FDTYPE_SOCKET);
      [|destruct (Processes.proc_fdtype fd =? Processes.PROX_FDTYPE_PIPE)]];
    try apply IH;
    unfold bind;
    (destruct (Processes.fd_detail self fd _ w) as [[[buf|]|e] w'];
     [apply IH | apply IH | reflexivity]).
Qed.

(** A raw descriptor of a type other than vnode, socket and pipe is
    passed over without a query. *)
Lemma fd_structs_loop_unqueried fd rest acc w :
  detail_flavor fd = None ->
  Processes.fd_structs_loop self (fd :: rest) acc w =
    Processes.fd_structs_loop self rest acc w.
Proof.
  intros Hfl. unfold detail_flavor in Hfl. cbn [Processes.fd_structs_loop].
  destruct (Processes.proc_fdtype fd =? Processes.PROX_FDTYPE_VNODE);
    [discriminate|].
  destruct (Processes.proc_fdtype fd =? Processes.PROX_FDTYPE_SOCKET);
    [discriminate|].
  destruct (Processes.proc_fdtype fd =? Processes.PROX_FDTYPE_PIPE);
    [discriminate|reflexivity].
Qed.

(** Neither loop ever returns more records than it was given entries. *)
Lemma fd_structs_loop_length fds :
  forall acc w out w',
    Processes.fd_structs_loop self fds acc w = (Ok out, w') ->
    (length out <= length acc + length fds)%nat.
Proof.
  induction fds as [|fd fds IH]; intros acc w out w' H.
  - injection H as <- _. simpl. lia.
  - cbn [Processes.fd_structs_loop] in H.
    assert (Hcase : forall flavor mk,
      (let* vi_buf := Processes.fd_detail self fd flavor in
       match vi_buf with
       | None => Processes.fd_structs_loop self fds acc
       | Some vi_buf => Processes.fd_structs_loop self fds (acc ++ [mk vi_buf])
       end) w = (Ok out, w') ->
      (length out <= length acc + length (fd :: fds))%nat).
    { intros flavor mk Hb. unfold bind in Hb.
      destruct (Processes.fd_detail self fd flavor w) as [[[buf|]|e] w1];
        [| |discriminate].
      - apply IH in Hb. rewrite length_app in Hb. simpl in *. lia.
      - apply IH in Hb. simpl. lia. }
    destruct (Processes.proc_fdtype fd =? Processes.PROX_FDTYPE_VNODE);
      [exact (Hcase _ _ H)|].
    destruct (Processes.proc_fdtype fd =? Processes.PROX_FDTYPE_SOCKET);
      [exact (Hcase _ _ H)|].
    destruct (Processes.proc_fdtype fd =? Processes.PROX_FDTYPE_PIPE);
      [exact (Hcase _ _ H)|].
    apply IH in H. simpl. lia.
Qed.

Lemma fds_loop_length structs :
  forall acc (w : world) out w',
    Processes.fds_loop structs acc w = (Ok out, w') ->
    (length out <= length acc + length structs)%nat.
Proof.
  induction structs as [|fdstruct structs IH]; intros acc w out w' H.
  - injection H as <- _. simpl. lia.
  - cbn [Processes.fds_loop] in H. cbv zeta in H.
    assert (Hgrow : forall x, Processes.fds_loop structs (acc ++ [x]) w = (Ok out, w') ->
                              (length out <= length acc + length (fdstruct :: structs))%nat).
    { intros x Hx. apply IH in Hx. rewrite length_app in Hx. simpl in *. lia. }
    assert (Hkeep : Processes.fds_loop structs acc w = (Ok out, w') ->
                    (length out <= length acc + length (fdstruct :: structs))%nat).
    { intros Hx. apply IH in Hx. simpl. lia. }
    repeat match type of H with
           | (if ?b then _ else _) _ = _ => destruct b
           | match ?x with _ => _ end _ = _ => destruct x
           | raise _ _ = _ => discriminate H
           end; eauto.
Qed.

End FdEnumeration.

(** C4. When the detail query of a raw descriptor fails, [fd_structs]
    looks at errno: on EBADF the entry is skipped and the enumeration
    goes on with the entries that follow, keeping what it has collected;
    on any other errno the whole call, and [fds] with it, raises
    BadReturnValueError. *)
Theorem fd_structs_bad_descriptor_skipped `{R : Remote}
    `{St : Processes.Structs} (self : Processes.Process)
    (w wa wb w1 w2 : world) (size fdinfo_buf vs : pidinfo_reply)
    (pre : list Processes.proc_fdinfo) (fd : Processes.proc_fdinfo)
    (post : list Processes.proc_fdinfo) (acc : list Processes.FdStruct)
    (flavor : Z) :
  proc_pidinfo_listfds (Processes.pid self) 0 w = (size, wa) ->
  proc_pidinfo_listfds (Processes.pid self) (pi_ret size) wa
    = (fdinfo_buf, wb) ->
  pi_ret fdinfo_buf <> 0 ->
  Processes.proc_fdinfo_array_parse
    (pi_ret fdinfo_buf / Processes.proc_fdinfo_sizeof)
    (Processes.buf_peek (pi_buf fdinfo_buf) (pi_ret fdinfo_buf))
    = pre ++ fd :: post ->
  Processes.fd_structs_loop self pre [] wb = (Ok acc, w1) ->
  detail_flavor fd = Some flavor ->
  proc_pidfdinfo (Processes.pid self) (Processes.proc_fd fd) flavor
    Processes.vi_size w1 = (vs, w2) ->
  pi_ret vs = 0 ->
  (client_errno w2 = Processes.EBADF ->
     Processes.fd_structs self w = Processes.fd_structs_loop self post acc w2
     /\ Processes.fds self w =
          (let* structs := Processes.fd_structs_loop self post acc in
           Processes.fds_loop structs []) w2)
  /\ (client_errno w2 <> Processes.EBADF ->
        Processes.fd_structs self w = (Raise BadReturnValueError, w2)
        /\ Processes.fds self w = (Raise BadReturnValueError, w2)).
Proof.
  intros Hsize Hbuf Hnz Hparse Hpre Hfl Hq Hret.
  assert (Hall : Processes.fd_structs self w =
                 if client_errno w2 =? Processes.EBADF
                 then Processes.fd_structs_loop self post acc w2
                 else (Raise BadReturnValueError, w2)).
  { unfold Processes.fd_structs, bind, call. rewrite Hsize, Hbuf.
    destruct (Z.eqb_spec (pi_ret fdinfo_buf) 0) as [|_]; [contradiction|].
    rewrite Hparse, fd_structs_loop_app, Hpre.
    exact (fd_structs_loop_failed self fd flavor post acc w1 vs w2 Hfl Hq Hret). }
  split; intros Herr.
  - apply Z.eqb_eq in Herr. rewrite Herr in Hall. split; [exact Hall|].
    unfold Processes.fds, bind. now rewrite Hall.
  - apply Z.eqb_neq in Herr. rewrite Herr in Hall. split; [exact Hall|].
    unfold Processes.fds, bind. now rewrite Hall.
Qed.

Lemma fd_structs_bad_descriptor_skipped_witness :
  @Processes.fd_structs (Demo.remote_of Demo.busy) Demo.xnu
    {| Processes.pid := 1 |} Demo.w0
  = @Processes.fd_structs_loop (Demo.remote_of Demo.busy) Demo.xnu
      {| Processes.pid := 1 |}
      [ {| Processes.proc_fd := 4; Processes.proc_fdtype := 6 |};
        {| Processes.proc_fd := 5; Processes.proc_fdtype := 1 |};
        {| Processes.proc_fd := 6; Processes.proc_fdtype := 5 |};
        {| Processes.proc_fd := 7; Processes.proc_fdtype := 2 |} ]
      []
      {| Demo.errno := 9; Demo.calls := 3 |}.
Proof.
  edestruct (@fd_structs_bad_descriptor_skipped (Demo.remote_of Demo.busy)
               Demo.xnu {| Processes.pid := 1 |} Demo.w0)
    with (pre := @nil Processes.proc_fdinfo) as [Hskip _].
  - reflexivity.
  - reflexivity.
  - discriminate.
  - reflexivity.
  - reflexivity.
  - reflexivity.
  - reflexivity.
  - reflexivity.
  - exact (proj1 (Hskip eq_refl)).
Defined.

(** The enumeration goes on past the descriptor that was closed under
    it, and gives up when the detail query is refused. *)
Example fds_past_bad_descriptor :
  fst (@Processes.fds (Demo.remote_of Demo.busy) Demo.xnu
         {| Processes.pid := 1 |} Demo.w0)
  = Ok [Processes.PipeFd 4; Processes.FileFd 5 "/etc/hosts"].
Proof. reflexivity. Qed.

Example fds_detail_refused :
  fst (@Processes.fds (Demo.remote_of Demo.denied) Demo.xnu
         {| Processes.pid := 1 |} Demo.w0)
  = Raise BadReturnValueError.
Proof. reflexivity. Qed.

(** C10. Descriptors that cannot be classified are left out without an
    error: [fd_structs] passes over every raw descriptor whose type is
    not vnode, socket or pipe, without querying it; [fds] passes over
    every socket whose kind is not TCP, IN or UN; so the records returned
    are at most as many as the raw descriptors, and can be fewer (see
    [fds_fewer_than_descriptors]). *)
Theorem fds_drops_unclassified `{R : Remote} `{St : Processes.Structs}
    (self : Processes.Process) :
  (forall fd rest acc w,
     Processes.proc_fdtype fd <> Processes.PROX_FDTYPE_VNODE ->
     Processes.proc_fdtype fd <> Processes.PROX_FDTYPE_SOCKET ->
     Processes.proc_fdtype fd <> Processes.PROX_FDTYPE_PIPE ->
     Processes.fd_structs_loop self (fd :: rest) acc w =
       Processes.fd_structs_loop self rest acc w)
  /\ (forall fd psi rest acc (w : world),
        Processes.proc_fdtype fd <> Processes.PROX_FDTYPE_VNODE ->
        Processes.proc_fdtype fd <> Processes.PROX_FDTYPE_PIPE ->
        Processes.proc_fdtype fd = Processes.PROX_FDTYPE_SOCKET ->
        Processes.soi_kind psi <> Processes.SOCKINFO_TCP ->
        Processes.soi_kind psi <> Processes.SOCKINFO_IN ->
        Processes.soi_kind psi <> Processes.SOCKINFO_UN ->
        Processes.fds_loop
          ({| Processes.fs_fd := fd;
              Processes.fs_struct := Processes.SocketStruct psi |} :: rest)
          acc w
        = Processes.fds_loop rest acc w)
  /\ (forall raw w out w',
        (let* structs := Processes.fd_structs_loop self raw [] in
         Processes.fds_loop structs []) w = (Ok out, w') ->
        (length out <= length raw)%nat).
Proof.
  split; [|split].
  - intros fd rest acc w Hv Hs Hp. apply fd_structs_loop_unqueried.
    unfold detail_flavor.
    apply Z.eqb_neq in Hv, Hs, Hp. now rewrite Hv, Hs, Hp.
  - intros fd psi rest acc w Hv Hp Hs Ht Hi Hu.
    cbn [Processes.fds_loop Processes.fs_fd Processes.fs_struct]. cbv zeta.
    apply Z.eqb_neq in Hv, Hp, Ht, Hi, Hu. apply Z.eqb_eq in Hs.
    now rewrite Hv, Hp, Hs, Ht, Hi, Hu.
  - intros raw w out w' H. unfold bind in H.
    destruct (Processes.fd_structs_loop self raw [] w) as [[structs|e] w1] eqn:E;
      [|discriminate].
    apply fd_structs_loop_length in E. apply fds_loop_length in H.
    simpl in *. lia.
Qed.

Lemma fds_drops_unclassified_witness :
  @Processes.fd_structs_loop (Demo.remote_of Demo.busy) Demo.xnu
    {| Processes.pid := 1 |}
    [ {| Processes.proc_fd := 6; Processes.proc_fdtype := 5 |};
      {| Processes.proc_fd := 7; Processes.proc_fdtype := 2 |} ]
    [] Demo.w0
  = @Processes.fd_structs_loop (Demo.remote_of Demo.busy) Demo.xnu
      {| Processes.pid := 1 |}
      [ {| Processes.proc_fd := 7; Processes.proc_fdtype := 2 |} ]
      [] Demo.w0.
Proof.
  apply (proj1 (@fds_drops_unclassified (Demo.remote_of Demo.busy) Demo.xnu
                  {| Processes.pid := 1 |})); discriminate.
Defined.

(** Pid 1 of the script has five descriptors open; two records come
    back: the closed file, the kqueue and the kernel-event socket are
    left out. *)
Example fds_fewer_than_descriptors :
  fst (@Processes.fds (Demo.remote_of Demo.busy) Demo.xnu
         {| Processes.pid := 1 |} Demo.w0)
  = Ok [Processes.PipeFd 4; Processes.FileFd 5 "/etc/hosts"]
  /\ length (Demo.fdinfo_array 5 (Demo.fd_table Demo.busy 1)) = 5%nat.
Proof. split; reflexivity. Qed.

(** ** The process directory: lookups *)

Section Directory.
Context `{R : Remote} `{Py : PyRuntime} `{St : Processes.Structs}.

Lemma first_match_pure (f : Processes.Process -> bool) procs (w : world) :
  Processes.first_match (fun p => ret (f p)) procs w =
    (match List.find f procs with
     | Some p => Ok p
     | None => Raise ArgumentError
     end, w).
Proof.
  induction procs as [|p procs IH]; [reflexivity|].
  cbn [Processes.first_match List.find]. unfold bind, ret at 1.
  destruct (f p); [reflexivity|apply IH].
Qed.

Lemma first_match_none {A : Type} (f : Processes.Process -> M world A)
    (g : A -> bool) procs :
  forall w attrs w',
    each f procs w = (Ok attrs, w') ->
    Forall (fun a => g a = false) attrs ->
    Processes.first_match (fun p => let* a := f p in ret (g a)) procs w
    = (Raise ArgumentError, w').
Proof.
  induction procs as [|p procs IH]; intros w attrs w' Heach Hall.
  - injection Heach as _ <-. reflexivity.
  - cbn [each Processes.first_match] in *. unfold bind in *.
    destruct (f p w) as [[a|e] w1]; [|discriminate].
    destruct (each f procs w1) as [[rest|e] w2] eqn:Hrest; [|discriminate].
    injection Heach as <- <-. inversion Hall as [|? ? Ha Hrest']; subst.
    unfold ret at 1. rewrite Ha. now apply (IH w1 rest).
Qed.

Lemma grep_loop_each name_ procs :
  forall result w basenames w',
    each Processes.basename procs w = (Ok basenames, w') ->
    Processes.grep_loop name_ procs result w =
      (Ok (result ++ grep_keeps name_ procs basenames), w').
Proof.
  induction procs as [|p procs IH]; intros result w basenames w' Heach.
  - injection Heach as <- <-. unfold grep_keeps. simpl.
    now rewrite app_nil_r.
  - cbn [each Processes.grep_loop] in *. unfold bind in *.
    destruct (Processes.basename p w) as [[b|e] w1]; [|discriminate].
    destruct (each Processes.basename procs w1) as [[rest|e] w2] eqn:Hrest;
      [|discriminate].
    injection Heach as <- <-. unfold grep_keeps. simpl.
    destruct (Processes.grep_test name_ b); simpl.
    + rewrite (IH _ _ _ _ Hrest). unfold grep_keeps.
      now rewrite <- app_assoc.
    + now rewrite (IH _ _ _ _ Hrest).
Qed.

Lemma grep_keeps_none name_ procs basenames :
  Forall (fun b => Processes.grep_test name_ b = false) basenames ->
  grep_keeps name_ procs basenames = [].
Proof.
  intros Hall. revert procs.
  induction Hall as [|b basenames Hb _ IH]; intros [|p procs]; try reflexivity.
  unfold grep_keeps in *. simpl. rewrite Hb. apply IH.
Qed.

End Directory.

(** C6 (as the code has it). Every lookup works on the snapshot that
    [list] takes when the lookup is called.  [get_by_pid] returns the
    process with that pid when the snapshot has one and raises
    ArgumentError when it has none; [get_by_basename] and [get_by_name]
    raise ArgumentError when no process of the snapshot matches; [grep]
    returns the processes whose basename contains the text, and when none
    does it returns the empty list: it does not raise. *)
Theorem lookups_on_fresh_snapshot `{R : Remote} `{Py : PyRuntime}
    `{St : Processes.Structs} (w w1 : world)
    (proc_list : list Processes.Process) :
  Processes.list_ w = (Ok proc_list, w1) ->
  (forall pid_,
     (In pid_ (map Processes.pid proc_list) ->
      exists p, Processes.get_by_pid pid_ w = (Ok p, w1)
                /\ Processes.pid p = pid_ /\ In p proc_list)
     /\ (~ In pid_ (map Processes.pid proc_list) ->
         Processes.get_by_pid pid_ w = (Raise ArgumentError, w1)))
  /\ (forall name_ basenames w2,
        each Processes.basename proc_list w1 = (Ok basenames, w2) ->
        Forall (fun b => Processes.opt_str_eqb b name_ = false) basenames ->
        Processes.get_by_basename name_ w = (Raise ArgumentError, w2))
  /\ (forall name_ names w2,
        each Processes.name proc_list w1 = (Ok names, w2) ->
        Forall (fun n => String.eqb n name_ = false) names ->
        Processes.get_by_name name_ w = (Raise ArgumentError, w2))
  /\ (forall name_ basenames w2,
        each Processes.basename proc_list w1 = (Ok basenames, w2) ->
        Processes.grep name_ w = (Ok (grep_keeps name_ proc_list basenames), w2)
        /\ (Forall (fun b => Processes.grep_test name_ b = false) basenames ->
            Processes.grep name_ w = (Ok [], w2))).
Proof.
  intros Hlist. repeat split.
  - intros Hin. unfold Processes.get_by_pid, bind. rewrite Hlist.
    rewrite first_match_pure.
    destruct (List.find _ proc_list) as [p|] eqn:Hfind.
    + exists p. apply List.find_some in Hfind as [Hp Heq].
      apply Z.eqb_eq in Heq. auto.
    + apply in_map_iff in Hin as [p [Heq Hp]].
      apply (List.find_none _ _ Hfind) in Hp. apply Z.eqb_neq in Hp.
      contradiction.
  - intros Hnin. unfold Processes.get_by_pid, bind. rewrite Hlist.
    rewrite first_match_pure.
    destruct (List.find _ proc_list) as [p|] eqn:Hfind; [|reflexivity].
    apply List.find_some in Hfind as [Hp Heq]. apply Z.eqb_eq in Heq.
    exfalso. apply Hnin. apply in_map_iff. eauto.
  - intros name_ basenames w2 Heach Hall.
    unfold Processes.get_by_basename, bind at 1. rewrite Hlist.
    exact (first_match_none Processes.basename
             (fun b => Processes.opt_str_eqb b name_) proc_list w1 basenames w2
             Heach Hall).
  - intros name_ names w2 Heach Hall.
    unfold Processes.get_by_name, bind at 1. rewrite Hlist.
    exact (first_match_none Processes.name (fun n => String.eqb n name_)
             proc_list w1 names w2 Heach Hall).
  - unfold Processes.grep, bind. rewrite Hlist.
    now rewrite (grep_loop_each name_ proc_list [] w1 basenames w2).
  - intros Hall. unfold Processes.grep, bind. rewrite Hlist.
    rewrite (grep_loop_each name_ proc_list [] w1 basenames w2) by assumption.
    now rewrite grep_keeps_none.
Qed.

Lemma lookups_on_fresh_snapshot_witness :
  @Processes.get_by_pid (Demo.remote_of Demo.busy) Demo.xnu 4 Demo.w0
  = (Raise ArgumentError, {| Demo.errno := 0; Demo.calls := 2 |}).
Proof.
  apply (proj1 (@lookups_on_fresh_snapshot (Demo.remote_of Demo.busy)
                  Demo.python Demo.xnu Demo.w0
                  {| Demo.errno := 0; Demo.calls := 2 |}
                  [ {| Processes.pid := 1 |}; {| Processes.pid := 2 |};
                    {| Processes.pid := 3 |} ] eq_refl) 4).
  simpl. intros [H|[H|[H|[]]]]; discriminate H.
Defined.

Example get_by_pid_present :
  @Processes.get_by_pid (Demo.remote_of Demo.busy) Demo.xnu 3 Demo.w0
  = (Ok {| Processes.pid := 3 |}, {| Demo.errno := 0; Demo.calls := 2 |}).
Proof. reflexivity. Qed.

(** C6 as stated fails for [grep]: on a snapshot of three processes none
    of whose basenames contains the text, it returns the empty list. *)
Lemma grep_no_match_is_not_an_error :
  ~ (forall (R : Remote) (Py : PyRuntime) (St : Processes.Structs)
       (name_ : string) (w : world),
       (forall proc_list w1 basenames w2,
          Processes.list_ w = (Ok proc_list, w1) ->
          each Processes.basename proc_list w1 = (Ok basenames, w2) ->
          Forall (fun b => Processes.grep_test name_ b = false) basenames) ->
       exists w', Processes.grep name_ w = (Raise ArgumentError, w')).
Proof.
  intros H.
  destruct (H (Demo.remote_of Demo.busy) Demo.python Demo.xnu "zzz"%string
              Demo.w0) as [w' Hw'].
  - intros proc_list w1 basenames w2 Hlist Heach.
    vm_compute in Hlist. injection Hlist as <- <-.
    vm_compute in Heach. injection Heach as <- _.
    repeat constructor.
  - vm_compute in Hw'. discriminate Hw'.
Qed.

(** ** The process directory: bulk scans *)

Section Scans.
Context `{R : Remote} `{Py : PyRuntime} `{St : Processes.Structs}.

Lemma fd_detail_raises self fd flavor (w : world) e w' :
  Processes.fd_detail self fd flavor w = (Raise e, w') ->
  e = BadReturnValueError.
Proof.
  unfold Processes.fd_detail, bind, call.
  destruct (proc_pidfdinfo _ _ _ _ w) as [vs w1].
  destruct (pi_ret vs =? 0); [|discriminate].
  destruct (client_errno w1 =? Processes.EBADF); congruence.
Qed.

Lemma fd_structs_loop_raises self fds :
  forall acc (w : world) e w',
    Processes.fd_structs_loop self fds acc w = (Raise e, w') ->
    e = BadReturnValueError.
Proof.
  induction fds as [|fd fds IH]; intros acc w e w' H; [discriminate|].
  cbn [Processes.fd_structs_loop] in H.
  assert (Hcase : forall flavor mk,
    (let* vi_buf := Processes.fd_detail self fd flavor in
     match vi_buf with
     | None => Processes.fd_structs_loop self fds acc
     | Some vi_buf => Processes.fd_structs_loop self fds (acc ++ [mk vi_buf])
     end) w = (Raise e, w') ->
    e = BadReturnValueError).
  { intros flavor mk Hb. unfold bind in Hb.
    destruct (Processes.fd_detail self fd flavor w) as [[[buf|]|e1] w1] eqn:Hd.
    - exact (IH _ _ _ _ Hb).
    - exact (IH _ _ _ _ Hb).
    - injection Hb as <- _. exact (fd_detail_raises _ _ _ _ _ _ Hd). }
  destruct (Processes.proc_fdtype fd =? Processes.PROX_FDTYPE_VNODE);
    [exact (Hcase _ _ H)|].
  destruct (Processes.proc_fdtype fd =? Processes.PROX_FDTYPE_SOCKET);
    [exact (Hcase _ _ H)|].
  destruct (Processes.proc_fdtype fd =? Processes.PROX_FDTYPE_PIPE);
    [exact (Hcase _ _ H)|].
  exact (IH _ _ _ _ H).
Qed.

(** Whatever goes wrong in [fd_structs] is a BadReturnValueError. *)
Lemma fd_structs_raises self (w : world) e w' :
  Processes.fd_structs self w = (Raise e, w') -> e = BadReturnValueError.
Proof.
  unfold Processes.fd_structs, bind, call.
  destruct (proc_pidinfo_listfds _ 0 w) as [size wa].
  destruct (proc_pidinfo_listfds _ (pi_ret size) wa) as [fdinfo_buf wb].
  destruct (pi_ret fdinfo_buf =? 0); [unfold raise; congruence|].
  apply fd_structs_loop_raises.
Qed.

Lemma try_fds_outcome process (w : world) :
  Processes.try_fds process w =
    match Processes.fds process w with
    | (Ok fds, w') => (Ok (Some fds), w')
    | (Raise e, w') =>
        if exn_eqb e BadReturnValueError then (Ok None, w') else (Raise e, w')
    end.
Proof.
  unfold Processes.try_fds, try_except, bind.
  now destruct (Processes.fds process w) as [[fds|e] w'].
Qed.

Lemma try_fds_skips process (w : world) e w' :
  Processes.fd_structs process w = (Raise e, w') ->
  Processes.try_fds process w = (Ok None, w').
Proof.
  intros H. rewrite try_fds_outcome. unfold Processes.fds, bind. rewrite H.
  now rewrite (fd_structs_raises _ _ _ _ H).
Qed.

Lemma try_fds_no_escape process (w : world) e w' :
  Processes.try_fds process w = (Raise e, w') -> e <> BadReturnValueError.
Proof.
  rewrite try_fds_outcome.
  destruct (Processes.fds process w) as [[fds|e1] w1]; [discriminate|].
  destruct (exn_eqb e1 BadReturnValueError) eqn:E; [discriminate|].
  intros [= -> _] ->. discriminate E.
Qed.

Lemma listening_port_loop_no_escape port procs :
  forall w : world,
    fst (Processes.listening_port_loop port procs w) <> Raise BadReturnValueError.
Proof.
  induction procs as [|process procs IH]; intros w; [discriminate|].
  cbn [Processes.listening_port_loop]. unfold bind.
  destruct (Processes.try_fds process w) as [[[fds|]|e] w'] eqn:Htry.
  - destruct (existsb _ fds); [discriminate|apply IH].
  - apply IH.
  - simpl. intros [= ->]. now apply (try_fds_no_escape _ _ _ _ Htry).
Qed.

Lemma lsof_loop_no_escape procs :
  forall result (w : world),
    fst (Processes.lsof_loop procs result w) <> Raise BadReturnValueError.
Proof.
  induction procs as [|process procs IH]; intros result w; [discriminate|].
  cbn [Processes.lsof_loop]. unfold bind.
  destruct (Processes.try_fds process w) as [[[fds|]|e] w'] eqn:Htry;
    [apply IH|apply IH|].
  simpl. intros [= ->]. now apply (try_fds_no_escape _ _ _ _ Htry).
Qed.

Lemma fuser_loop_no_escape path_ procs :
  forall result (w : world),
    fst (Processes.fuser_loop path_ procs result w) <> Raise BadReturnValueError.
Proof.
  induction procs as [|process procs IH]; intros result w; [discriminate|].
  cbn [Processes.fuser_loop]. unfold bind.
  destruct (Processes.try_fds process w) as [[[fds|]|e] w'] eqn:Htry;
    [apply IH|apply IH|].
  simpl. intros [= ->]. now apply (try_fds_no_escape _ _ _ _ Htry).
Qed.

Lemma lsof_loop_each procs :
  forall result (w : world) outs w',
    each Processes.try_fds procs w = (Ok outs, w') ->
    Processes.lsof_loop procs result w = (Ok (lsof_collect procs outs result), w').
Proof.
  induction procs as [|process procs IH]; intros result w outs w' Heach.
  - now injection Heach as <- <-.
  - cbn [each Processes.lsof_loop] in *. unfold bind in *.
    destruct (Processes.try_fds process w) as [[o|e] w1]; [|discriminate].
    destruct (each Processes.try_fds procs w1) as [[rest|e] w2] eqn:Hrest;
      [|discriminate].
    injection Heach as <- <-.
    destruct o as [fds|]; simpl; now apply IH.
Qed.

Lemma fuser_loop_each path_ procs :
  forall result (w : world) outs w',
    each Processes.try_fds procs w = (Ok outs, w') ->
    Processes.fuser_loop path_ procs result w
    = (Ok (fuser_collect path_ procs outs result), w').
Proof.
  induction procs as [|process procs IH]; intros result w outs w' Heach.
  - now injection Heach as <- <-.
  - cbn [each Processes.fuser_loop] in *. unfold bind in *.
    destruct (Processes.try_fds process w) as [[o|e] w1]; [|discriminate].
    destruct (each Processes.try_fds procs w1) as [[rest|e] w2] eqn:Hrest;
      [|discriminate].
    injection Heach as <- <-.
    destruct o as [fds|]; simpl; now apply IH.
Qed.

End Scans.

(** C7 (as the code has it). Each bulk scan goes through the snapshot
    that [list] takes when the scan is called.  A process whose
    descriptor query, [fds], fails with BadReturnValueError is skipped and
    the scan goes on with the next process, from the world the failed
    query left; that is what every failure of the remote queries of
    [fd_structs] comes to.  No scan ever raises BadReturnValueError; and
    [lsof] and [fuser] account for every process of the snapshot
    ([get_process_by_listening_port] stops at the first process that
    listens on the port). *)
Theorem bulk_scans_skip_failed_process `{R : Remote} `{Py : PyRuntime}
    `{St : Processes.Structs} :
  (forall process procs (w w' : world),
     Processes.fds process w = (Raise BadReturnValueError, w') ->
     (forall port,
        Processes.listening_port_loop port (process :: procs) w
        = Processes.listening_port_loop port procs w')
     /\ (forall result,
           Processes.lsof_loop (process :: procs) result w
           = Processes.lsof_loop procs result w')
     /\ (forall path_ result,
           Processes.fuser_loop path_ (process :: procs) result w
           = Processes.fuser_loop path_ procs result w'))
  /\ (forall process (w : world) e w',
        Processes.fd_structs process w = (Raise e, w') ->
        Processes.fds process w = (Raise BadReturnValueError, w'))
  /\ (forall w : world,
        (forall port,
           fst (Processes.get_process_by_listening_port port w)
           <> Raise BadReturnValueError)
        /\ fst (Processes.lsof w) <> Raise BadReturnValueError
        /\ (forall path_,
              fst (Processes.fuser path_ w) <> Raise BadReturnValueError))
  /\ (forall (w w1 w2 : world) procs outs,
        Processes.list_ w = (Ok procs, w1) ->
        each Processes.try_fds procs w1 = (Ok outs, w2) ->
        Processes.lsof w = (Ok (lsof_collect procs outs ∅), w2)
        /\ (forall path_,
              Processes.fuser path_ w
              = (Ok (fuser_collect path_ procs outs []), w2))).
Proof.
  split; [|split; [|split]].
  - intros process procs w w' Hfail.
    assert (Hskip : Processes.try_fds process w = (Ok None, w')).
    { rewrite try_fds_outcome, Hfail. reflexivity. }
    repeat split; intros;
      cbn [Processes.listening_port_loop Processes.lsof_loop
           Processes.fuser_loop];
      unfold bind; now rewrite Hskip.
  - intros process w e w' Hfail. unfold Processes.fds, bind.
    rewrite Hfail. now rewrite (fd_structs_raises _ _ _ _ Hfail).
  - intros w.
    unfold Processes.get_process_by_listening_port, Processes.lsof,
      Processes.fuser, bind.
    destruct (Processes.list_ w) as [[procs|e] w1] eqn:Hlist.
    + repeat split; intros.
      * apply listening_port_loop_no_escape.
      * apply lsof_loop_no_escape.
      * apply fuser_loop_no_escape.
    + unfold Processes.list_, bind, call in Hlist.
      destruct (proc_listallpids 0 w) as [n wa].
      destruct (proc_listallpids _ wa) as [pid_buf wb].
      discriminate Hlist.
  - intros w w1 w2 procs outs Hlist Heach.
    unfold Processes.lsof, Processes.fuser, bind. rewrite Hlist.
    split; [|intros path_].
    + now apply lsof_loop_each.
    + now apply fuser_loop_each.
Qed.

Lemma bulk_scans_skip_failed_process_witness :
  @Processes.lsof_loop (Demo.remote_of Demo.busy) Demo.xnu
    [ {| Processes.pid := 2 |}; {| Processes.pid := 3 |} ] ∅ Demo.w0
  = @Processes.lsof_loop (Demo.remote_of Demo.busy) Demo.xnu
      [ {| Processes.pid := 3 |} ] ∅ {| Demo.errno := 0; Demo.calls := 2 |}.
Proof.
  apply (proj1 (@bulk_scans_skip_failed_process (Demo.remote_of Demo.busy)
                  Demo.python Demo.xnu)
           {| Processes.pid := 2 |} [ {| Processes.pid := 3 |} ] Demo.w0
           {| Demo.errno := 0; Demo.calls := 2 |}).
  reflexivity.
Defined.

(** C7 as stated fails: a failure of the descriptor query that is not a
    BadReturnValueError ends the scan.  The only descriptor of the
    process is a TCP socket of a family that the class table does not
    have, [fds] raises KeyError, and [lsof] does not go on to the rest of
    the snapshot. *)
Lemma scans_stop_at_other_failures :
  ~ (forall (R : Remote) (St : Processes.Structs)
       (process : Processes.Process) (procs : list Processes.Process)
       (w : world) (e : exn) (w' : world),
       Processes.fds process w = (Raise e, w') ->
       Processes.lsof_loop (process :: procs) ∅ w
       = Processes.lsof_loop procs ∅ w').
Proof.
  intros H.
  specialize (H (Demo.remote_of Demo.odd_family) Demo.xnu
                {| Processes.pid := 1 |} [] Demo.w0 KeyError
                {| Demo.errno := 0; Demo.calls := 3 |} eq_refl).
  vm_compute in H. discriminate H.
Qed.

(** The KeyError reaches the caller of each of the three scans. *)
Example scans_raise_key_error :
  fst (@Processes.lsof (Demo.remote_of Demo.odd_family) Demo.xnu Demo.w0)
  = Raise KeyError
  /\ fst (@Processes.fuser (Demo.remote_of Demo.odd_family) Demo.python
            Demo.xnu "/etc/hosts" Demo.w0)
     = Raise KeyError
  /\ fst (@Processes.get_process_by_listening_port
            (Demo.remote_of Demo.odd_family) Demo.xnu 8080 Demo.w0)
     = Raise KeyError.
Proof. repeat split; reflexivity. Qed.

(** The scans on the script: pid 2 is gone and is left out. *)
Example lsof_on_script :
  (fun r => match r with
            | Ok m => Ok (m !! 1, m !! 2, m !! 3)
            | Raise e => Raise e
            end)
    (fst (@Processes.lsof (Demo.remote_of Demo.busy) Demo.xnu Demo.w0))
  = Ok (Some [Processes.PipeFd 4; Processes.FileFd 5 "/etc/hosts"],
        None,
        Some [Processes.FileFd 3 "/etc/hosts";
              Processes.Ipv4TcpFd 4 "0.0.0.0" 8080 "0.0.0.0" 0]).
Proof. vm_compute. reflexivity. Qed.

Example fuser_on_script :
  fst (@Processes.fuser (Demo.remote_of Demo.busy) Demo.python Demo.xnu
         "/etc/hosts" Demo.w0)
  = Ok [ {| Processes.pid := 1 |}; {| Processes.pid := 3 |} ].
Proof. reflexivity. Qed.

Example listening_port_on_script :
  fst (@Processes.get_process_by_listening_port (Demo.remote_of Demo.busy)
         Demo.xnu 8080 Demo.w0)
  = Ok (Some {| Processes.pid := 3 |}).
Proof. reflexivity. Qed.

(** * Further properties of the embedded code *)

(** ** Descriptor records *)

Section FdRecords.
Context `{R : Remote} `{St : Processes.Structs}.

Lemma fd_structs_loop_well_tagged self fds :
  forall acc (w : world) out w',
    Forall (fun s => well_tagged s = true) acc ->
    Processes.fd_structs_loop self fds acc w = (Ok out, w') ->
    Forall (fun s => well_tagged s = true) out.
Proof.
  induction fds as [|fd fds IH]; intros acc w out w' Hacc H.
  - now injection H as <- _.
  - cbn [Processes.fd_structs_loop] in H.
    destruct (Processes.proc_fdtype fd =? Processes.PROX_FDTYPE_VNODE) eqn:Ev;
      [|destruct (Processes.proc_fdtype fd =? Processes.PROX_FDTYPE_SOCKET) eqn:Es;
        [|destruct (Processes.proc_fdtype fd =? Processes.PROX_FDTYPE_PIPE) eqn:Ep]];
      try (exact (IH _ _ _ _ Hacc H));
      unfold bind in H;
      (destruct (Processes.fd_detail self fd _ w) as [[[buf|]|e] w1];
       [|exact (IH _ _ _ _ Hacc H)|discriminate]);
      refine (IH _ _ _ _ _ H); apply Forall_app; split; try exact Hacc;
      repeat constructor; unfold well_tagged; simpl; now rewrite ?Ev, ?Es.
Qed.

Lemma fds_loop_raises structs :
  forall acc (w : world) e w',
    Forall (fun s => well_tagged s = true) structs ->
    Processes.fds_loop structs acc w = (Raise e, w') ->
    e = KeyError.
Proof.
  induction structs as [|s structs IH]; intros acc w e w' Hall H;
    [discriminate|].
  inversion Hall as [|? ? Hs Hrest]; subst.
  cbn [Processes.fds_loop] in H. cbv zeta in H. unfold well_tagged in Hs.
  destruct (Processes.proc_fdtype (Processes.fs_fd s)
            =? Processes.PROX_FDTYPE_VNODE).
  { destruct (Processes.fs_struct s); try discriminate Hs.
    exact (IH _ _ _ _ Hrest H). }
  destruct (Processes.proc_fdtype (Processes.fs_fd s)
            =? Processes.PROX_FDTYPE_PIPE).
  { exact (IH _ _ _ _ Hrest H). }
  destruct (Processes.proc_fdtype (Processes.fs_fd s)
            =? Processes.PROX_FDTYPE_SOCKET).
  2: exact (IH _ _ _ _ Hrest H).
  destruct (Processes.fs_struct s) as [|psi|]; try discriminate Hs.
  destruct ((Processes.soi_kind psi =? Processes.SOCKINFO_TCP)
            || (Processes.soi_kind psi =? Processes.SOCKINFO_IN)).
  - destruct (Processes.SOCKET_TYPE_DATACLASS !! Processes.soi_family psi)
      as [by_kind|]; [|now injection H as <- _].
    destruct (by_kind !! Processes.soi_kind psi);
      [exact (IH _ _ _ _ Hrest H)|now injection H as <- _].
  - destruct (Processes.soi_kind psi =? Processes.SOCKINFO_UN);
      exact (IH _ _ _ _ Hrest H).
Qed.

Lemma fd_structs_loop_sublist self fds :
  forall acc (w : world) out w',
    Processes.fd_structs_loop self fds acc w = (Ok out, w') ->
    exists new,
      out = acc ++ new
      /\ sublist (map (fun s => Processes.proc_fd (Processes.fs_fd s)) new)
           (map Processes.proc_fd fds).
Proof.
  induction fds as [|fd fds IH]; intros acc w out w' H.
  - injection H as <- _. exists []. rewrite app_nil_r. split; constructor.
  - cbn [Processes.fd_structs_loop] in H.
    assert (Hskip : Processes.fd_structs_loop self fds acc w = (Ok out, w') ->
      exists new, out = acc ++ new
        /\ sublist (map (fun s => Processes.proc_fd (Processes.fs_fd s)) new)
             (map Processes.proc_fd (fd :: fds))).
    { intros Hs. destruct (IH _ _ _ _ Hs) as (new & -> & Hsub).
      exists new. split; [reflexivity|]. now apply sublist_cons. }
    assert (Hcase : forall flavor mk,
      (forall b, Processes.fs_fd (mk b) = fd) ->
      (let* vi_buf := Processes.fd_detail self fd flavor in
       match vi_buf with
       | None => Processes.fd_structs_loop self fds acc
       | Some vi_buf => Processes.fd_structs_loop self fds (acc ++ [mk vi_buf])
       end) w = (Ok out, w') ->
      exists new, out = acc ++ new
        /\ sublist (map (fun s => Processes.proc_fd (Processes.fs_fd s)) new)
             (map Processes.proc_fd (fd :: fds))).
    { intros flavor mk Hmk Hb. unfold bind in Hb.
      destruct (Processes.fd_detail self fd flavor w) as [[[buf|]|e] w1];
        [| |discriminate].
      - destruct (IH _ _ _ _ Hb) as (new & -> & Hsub).
        exists (mk buf :: new). split; [now rewrite <- app_assoc|].
        simpl. rewrite Hmk. now apply sublist_skip.
      - destruct (IH _ _ _ _ Hb) as (new & -> & Hsub).
        exists new. split; [reflexivity|]. now apply sublist_cons. }
    destruct (Processes.proc_fdtype fd =? Processes.PROX_FDTYPE_VNODE);
      [refine (Hcase _ _ _ H); reflexivity|].
    destruct (Processes.proc_fdtype fd =? Processes.PROX_FDTYPE_SOCKET);
      [refine (Hcase _ _ _ H); reflexivity|].
    destruct (Processes.proc_fdtype fd =? Processes.PROX_FDTYPE_PIPE);
      [refine (Hcase _ _ _ H); reflexivity|].
    exact (Hskip H).
Qed.

Lemma fds_loop_sublist structs :
  forall acc (w : world) out w',
    Processes.fds_loop structs acc w = (Ok out, w') ->
    exists new,
      out = acc ++ new
      /\ sublist (map fd_of new)
           (map (fun s => Processes.proc_fd (Processes.fs_fd s)) structs).
Proof.
  induction structs as [|s structs IH]; intros acc w out w' H.
  - injection H as <- _. exists []. rewrite app_nil_r. split; constructor.
  - cbn [Processes.fds_loop] in H. cbv zeta in H.
    assert (Hskip : Processes.fds_loop structs acc w = (Ok out, w') ->
      exists new, out = acc ++ new
        /\ sublist (map fd_of new)
             (map (fun s => Processes.proc_fd (Processes.fs_fd s))
                (s :: structs))).
    { intros Hs. destruct (IH _ _ _ _ Hs) as (new & -> & Hsub).
      exists new. split; [reflexivity|]. now apply sublist_cons. }
    assert (Hgrow : forall x,
      fd_of x = Processes.proc_fd (Processes.fs_fd s) ->
      Processes.fds_loop structs (acc ++ [x]) w = (Ok out, w') ->
      exists new, out = acc ++ new
        /\ sublist (map fd_of new)
             (map (fun s => Processes.proc_fd (Processes.fs_fd s))
                (s :: structs))).
    { intros x Hx Hs. destruct (IH _ _ _ _ Hs) as (new & -> & Hsub).
      exists (x :: new). split; [now rewrite <- app_assoc|].
      simpl. rewrite Hx. now apply sublist_skip. }
    destruct (Processes.proc_fdtype (Processes.fs_fd s)
              =? Processes.PROX_FDTYPE_VNODE).
    { destruct (Processes.fs_struct s); try discriminate H.
      refine (Hgrow _ _ H); reflexivity. }
    destruct (Processes.proc_fdtype (Processes.fs_fd s)
              =? Processes.PROX_FDTYPE_PIPE).
    { refine (Hgrow _ _ H); reflexivity. }
    destruct (Processes.proc_fdtype (Processes.fs_fd s)
              =? Processes.PROX_FDTYPE_SOCKET).
    2: exact (Hskip H).
    destruct (Processes.fs_struct s) as [|psi|]; try discriminate H.
    destruct ((Processes.soi_kind psi =? Processes.SOCKINFO_TCP)
              || (Processes.soi_kind psi =? Processes.SOCKINFO_IN)).
    + destruct (Processes.SOCKET_TYPE_DATACLASS !! Processes.soi_family psi)
        as [by_kind|] eqn:Hfam; [|discriminate H].
      destruct (by_kind !! Processes.soi_kind psi) as [cls|] eqn:Hkind;
        [|discriminate H].
      refine (Hgrow _ _ H).
      unfold Processes.SOCKET_TYPE_DATACLASS in Hfam.
      repeat match type of Hfam with
             | <[_:=_]> _ !! _ = Some _ =>
                 apply lookup_insert_Some in Hfam as [[_ <-]|[_ Hfam]]
             | ∅ !! _ = Some _ => rewrite lookup_empty in Hfam; discriminate
             end;
        repeat match type of Hkind with
               | <[_:=_]> _ !! _ = Some _ =>
                   apply lookup_insert_Some in Hkind as [[_ <-]|[_ Hkind]]
               | ∅ !! _ = Some _ => rewrite lookup_empty in Hkind; discriminate
               end; reflexivity.
    + destruct (Processes.soi_kind psi =? Processes.SOCKINFO_UN);
        [refine (Hgrow _ _ H); reflexivity|exact (Hskip H)].
Qed.

Lemma fd_structs_unfold self (w : world) :
  Processes.fd_structs self w =
    let size := fst (proc_pidinfo_listfds (Processes.pid self) 0 w) in
    let wa := snd (proc_pidinfo_listfds (Processes.pid self) 0 w) in
    let fdinfo_buf :=
      fst (proc_pidinfo_listfds (Processes.pid self) (pi_ret size) wa) in
    let wb :=
      snd (proc_pidinfo_listfds (Processes.pid self) (pi_ret size) wa) in
    if pi_ret fdinfo_buf =? 0 then (Raise BadReturnValueError, wb)
    else Processes.fd_structs_loop self (raw_descriptors self w) [] wb.
Proof.
  unfold Processes.fd_structs, raw_descriptors, bind, call.
  destruct (proc_pidinfo_listfds (Processes.pid self) 0 w) as [size wa].
  simpl.
  destruct (proc_pidinfo_listfds (Processes.pid self) (pi_ret size) wa)
    as [fdinfo_buf wb].
  simpl. now destruct (pi_ret fdinfo_buf =? 0).
Qed.

End FdRecords.

(** X1. When the remote calls and the struct parsers return, [fds] fails
    in two ways only: BadReturnValueError, from a remote query of
    [fd_structs], and KeyError, from the class table.  The struct stored
    beside a descriptor is always the one [fds] reads for it, so no
    attribute is ever missing. *)
Theorem fds_error_kinds `{R : Remote} `{St : Processes.Structs}
    (self : Processes.Process) (w : world) (e : exn) (w' : world) :
  Processes.fds self w = (Raise e, w') ->
  e = BadReturnValueError \/ e = KeyError.
Proof.
  unfold Processes.fds, bind.
  destruct (Processes.fd_structs self w) as [[structs|e1] w1] eqn:Hs.
  - intros H. right. refine (fds_loop_raises structs [] w1 e w' _ H).
    rewrite fd_structs_unfold in Hs. cbv zeta in Hs.
    destruct (pi_ret _ =? 0); [discriminate|].
    exact (fd_structs_loop_well_tagged self _ [] _ _ _ ltac:(constructor) Hs).
  - intros [= <- _]. left. exact (fd_structs_raises self w e1 w1 Hs).
Qed.

Lemma fds_error_kinds_witness :
  KeyError = BadReturnValueError \/ KeyError = KeyError.
Proof.
  apply (@fds_error_kinds (Demo.remote_of Demo.odd_family) Demo.xnu
           {| Processes.pid := 1 |} Demo.w0 KeyError
           {| Demo.errno := 0; Demo.calls := 3 |}).
  reflexivity.
Defined.

(** X2. With distinct kind and family constants, a socket descriptor of
    family AF_INET or AF_INET6 and kind TCP or IN becomes the record of
    the matching class, filled from the TCP block for TCP and from the
    plain inet block for IN; a TCP or IN socket of any other family makes
    [fds] raise KeyError. *)
Theorem fds_socket_classes `{R : Remote} `{St : Processes.Structs}
    (fd : Processes.proc_fdinfo) (psi : Processes.socket_fdinfo)
    (rest : list Processes.FdStruct) (acc : list Processes.Fd) (w : world) :
  Processes.SOCKINFO_TCP <> Processes.SOCKINFO_IN ->
  Processes.AF_INET <> Processes.AF_INET6 ->
  Processes.proc_fdtype fd <> Processes.PROX_FDTYPE_VNODE ->
  Processes.proc_fdtype fd <> Processes.PROX_FDTYPE_PIPE ->
  Processes.proc_fdtype fd = Processes.PROX_FDTYPE_SOCKET ->
  let s := {| Processes.fs_fd := fd;
              Processes.fs_struct := Processes.SocketStruct psi |} in
  let tcp := Processes.pri_tcp_tcpsi_ini psi in
  let udp := Processes.pri_in psi in
  let family := Processes.soi_family psi in
  let kind := Processes.soi_kind psi in
  let appends x :=
    Processes.fds_loop (s :: rest) acc w
    = Processes.fds_loop rest (acc ++ [x]) w in
  (family = Processes.AF_INET -> kind = Processes.SOCKINFO_TCP ->
   appends (inet_record Processes.Ipv4TcpFd fd tcp))
  /\ (family = Processes.AF_INET -> kind = Processes.SOCKINFO_IN ->
      appends (inet_record Processes.Ipv4UdpFd fd udp))
  /\ (family = Processes.AF_INET6 -> kind = Processes.SOCKINFO_TCP ->
      appends (inet_record Processes.Ipv6TcpFd fd tcp))
  /\ (family = Processes.AF_INET6 -> kind = Processes.SOCKINFO_IN ->
      appends (inet_record Processes.Ipv6UdpFd fd udp))
  /\ (kind = Processes.SOCKINFO_TCP \/ kind = Processes.SOCKINFO_IN ->
      family <> Processes.AF_INET -> family <> Processes.AF_INET6 ->
      Processes.fds_loop (s :: rest) acc w = (Raise KeyError, w)).
Proof.
  intros Hkinds Hfams Hv Hp Hs. cbv zeta.
  apply Z.eqb_neq in Hv, Hp. apply Z.eqb_eq in Hs.
  cbn [Processes.fds_loop Processes.fs_fd Processes.fs_struct]. cbv zeta.
  rewrite Hv, Hp, Hs. unfold Processes.SOCKET_TYPE_DATACLASS, inet_record.
  assert (Hin : (Processes.SOCKINFO_IN =? Processes.SOCKINFO_TCP) = false)
    by (apply Z.eqb_neq; congruence).
  repeat split.
  - intros -> ->. rewrite Z.eqb_refl. simpl.
    rewrite lookup_insert_ne, lookup_insert_eq by congruence.
    now rewrite lookup_insert_ne, lookup_insert_eq by congruence.
  - intros -> ->. rewrite Hin, Z.eqb_refl. simpl.
    rewrite lookup_insert_ne, lookup_insert_eq by congruence.
    now rewrite lookup_insert_eq.
  - intros -> ->. rewrite Z.eqb_refl. simpl.
    rewrite lookup_insert_eq.
    now rewrite lookup_insert_ne, lookup_insert_eq by congruence.
  - intros -> ->. rewrite Hin, Z.eqb_refl. simpl.
    rewrite lookup_insert_eq.
    now rewrite lookup_insert_eq.
  - intros Hkind Hf4 Hf6.
    assert ((Processes.soi_kind psi =? Processes.SOCKINFO_TCP)
            || (Processes.soi_kind psi =? Processes.SOCKINFO_IN) = true) as ->.
    { destruct Hkind as [-> | ->]; rewrite Z.eqb_refl;
        [reflexivity|apply orb_true_r]. }
    now rewrite !lookup_insert_ne, lookup_empty by congruence.
Qed.

Lemma fds_socket_classes_witness :
  let psi :=
    Demo.socket_of [x02; x00; x02; x00; x90; x1f; x00; x00; x00] in
  @Processes.fds_loop (Demo.remote_of Demo.busy) Demo.xnu
    [ {| Processes.fs_fd :=
           {| Processes.proc_fd := 4; Processes.proc_fdtype := 2 |};
         Processes.fs_struct := Processes.SocketStruct psi |} ]
    [] Demo.w0
  = (Ok [Processes.Ipv4TcpFd 4 "0.0.0.0" 8080 "0.0.0.0" 0], Demo.w0).
Proof.
  intros psi.
  refine (eq_trans
            (proj1 (@fds_socket_classes (Demo.remote_of Demo.busy) Demo.xnu
                      {| Processes.proc_fd := 4; Processes.proc_fdtype := 2 |}
                      psi [] [] Demo.w0 _ _ _ _ _) eq_refl eq_refl) _);
    try discriminate; reflexivity.
Defined.

(** The odd family on the script. *)
Example fds_odd_family :
  fst (@Processes.fds (Demo.remote_of Demo.odd_family) Demo.xnu
         {| Processes.pid := 1 |} Demo.w0)
  = Raise KeyError.
Proof. reflexivity. Qed.

(** X3. The records that [fds] returns follow the raw descriptors: their
    descriptor numbers are, in the same order, numbers of the raw
    descriptors that the listing call delivered; none is invented, none
    is reported twice for one raw entry. *)
Theorem fds_follow_raw_descriptors `{R : Remote} `{St : Processes.Structs}
    (self : Processes.Process) (w : world) (out : list Processes.Fd)
    (w' : world) :
  Processes.fds self w = (Ok out, w') ->
  sublist (map fd_of out)
    (map Processes.proc_fd (raw_descriptors self w)).
Proof.
  unfold Processes.fds, bind.
  destruct (Processes.fd_structs self w) as [[structs|e1] w1] eqn:Hs;
    [|discriminate].
  intros H. rewrite fd_structs_unfold in Hs. cbv zeta in Hs.
  destruct (pi_ret _ =? 0); [discriminate|].
  destruct (fd_structs_loop_sublist self _ [] _ _ _ Hs) as (new1 & -> & Hsub1).
  destruct (fds_loop_sublist _ [] _ _ _ H) as (new2 & -> & Hsub2).
  simpl in *. now transitivity
    (map (fun s => Processes.proc_fd (Processes.fs_fd s)) new1).
Qed.

Lemma fds_follow_raw_descriptors_witness :
  sublist [4; 5] [3; 4; 5; 6; 7].
Proof.
  apply (@fds_follow_raw_descriptors (Demo.remote_of Demo.busy) Demo.xnu
           {| Processes.pid := 1 |} Demo.w0
           [Processes.PipeFd 4; Processes.FileFd 5 "/etc/hosts"]
           {| Demo.errno := 9; Demo.calls := 6 |}).
  reflexivity.
Defined.

(** ** Lookups and scans *)

Section MoreDirectory.
Context `{R : Remote} `{Py : PyRuntime} `{St : Processes.Structs}.

Lemma first_match_skips {A : Type} (f : Processes.Process -> M world A)
    (g : A -> bool) pre :
  forall rest w attrs w',
    each f pre w = (Ok attrs, w') ->
    Forall (fun a => g a = false) attrs ->
    Processes.first_match (fun p => let* a := f p in ret (g a)) (pre ++ rest) w
    = Processes.first_match (fun p => let* a := f p in ret (g a)) rest w'.
Proof.
  induction pre as [|p pre IH]; intros rest w attrs w' Heach Hall.
  - now injection Heach as _ <-.
  - cbn [each Processes.first_match app] in *. unfold bind in *.
    destruct (f p w) as [[a|e] w1]; [|discriminate].
    destruct (each f pre w1) as [[more|e] w2] eqn:Hrest; [|discriminate].
    injection Heach as <- <-. inversion Hall as [|? ? Ha Hmore]; subst.
    unfold ret at 1. rewrite Ha. now apply (IH rest w1 more).
Qed.

Lemma first_match_raises {A : Type} (f : Processes.Process -> M world A)
    (g : A -> bool) (allowed : exn -> Prop) procs :
  (forall p w e w', f p w = (Raise e, w') -> allowed e) ->
  forall w e w',
    Processes.first_match (fun p => let* a := f p in ret (g a)) procs w
    = (Raise e, w') ->
    e = ArgumentError \/ allowed e.
Proof.
  intros Hf. induction procs as [|p procs IH]; intros w e w' H.
  - injection H as <- _. now left.
  - cbn [Processes.first_match] in H. unfold bind in H.
    destruct (f p w) as [[a|e1] w1] eqn:Hp.
    + unfold ret at 1 in H. destruct (g a); [discriminate|]. exact (IH _ _ _ H).
    + injection H as <- _. right. exact (Hf _ _ _ _ Hp).
Qed.

Lemma basename_raises p (w : world) e w' :
  Processes.basename p w = (Raise e, w') -> e = IndexError.
Proof.
  unfold Processes.basename, Processes.path, bind, call.
  destruct (proc_pidpath (Processes.pid p) w) as [[path_len text] w1].
  destruct (path_len =? 0); [discriminate|]. simpl.
  destruct (String.eqb text ""); [discriminate|].
  destruct (path_last_part text); [discriminate|]. now intros [= <- _].
Qed.

Lemma name_raises p (w : world) e w' :
  Processes.name p w = (Raise e, w') -> e = BadReturnValueError.
Proof.
  unfold Processes.name, bind, call.
  destruct (proc_pidinfo_taskallinfo (Processes.pid p) w) as [[size n] w1].
  destruct (size =? 0); [now intros [= <- _]|discriminate].
Qed.

Lemma list_returns (w : world) :
  exists procs w1, Processes.list_ w = (Ok procs, w1).
Proof.
  unfold Processes.list_, bind, call.
  destruct (proc_listallpids 0 w) as [n wa].
  destruct (proc_listallpids _ wa) as [pid_buf wb]. eauto.
Qed.

Lemma grep_loop_raises name_ procs :
  forall result (w : world) e w',
    Processes.grep_loop name_ procs result w = (Raise e, w') -> e = IndexError.
Proof.
  induction procs as [|p procs IH]; intros result w e w' H; [discriminate|].
  cbn [Processes.grep_loop] in H. unfold bind in H.
  destruct (Processes.basename p w) as [[b|e1] w1] eqn:Hb.
  - destruct (Processes.grep_test name_ b); exact (IH _ _ _ _ H).
  - injection H as <- _. exact (basename_raises _ _ _ _ Hb).
Qed.

Lemma each_length {A : Type} (f : Processes.Process -> M world A) procs :
  forall w attrs w',
    each f procs w = (Ok attrs, w') -> length attrs = length procs.
Proof.
  induction procs as [|p procs IH]; intros w attrs w' H.
  - now injection H as <- _.
  - cbn [each] in H. unfold bind in H.
    destruct (f p w) as [[a|e] w1]; [|discriminate].
    destruct (each f procs w1) as [[more|e] w2] eqn:Hrest; [|discriminate].
    injection H as <- _. simpl. f_equal. exact (IH _ _ _ Hrest).
Qed.

Lemma listening_port_loop_skips port pre :
  forall rest (w : world) outs w',
    each Processes.try_fds pre w = (Ok outs, w') ->
    Forall (fun o => listens port o = false) outs ->
    Processes.listening_port_loop port (pre ++ rest) w
    = Processes.listening_port_loop port rest w'.
Proof.
  induction pre as [|p pre IH]; intros rest w outs w' Heach Hall.
  - now injection Heach as _ <-.
  - cbn [each Processes.listening_port_loop app] in *. unfold bind in *.
    destruct (Processes.try_fds p w) as [[o|e] w1]; [|discriminate].
    destruct (each Processes.try_fds pre w1) as [[more|e] w2] eqn:Hrest;
      [|discriminate].
    injection Heach as <- <-. inversion Hall as [|? ? Ho Hmore]; subst.
    destruct o as [fds|]; simpl in Ho.
    + rewrite Ho. now apply (IH rest w1 more).
    + now apply (IH rest w1 more).
Qed.

Lemma lsof_collect_other procs :
  forall outs result k,
    ~ In k (map Processes.pid procs) ->
    lsof_collect procs outs result !! k = result !! k.
Proof.
  induction procs as [|p procs IH]; intros outs result k Hk; [reflexivity|].
  simpl in Hk. destruct outs as [|[fds|] outs]; simpl; try reflexivity.
  - rewrite IH by tauto. apply lookup_insert_ne. tauto.
  - apply IH. tauto.
Qed.

Lemma lsof_collect_lookup procs :
  forall outs result (i : nat) p o,
    List.NoDup (map Processes.pid procs) ->
    procs !! i = Some p -> outs !! i = Some o ->
    lsof_collect procs outs result !! Processes.pid p =
      match o with
      | Some fds => Some fds
      | None => result !! Processes.pid p
      end.
Proof.
  induction procs as [|q procs IH]; intros outs result i p o Hnd Hp Ho;
    [discriminate|].
  inversion Hnd as [|? ? Hq Hnd']; subst.
  destruct outs as [|o' outs]; [destruct i; discriminate|].
  destruct i as [|i]; simpl in Hp, Ho.
  - injection Hp as ->. injection Ho as ->.
    destruct o as [fds|]; simpl.
    + rewrite lsof_collect_other by exact Hq. apply lookup_insert_eq.
    + now apply lsof_collect_other.
  - assert (Hne : Processes.pid q <> Processes.pid p).
    { intros Heq. apply Hq. rewrite Heq. apply in_map.
      apply list_elem_of_In. eapply list_elem_of_lookup_2. exact Hp. }
    destruct o' as [fds'|]; simpl; rewrite (IH _ _ i p o Hnd' Hp Ho);
      destruct o; try reflexivity.
    now apply lookup_insert_ne.
Qed.

Lemma fuser_fds_replicate path_ process fds :
  forall result,
    Processes.fuser_fds path_ process fds result
    = result ++ replicate (hits path_ (Some fds)) process.
Proof.
  induction fds as [|fd fds IH]; intros result; simpl.
  - now rewrite app_nil_r.
  - destruct fd; simpl; try apply IH.
    destruct (String.eqb _ _); simpl.
    + rewrite IH, <- app_assoc. reflexivity.
    + apply IH.
Qed.

Lemma fuser_collect_concat path_ procs :
  forall outs result,
    length outs = length procs ->
    fuser_collect path_ procs outs result
    = result ++ concat (zip_with (fun p o => replicate (hits path_ o) p)
                          procs outs).
Proof.
  induction procs as [|p procs IH]; intros outs result Hlen.
  - destruct outs; [|discriminate]. simpl. now rewrite app_nil_r.
  - destruct outs as [|o outs]; [discriminate|].
    injection Hlen as Hlen. destruct o as [fds|]; simpl.
    + rewrite (IH _ _ Hlen), fuser_fds_replicate, <- app_assoc. reflexivity.
    + now rewrite (IH _ _ Hlen).
Qed.

Lemma prefix_app (a b : string) :
  String.prefix a b = true <-> exists post, b = (a ++ post)%string.
Proof.
  revert b. induction a as [|c a IH]; intros b.
  - split; [intros _; now exists b|]. intros _. now destruct b.
  - destruct b as [|d b]; simpl.
    + split; [discriminate|intros [post H]; discriminate].
    + destruct (ascii_dec c d) as [->|Hne].
      * rewrite IH. split; intros [post H]; exists post.
        -- subst. reflexivity.
        -- change (String d b = String d (a +:+ post)) in H. congruence.
      * split; [discriminate|]. intros [post H].
        change (String d b = String c (a +:+ post)) in H. congruence.
Qed.

Lemma str_contains_app (needle hay : string) :
  Processes.str_contains needle hay = true <->
  exists pre post, hay = (pre ++ needle ++ post)%string.
Proof.
  induction hay as [|c hay IH]; cbn [Processes.str_contains].
  - rewrite orb_false_r, prefix_app. split.
    + intros [post H]. now exists ""%string, post.
    + intros [[|d pre] [post H]]; [now exists post|discriminate].
  - rewrite orb_true_iff, prefix_app, IH. split.
    + intros [[post H]|[pre [post H]]].
      * now exists ""%string, post.
      * exists (String c pre), post. rewrite H. reflexivity.
    + intros [[|d pre] [post H]].
      * left. now exists post.
      * right. change (String c hay = String d (pre +:+ needle +:+ post)) in H.
        injection H as -> ->. now exists pre, post.
Qed.

End MoreDirectory.

(** X4. [get_by_basename] and [get_by_name] return the first process of
    the snapshot that matches, and ask nothing about the processes after
    it: the world is the one left by the query that matched. *)
Theorem lookups_return_first_match `{R : Remote} `{Py : PyRuntime}
    `{St : Processes.Structs} (w w1 : world)
    (pre : list Processes.Process) (p : Processes.Process)
    (post : list Processes.Process) :
  Processes.list_ w = (Ok (pre ++ p :: post), w1) ->
  (forall name_ basenames w2 w3,
     each Processes.basename pre w1 = (Ok basenames, w2) ->
     Forall (fun b => Processes.opt_str_eqb b name_ = false) basenames ->
     Processes.basename p w2 = (Ok (Some name_), w3) ->
     Processes.get_by_basename name_ w = (Ok p, w3))
  /\ (forall name_ names w2 w3,
        each Processes.name pre w1 = (Ok names, w2) ->
        Forall (fun n => String.eqb n name_ = false) names ->
        Processes.name p w2 = (Ok name_, w3) ->
        Processes.get_by_name name_ w = (Ok p, w3)).
Proof.
  intros Hlist. split.
  - intros name_ basenames w2 w3 Heach Hall Hp.
    unfold Processes.get_by_basename, bind at 1. rewrite Hlist.
    rewrite (first_match_skips Processes.basename
               (fun b => Processes.opt_str_eqb b name_) pre (p :: post)
               w1 basenames w2 Heach Hall).
    cbn [Processes.first_match]. unfold bind. rewrite Hp.
    unfold ret at 1. simpl. now rewrite String.eqb_refl.
  - intros name_ names w2 w3 Heach Hall Hp.
    unfold Processes.get_by_name, bind at 1. rewrite Hlist.
    rewrite (first_match_skips Processes.name
               (fun n => String.eqb n name_) pre (p :: post)
               w1 names w2 Heach Hall).
    cbn [Processes.first_match]. unfold bind. rewrite Hp.
    unfold ret at 1. now rewrite String.eqb_refl.
Qed.

Lemma lookups_return_first_match_witness :
  @Processes.get_by_basename (Demo.remote_of Demo.busy) Demo.python Demo.xnu
    "httpd" Demo.w0
  = (Ok {| Processes.pid := 3 |}, {| Demo.errno := 0; Demo.calls := 5 |}).
Proof.
  apply (proj1 (@lookups_return_first_match (Demo.remote_of Demo.busy)
                  Demo.python Demo.xnu Demo.w0
                  {| Demo.errno := 0; Demo.calls := 2 |}
                  [ {| Processes.pid := 1 |}; {| Processes.pid := 2 |} ]
                  {| Processes.pid := 3 |} [] eq_refl)
           "httpd"%string [Some "launchd"%string; None]
           {| Demo.errno := 0; Demo.calls := 4 |}).
  - reflexivity.
  - repeat constructor.
  - reflexivity.
Defined.

(** X5. What the lookups raise themselves, when the remote calls return
    and the path read back decodes: [get_by_pid] only ArgumentError;
    [get_by_basename] ArgumentError or the IndexError of an executable
    path without a last part; [get_by_name] ArgumentError or the
    BadReturnValueError of a process whose information cannot be fetched;
    [grep] only that IndexError. *)
Theorem lookup_error_kinds `{R : Remote} `{Py : PyRuntime}
    `{St : Processes.Structs} (w : world) (e : exn) (w' : world) :
  (forall pid_,
     Processes.get_by_pid pid_ w = (Raise e, w') -> e = ArgumentError)
  /\ (forall name_,
        Processes.get_by_basename name_ w = (Raise e, w') ->
        e = ArgumentError \/ e = IndexError)
  /\ (forall name_,
        Processes.get_by_name name_ w = (Raise e, w') ->
        e = ArgumentError \/ e = BadReturnValueError)
  /\ (forall name_,
        Processes.grep name_ w = (Raise e, w') -> e = IndexError).
Proof.
  destruct (list_returns w) as (procs & w1 & Hlist).
  repeat split; intros x H.
  - unfold Processes.get_by_pid, bind in H. rewrite Hlist in H.
    rewrite first_match_pure in H.
    destruct (List.find _ procs); congruence.
  - unfold Processes.get_by_basename, bind at 1 in H. rewrite Hlist in H.
    refine (first_match_raises Processes.basename _ (fun e => e = IndexError)
              procs _ _ _ _ H).
    intros p0 w0 e0 w0'. apply basename_raises.
  - unfold Processes.get_by_name, bind at 1 in H. rewrite Hlist in H.
    refine (first_match_raises Processes.name _
              (fun e => e = BadReturnValueError) procs _ _ _ _ H).
    intros p0 w0 e0 w0'. apply name_raises.
  - unfold Processes.grep, bind in H. rewrite Hlist in H.
    exact (grep_loop_raises _ _ _ _ _ _ H).
Qed.

Lemma lookup_error_kinds_witness :
  BadReturnValueError = ArgumentError
  \/ BadReturnValueError = BadReturnValueError.
Proof.
  apply (proj1 (proj2 (proj2
           (@lookup_error_kinds (Demo.remote_of Demo.nameless) Demo.python
              Demo.xnu Demo.w0 BadReturnValueError
              {| Demo.errno := 0; Demo.calls := 4 |})))
           "httpd"%string).
  reflexivity.
Defined.

(** X6. [get_by_name] gives up at the first process whose information
    cannot be fetched: when no earlier process bears the name, the
    BadReturnValueError of that query is what the caller gets, whatever
    the names of the processes after it. *)
Theorem get_by_name_stops_at_failed_query `{R : Remote}
    `{St : Processes.Structs} (w w1 w2 w3 : world)
    (pre : list Processes.Process) (p : Processes.Process)
    (post : list Processes.Process) (name_ : string)
    (names : list string) (pbi_name : string) :
  Processes.list_ w = (Ok (pre ++ p :: post), w1) ->
  each Processes.name pre w1 = (Ok names, w2) ->
  Forall (fun n => String.eqb n name_ = false) names ->
  proc_pidinfo_taskallinfo (Processes.pid p) w2 = ((0, pbi_name), w3) ->
  Processes.get_by_name name_ w = (Raise BadReturnValueError, w3).
Proof.
  intros Hlist Heach Hall Hq.
  unfold Processes.get_by_name, bind at 1. rewrite Hlist.
  rewrite (first_match_skips Processes.name (fun n => String.eqb n name_)
             pre (p :: post) w1 names w2 Heach Hall).
  cbn [Processes.first_match]. unfold Processes.name, bind, call.
  now rewrite Hq.
Qed.

Lemma get_by_name_stops_at_failed_query_witness :
  @Processes.get_by_name (Demo.remote_of Demo.nameless) Demo.xnu
    "httpd" Demo.w0
  = (Raise BadReturnValueError, {| Demo.errno := 0; Demo.calls := 4 |}).
Proof.
  apply (@get_by_name_stops_at_failed_query (Demo.remote_of Demo.nameless)
           Demo.xnu Demo.w0
           {| Demo.errno := 0; Demo.calls := 2 |}
           {| Demo.errno := 0; Demo.calls := 3 |}
           {| Demo.errno := 0; Demo.calls := 4 |}
           [ {| Processes.pid := 1 |} ] {| Processes.pid := 2 |}
           [ {| Processes.pid := 3 |} ] "httpd"%string
           ["launchd"%string] ""%string).
  - reflexivity.
  - reflexivity.
  - repeat constructor.
  - reflexivity.
Defined.

(** X7. [get_process_by_listening_port] returns the first process of the
    snapshot one of whose inet sockets has the port as local port and 0
    as remote port, skipping processes whose descriptors cannot be read;
    when there is none it returns Python's [None], not an error. *)
Theorem listening_port_first_listener `{R : Remote}
    `{St : Processes.Structs} (port : Z) (w w1 w2 : world)
    (pre : list Processes.Process)
    (outs : list (option (list Processes.Fd))) :
  each Processes.try_fds pre w1 = (Ok outs, w2) ->
  Forall (fun o => listens port o = false) outs ->
  (Processes.list_ w = (Ok pre, w1) ->
   Processes.get_process_by_listening_port port w = (Ok None, w2))
  /\ (forall p post fds w3,
        Processes.list_ w = (Ok (pre ++ p :: post), w1) ->
        Processes.try_fds p w2 = (Ok (Some fds), w3) ->
        listens port (Some fds) = true ->
        Processes.get_process_by_listening_port port w = (Ok (Some p), w3)).
Proof.
  intros Heach Hall. split.
  - intros Hlist. unfold Processes.get_process_by_listening_port, bind.
    rewrite Hlist. rewrite <- (app_nil_r pre).
    now rewrite (listening_port_loop_skips port pre [] w1 outs w2 Heach Hall).
  - intros p post fds w3 Hlist Hp Hl.
    unfold Processes.get_process_by_listening_port, bind at 1. rewrite Hlist.
    rewrite (listening_port_loop_skips port pre (p :: post) w1 outs w2
               Heach Hall).
    cbn [Processes.listening_port_loop]. unfold bind. rewrite Hp.
    simpl in Hl. now rewrite Hl.
Qed.

Lemma listening_port_first_listener_witness :
  @Processes.get_process_by_listening_port (Demo.remote_of Demo.busy)
    Demo.xnu 8080 Demo.w0
  = (Ok (Some {| Processes.pid := 3 |}),
     {| Demo.errno := 9; Demo.calls := 14 |}).
Proof.
  refine (proj2 (@listening_port_first_listener (Demo.remote_of Demo.busy)
                   Demo.xnu 8080 Demo.w0
                   {| Demo.errno := 0; Demo.calls := 2 |}
                   {| Demo.errno := 9; Demo.calls := 10 |}
                   [ {| Processes.pid := 1 |}; {| Processes.pid := 2 |} ]
                   [ Some [Processes.PipeFd 4;
                           Processes.FileFd 5 "/etc/hosts"]; None ]
                   eq_refl _)
            {| Processes.pid := 3 |} []
            [Processes.FileFd 3 "/etc/hosts";
             Processes.Ipv4TcpFd 4 "0.0.0.0" 8080 "0.0.0.0" 0]
            {| Demo.errno := 9; Demo.calls := 14 |} eq_refl eq_refl eq_refl).
  repeat constructor.
Defined.

(** X8. The dictionary of [lsof] has keys among the pids of the
    snapshot only; and when those pids are distinct, the entry of a
    process is its descriptor list, and a process whose descriptors could
    not be read has no entry. *)
Theorem lsof_entries `{R : Remote} `{St : Processes.Structs}
    (w w1 w2 : world) (procs : list Processes.Process)
    (outs : list (option (list Processes.Fd))) :
  Processes.list_ w = (Ok procs, w1) ->
  each Processes.try_fds procs w1 = (Ok outs, w2) ->
  exists result,
    Processes.lsof w = (Ok result, w2)
    /\ (forall k, is_Some (result !! k) -> In k (map Processes.pid procs))
    /\ (List.NoDup (map Processes.pid procs) ->
        forall (i : nat) p o,
          procs !! i = Some p -> outs !! i = Some o ->
          result !! Processes.pid p = o).
Proof.
  intros Hlist Heach. exists (lsof_collect procs outs ∅). split; [|split].
  - unfold Processes.lsof, bind. rewrite Hlist.
    now apply lsof_loop_each.
  - intros k [fds Hk].
    destruct (in_dec Z.eq_dec k (map Processes.pid procs)) as [Hin|Hnin];
      [exact Hin|].
    rewrite lsof_collect_other, lookup_empty in Hk by exact Hnin.
    discriminate.
  - intros Hnd i p o Hp Ho.
    rewrite (lsof_collect_lookup procs outs ∅ i p o Hnd Hp Ho).
    destruct o; [reflexivity|apply lookup_empty].
Qed.

Lemma lsof_entries_witness :
  exists result,
    @Processes.lsof (Demo.remote_of Demo.busy) Demo.xnu Demo.w0
    = (Ok result, {| Demo.errno := 9; Demo.calls := 14 |})
    /\ result !! 2 = None
    /\ result !! 3 = Some [Processes.FileFd 3 "/etc/hosts";
                           Processes.Ipv4TcpFd 4 "0.0.0.0" 8080 "0.0.0.0" 0].
Proof.
  destruct (@lsof_entries (Demo.remote_of Demo.busy) Demo.xnu Demo.w0
              {| Demo.errno := 0; Demo.calls := 2 |}
              {| Demo.errno := 9; Demo.calls := 14 |}
              [ {| Processes.pid := 1 |}; {| Processes.pid := 2 |};
                {| Processes.pid := 3 |} ]
              [ Some [Processes.PipeFd 4; Processes.FileFd 5 "/etc/hosts"];
                None;
                Some [Processes.FileFd 3 "/etc/hosts";
                      Processes.Ipv4TcpFd 4 "0.0.0.0" 8080 "0.0.0.0" 0] ]
              eq_refl eq_refl) as (result & Hrun & _ & Hget).
  exists result. split; [exact Hrun|].
  assert (Hnd : List.NoDup [1; 2; 3]).
  { repeat constructor; simpl; intuition discriminate. }
  split.
  - exact (Hget Hnd 1%nat {| Processes.pid := 2 |} None eq_refl eq_refl).
  - exact (Hget Hnd 2%nat {| Processes.pid := 3 |} (Some _) eq_refl eq_refl).
Defined.

(** X9. [fuser] lists the processes in snapshot order, each one once for
    every file descriptor it holds on the path: a process with two
    descriptors on the file appears twice, a process with none, or whose
    descriptors cannot be read, does not appear. *)
Theorem fuser_multiplicity `{R : Remote} `{Py : PyRuntime}
    `{St : Processes.Structs} (path_ : string) (w w1 w2 : world)
    (procs : list Processes.Process)
    (outs : list (option (list Processes.Fd))) :
  Processes.list_ w = (Ok procs, w1) ->
  each Processes.try_fds procs w1 = (Ok outs, w2) ->
  Processes.fuser path_ w =
    (Ok (concat (zip_with (fun p o => replicate (hits path_ o) p) procs outs)),
     w2).
Proof.
  intros Hlist Heach. unfold Processes.fuser, bind. rewrite Hlist.
  rewrite (fuser_loop_each path_ procs [] w1 outs w2 Heach).
  now rewrite fuser_collect_concat by exact (each_length _ _ _ _ _ Heach).
Qed.

Lemma fuser_multiplicity_witness :
  @Processes.fuser (Demo.remote_of Demo.busy) Demo.python Demo.xnu
    "/etc/hosts" Demo.w0
  = (Ok [ {| Processes.pid := 1 |}; {| Processes.pid := 3 |} ],
     {| Demo.errno := 9; Demo.calls := 14 |}).
Proof.
  apply (@fuser_multiplicity (Demo.remote_of Demo.busy) Demo.python Demo.xnu
           "/etc/hosts" Demo.w0
           {| Demo.errno := 0; Demo.calls := 2 |}
           {| Demo.errno := 9; Demo.calls := 14 |}
           [ {| Processes.pid := 1 |}; {| Processes.pid := 2 |};
             {| Processes.pid := 3 |} ]
           [ Some [Processes.PipeFd 4; Processes.FileFd 5 "/etc/hosts"];
             None;
             Some [Processes.FileFd 3 "/etc/hosts";
                   Processes.Ipv4TcpFd 4 "0.0.0.0" 8080 "0.0.0.0" 0] ]).
  - reflexivity.
  - reflexivity.
Defined.

(** X10. What [grep] returns is a selection of the snapshot, in snapshot
    order, and every process in it has a non-empty basename in which the
    text occurs: the basename is some text, the searched text, some
    text. *)
Theorem grep_selects_substring_matches `{R : Remote} `{Py : PyRuntime}
    `{St : Processes.Structs} (name_ : string) (w w1 w2 : world)
    (procs : list Processes.Process) (basenames : list (option string)) :
  Processes.list_ w = (Ok procs, w1) ->
  each Processes.basename procs w1 = (Ok basenames, w2) ->
  exists out,
    Processes.grep name_ w = (Ok out, w2)
    /\ sublist out procs
    /\ Forall (fun p =>
         exists b pre post,
           In (p, Some b) (combine procs basenames)
           /\ b <> ""%string
           /\ b = (pre ++ name_ ++ post)%string) out.
Proof.
  intros Hlist Heach. exists (grep_keeps name_ procs basenames).
  split; [|split].
  - unfold Processes.grep, bind. rewrite Hlist.
    now rewrite (grep_loop_each name_ procs [] w1 basenames w2 Heach).
  - clear. unfold grep_keeps. revert basenames.
    induction procs as [|p procs IH]; intros [|b basenames]; simpl;
      try apply sublist_nil_l.
    destruct (Processes.grep_test name_ b); simpl.
    + apply sublist_skip, IH.
    + apply sublist_cons, IH.
  - clear. unfold grep_keeps. apply Forall_forall. intros p Hp.
    apply list_elem_of_In, in_map_iff in Hp as [[q b] [Heq Hin]].
    simpl in Heq. subst q. apply filter_In in Hin as [Hin Htest].
    simpl in Htest. destruct b as [b|]; [|discriminate].
    apply andb_true_iff in Htest as [Hne Hsub].
    apply str_contains_app in Hsub as (pre & post & Hb).
    exists b, pre, post. repeat split; try assumption.
    intros ->. discriminate Hne.
Qed.

Lemma grep_selects_substring_matches_witness :
  exists out,
    @Processes.grep (Demo.remote_of Demo.busy) Demo.python Demo.xnu
      "ttp" Demo.w0
    = (Ok out, {| Demo.errno := 0; Demo.calls := 5 |})
    /\ sublist out [ {| Processes.pid := 1 |}; {| Processes.pid := 2 |};
                     {| Processes.pid := 3 |} ].
Proof.
  destruct (@grep_selects_substring_matches (Demo.remote_of Demo.busy)
              Demo.python Demo.xnu "ttp" Demo.w0
              {| Demo.errno := 0; Demo.calls := 2 |}
              {| Demo.errno := 0; Demo.calls := 5 |}
              [ {| Processes.pid := 1 |}; {| Processes.pid := 2 |};
                {| Processes.pid := 3 |} ]
              [ Some "launchd"%string; None; Some "httpd"%string ]
              eq_refl eq_refl) as (out & Hrun & Hsub & _).
  exists out. split; [exact Hrun|exact Hsub].
Defined.

(** ** More on [peek_str] *)

Lemma before_nul_has_no_nul (l : list byte) :
  Processes.has_nul (Processes.before_nul l) = false.
Proof.
  induction l as [|b l IH]; [reflexivity|]. simpl.
  destruct (Byte.eqb b x00) eqn:E; [reflexivity|]. simpl.
  rewrite IH, orb_false_r.
  destruct (Byte.eqb x00 b) eqn:E'; [|reflexivity].
  apply Byte.byte_dec_bl in E'. subst b. discriminate E.
Qed.

Section PeekStrMore.
Context `{R : Remote} `{Py : PyRuntime}.
Variable self : Processes.Process.

Lemma peek_str_loop_text (fuel : nat) :
  forall address size buf st v st',
    Processes.peek_str_loop fuel self address size buf st
    = (Ok (Some (Some v)), st') ->
    exists bs, Processes.has_nul bs = false /\ bytes_decode bs = Some v.
Proof.
  induction fuel as [|fuel IH]; intros address size buf st v st' H;
    [discriminate|].
  simpl in H. destruct (size =? 0); [discriminate|].
  unfold bind in H.
  destruct (Processes.peek_str_body self address size buf st)
    as [[[s|a' size' buf']|e] st1] eqn:Hbody; [| |discriminate].
  - injection H as -> _.
    unfold Processes.peek_str_body, try_except, bind in Hbody.
    destruct (Processes.peek self address size st) as [[chunk|e] st2].
    + destruct (Processes.has_nul (buf ++ chunk)); [|discriminate].
      destruct (bytes_decode (Processes.before_nul (buf ++ chunk)))
        as [s|] eqn:Hd; [|discriminate].
      injection Hbody as -> _.
      exists (Processes.before_nul (buf ++ chunk)).
      split; [apply before_nul_has_no_nul|exact Hd].
    + destruct (exn_eqb e BadReturnValueError); discriminate.
  - exact (IH _ _ _ _ _ _ H).
Qed.

Lemma peek_str_loop_endless (t : Z) (fuel : nat) :
  task_is self t ->
  (forall w a n, 0 < n ->
     vm_kr (fst (vm_read t a n w)) = 0
     /\ Processes.has_nul (vm_data (fst (vm_read t a n w))) = false) ->
  forall address size buf w memo,
    memo_ok t memo -> 0 < size -> Processes.has_nul buf = false ->
    fst (Processes.peek_str_loop fuel self address size buf (w, memo))
    = Ok None.
Proof.
  intros Htask Hread.
  induction fuel as [|fuel IH]; intros address size buf w memo Hmemo Hsize Hbuf;
    [reflexivity|].
  simpl. destruct (Z.eqb_spec size 0) as [->|_]; [lia|].
  destruct (peek_outcome self t w memo address size Htask Hmemo) as [w' Hpeek].
  simpl in Hpeek. destruct (Hread w' address size Hsize) as [Hkr Hnul].
  rewrite Hkr in Hpeek. simpl in Hpeek.
  unfold bind at 1. rewrite (peek_str_body_success _ _ _ _ _ _ _ Hpeek).
  rewrite has_nul_app, Hbuf, Hnul. simpl.
  apply IH; [now right|exact Hsize|].
  now rewrite has_nul_app, Hbuf, Hnul.
Qed.

Section Unterminated.
Variables (mem : Z -> option byte) (address : Z) (s : list byte).
Hypothesis Hread : forall t w a n, 0 < n ->
  vm_kr (fst (vm_read t a n w)) = 0 ->
  mem_range mem a (Z.to_nat n) = Some (vm_data (fst (vm_read t a n w))).
Hypothesis Hs : Processes.has_nul s = false.
Hypothesis Hmem : mem_range mem address (length s) = Some s.
Hypothesis Hhole : mem (address + Z.of_nat (length s)) = None.

Lemma chunk_before_hole k n chunk :
  (k <= length s)%nat ->
  mem_range mem (address + Z.of_nat k) n = Some chunk ->
  (k + n <= length s)%nat /\ take k s ++ chunk = take (k + n) s.
Proof.
  intros Hk Hc.
  destruct (mem_range_lookup _ _ _ _ Hc) as [Hlen Hnth].
  destruct (mem_range_lookup _ _ _ _ Hmem) as [_ Hstr].
  assert (Hin : (k + n <= length s)%nat).
  { destruct (Nat.le_gt_cases (k + n) (length s)) as [|Hout]; [assumption|].
    exfalso. specialize (Hnth (length s - k)%nat ltac:(lia)).
    replace (address + Z.of_nat k + Z.of_nat (length s - k))
      with (address + Z.of_nat (length s)) in Hnth by lia.
    rewrite Hhole in Hnth. symmetry in Hnth.
    apply lookup_ge_None in Hnth. lia. }
  split; [exact Hin|].
  rewrite <- take_take_drop. f_equal. apply list_eq. intros i.
  destruct (Nat.lt_ge_cases i n) as [Hi|Hi].
  - rewrite <- (Hnth i Hi), lookup_take_lt, lookup_drop by lia.
    rewrite <- (Hstr (k + i)%nat) by lia. f_equal. lia.
  - rewrite lookup_take_ge by lia. apply lookup_ge_None. lia.
Qed.

Lemma peek_outcome_any (st : Processes.pstate) a n :
  (exists st', Processes.peek self a n st = (Raise BadReturnValueError, st'))
  \/ (exists t w st',
        Processes.peek self a n st = (Ok (vm_data (fst (vm_read t a n w))), st')
        /\ vm_kr (fst (vm_read t a n w)) = 0).
Proof.
  unfold Processes.peek, bind.
  destruct (Processes.task self st) as [[t|e] st1] eqn:Htask.
  - unfold Processes.remote.
    destruct (vm_read t a n st1.1) as [r w2] eqn:Hr.
    destruct (Z.eqb_spec (vm_kr r) 0) as [Hkr|Hkr].
    + right. exists t, st1.1. rewrite Hr. simpl. eauto.
    + left. simpl. eauto.
  - left. unfold Processes.task in Htask.
    destruct (st.2); [discriminate|].
    destruct (task_for_pid _ _) as [[kr t] w1].
    destruct (kr =? 0); [discriminate|]. injection Htask as <- <-. eauto.
Qed.

Lemma peek_str_loop_unterminated (fuel : nat) :
  forall (j k : nat) (size : Z) (st : Processes.pstate),
    (k <= length s)%nat ->
    0 <= size < 2 ^ Z.of_nat j ->
    (length s - k + j + 1 <= fuel)%nat ->
    fst (Processes.peek_str_loop fuel self (address + Z.of_nat k) size
           (take k s) st) = Ok (Some None).
Proof.
  induction fuel as [|fuel IH]; intros j k size st Hk Hsize Hfuel; [lia|].
  simpl. destruct (Z.eqb_spec size 0) as [->|Hnz]; [reflexivity|].
  destruct j as [|j]; [simpl in Hsize; lia|].
  unfold bind at 1.
  destruct (peek_outcome_any st (address + Z.of_nat k) size)
    as [[st' Hpeek]|(t & w & st' & Hpeek & Hkr)].
  - rewrite (peek_str_body_failure _ _ _ _ _ _ Hpeek).
    apply (IH j); [exact Hk| |lia].
    rewrite Nat2Z.inj_succ, Z.pow_succ_r in Hsize by lia.
    split; [apply Z.div_pos; lia|apply Z.div_lt_upper_bound; lia].
  - rewrite (peek_str_body_success _ _ _ _ _ _ _ Hpeek).
    pose proof (Hread t w _ size ltac:(lia) Hkr) as Hc.
    destruct (chunk_before_hole k _ _ Hk Hc) as [Hin ->].
    rewrite has_nul_take by exact Hs.
    replace (address + Z.of_nat k + size)
      with (address + Z.of_nat (k + Z.to_nat size)) by lia.
    apply (IH (S j)); [lia|exact Hsize|lia].
Qed.

End Unterminated.
End PeekStrMore.

(** X11. There is no bound on the length of the text [peek_str] reads:
    while every read succeeds and delivers no NUL, the loop goes on with
    chunks of 256 bytes, so for every number of turns it is still
    running. *)
Theorem peek_str_has_no_length_bound `{R : Remote} `{Py : PyRuntime}
    (self : Processes.Process) (t : Z) (address : Z) (w : world)
    (memo : option Z) (fuel : nat) :
  task_is self t ->
  memo_ok t memo ->
  (forall w a n, 0 < n ->
     vm_kr (fst (vm_read t a n w)) = 0
     /\ Processes.has_nul (vm_data (fst (vm_read t a n w))) = false) ->
  fst (Processes.peek_str fuel self address (w, memo)) = Ok None.
Proof.
  intros Htask Hmemo Hread. unfold Processes.peek_str.
  apply (peek_str_loop_endless self t fuel Htask Hread);
    [exact Hmemo|reflexivity|reflexivity].
Qed.

Lemma has_nul_endless (n : nat) (address : Z) (bs : list byte) :
  mem_range (fun _ => Some x41) address n = Some bs ->
  Processes.has_nul bs = false.
Proof.
  revert address bs. induction n as [|n IH]; intros address bs H; simpl in H.
  - now injection H as <-.
  - destruct (mem_range _ (address + 1) n) as [bs'|] eqn:E; [|discriminate].
    injection H as <-. simpl. exact (IH _ _ E).
Qed.

Lemma peek_str_has_no_length_bound_witness :
  fst (@Processes.peek_str (Demo.remote_of Demo.endless) Demo.python 1000
         {| Processes.pid := 1 |} 0x1000 (Demo.w0, None))
  = Ok None.
Proof.
  apply (@peek_str_has_no_length_bound (Demo.remote_of Demo.endless)
           Demo.python {| Processes.pid := 1 |} 0x103 0x1000 Demo.w0 None 1000).
  - apply demo_task_is.
  - now left.
  - intros w a n Hn. simpl.
    destruct (mem_range (fun _ => Some x41) a (Z.to_nat n)) as [bs|] eqn:E.
    + simpl. split; [reflexivity|exact (has_nul_endless _ _ _ E)].
    + exfalso. clear -E. revert a E.
      induction (Z.to_nat n) as [|m IH]; intros a E; simpl in E;
        [discriminate|].
      destruct (mem_range _ (a + 1) m) eqn:E'; [discriminate|].
      exact (IH _ E').
Defined.

(** X12. A text that runs into unmapped memory before any NUL reads as
    Python's [None]: [peek_str] reads what is mapped, halves the chunk
    down to zero at the hole and returns nothing, whatever it had read.
    Only this is asked of [vm_read]: a read that succeeds delivers the
    bytes of a fully mapped range. *)
Theorem peek_str_unterminated_is_none `{R : Remote} `{Py : PyRuntime}
    (self : Processes.Process) (mem : Z -> option byte) (address : Z)
    (s : list byte) (fuel : nat) (st : Processes.pstate) :
  (forall t w a n, 0 < n ->
     vm_kr (fst (vm_read t a n w)) = 0 ->
     mem_range mem a (Z.to_nat n) = Some (vm_data (fst (vm_read t a n w)))) ->
  Processes.has_nul s = false ->
  mem_range mem address (length s) = Some s ->
  mem (address + Z.of_nat (length s)) = None ->
  (length s + 10 <= fuel)%nat ->
  fst (Processes.peek_str fuel self address st) = Ok (Some None).
Proof.
  intros Hread Hs Hmem Hhole Hfuel. unfold Processes.peek_str.
  replace address with (address + Z.of_nat 0) at 1 by lia.
  change (@nil byte) with (take 0 s).
  apply (peek_str_loop_unterminated self mem address s Hread Hs Hmem Hhole
           fuel 9); [lia| |lia].
  unfold Processes.PEEK_STR_CHUNK_SIZE. simpl. lia.
Qed.

Lemma peek_str_unterminated_is_none_witness :
  fst (@Processes.peek_str (Demo.remote_of Demo.cut) Demo.python 12
         {| Processes.pid := 1 |} 0x1000 (Demo.w0, None))
  = Ok (Some None).
Proof.
  apply (@peek_str_unterminated_is_none (Demo.remote_of Demo.cut) Demo.python
           {| Processes.pid := 1 |} Demo.cut_memory 0x1000 [x68; x69] 12
           (Demo.w0, None)).
  - intros t w a n Hn. simpl.
    destruct (mem_range Demo.cut_memory a (Z.to_nat n)); simpl;
      [reflexivity|discriminate].
  - reflexivity.
  - reflexivity.
  - reflexivity.
  - simpl. lia.
Defined.

(** X13. The text that [peek_str] returns is cut at the first NUL: it
    is the decoding of bytes none of which is NUL. *)
Theorem peek_str_text_has_no_nul `{R : Remote} `{Py : PyRuntime}
    (self : Processes.Process) (fuel : nat) (address : Z)
    (st : Processes.pstate) (v : string) (st' : Processes.pstate) :
  Processes.peek_str fuel self address st = (Ok (Some (Some v)), st') ->
  exists bs, Processes.has_nul bs = false /\ bytes_decode bs = Some v.
Proof. apply peek_str_loop_text. Qed.

Lemma peek_str_text_has_no_nul_witness :
  exists bs, Processes.has_nul bs = false
             /\ @bytes_decode Demo.python bs = Some "hi"%string.
Proof.
  apply (@peek_str_text_has_no_nul (Demo.remote_of Demo.hi) Demo.python
           {| Processes.pid := 1 |} 11 0x1000 (Demo.w0, None) "hi"%string
           ({| Demo.errno := 0; Demo.calls := 11 |}, Some 0x103)).
  vm_compute. reflexivity.
Defined.

(** ** Files: [fs.py] *)

Lemma c_int32_negative (x : Z) : (Fs.c_int32 x <? 0) = Z.testbit x 31.
Proof.
  unfold Fs.c_int32.
  change (2 ^ 31) with 2147483648. change (2 ^ 32) with 4294967296.
  destruct (Z.testbit x 31) eqn:Hb.
  - apply Z.testbit_true in Hb; [|lia].
    change (2 ^ 31) with 2147483648 in Hb.
    apply Z.ltb_lt. Z.div_mod_to_equations. lia.
  - apply Z.testbit_false in Hb; [|lia].
    change (2 ^ 31) with 2147483648 in Hb.
    apply Z.ltb_ge. Z.div_mod_to_equations. lia.
Qed.

Lemma c_int64_negative (x : Z) : (Fs.c_int64 x <? 0) = Z.testbit x 63.
Proof.
  unfold Fs.c_int64.
  change (2 ^ 63) with 9223372036854775808.
  change (2 ^ 64) with 18446744073709551616.
  destruct (Z.testbit x 63) eqn:Hb.
  - apply Z.testbit_true in Hb; [|lia].
    change (2 ^ 63) with 9223372036854775808 in Hb.
    apply Z.ltb_lt. Z.div_mod_to_equations. lia.
  - apply Z.testbit_false in Hb; [|lia].
    change (2 ^ 63) with 9223372036854775808 in Hb.
    apply Z.ltb_ge. Z.div_mod_to_equations. lia.
Qed.

(** X14. The one-call wrappers do not look at the same sign bit of the
    value the remote call returns: [chmod] and [remove] raise exactly
    when bit 31 is set, [mkdir], [chdir], [symlink] and [link] exactly
    when bit 63 is set.  A failure that comes back as the 32-bit -1
    without sign extension is caught by the first two and taken for a
    success (4294967295 links made) by the others. *)
Theorem wrappers_sign_bits `{R : Fs.Remote} (w : Fs.fsworld) :
  (forall filename mode,
     Fs.chmod filename mode w =
       (if Z.testbit (fst (Fs.sym_chmod filename mode w)) 31
        then Fs.Failed Fs.ZShellError else Fs.Done tt,
        snd (Fs.sym_chmod filename mode w)))
  /\ (forall filename,
        Fs.remove filename w =
          (if Z.testbit (fst (Fs.sym_remove filename w)) 31
           then Fs.Failed Fs.ZShellError else Fs.Done tt,
           snd (Fs.sym_remove filename w)))
  /\ (forall filename mode,
        Fs.mkdir filename mode w =
          (if Z.testbit (fst (Fs.sym_mkdir filename mode w)) 63
           then Fs.Failed Fs.ZShellError else Fs.Done tt,
           snd (Fs.sym_mkdir filename mode w)))
  /\ (forall filename,
        Fs.chdir filename w =
          (if Z.testbit (fst (Fs.sym_chdir filename w)) 63
           then Fs.Failed Fs.ZShellError else Fs.Done tt,
           snd (Fs.sym_chdir filename w)))
  /\ (forall target linkpath,
        Fs.symlink target linkpath w =
          (if Z.testbit (fst (Fs.sym_symlink target linkpath w)) 63
           then Fs.Failed Fs.ZShellError
           else Fs.Done (Fs.c_int64 (fst (Fs.sym_symlink target linkpath w))),
           snd (Fs.sym_symlink target linkpath w)))
  /\ (forall target linkpath,
        Fs.link target linkpath w =
          (if Z.testbit (fst (Fs.sym_link target linkpath w)) 63
           then Fs.Failed Fs.ZShellError
           else Fs.Done (Fs.c_int64 (fst (Fs.sym_link target linkpath w))),
           snd (Fs.sym_link target linkpath w))).
Proof.
  repeat split; intros;
    unfold Fs.chmod, Fs.remove, Fs.mkdir, Fs.chdir, Fs.symlink, Fs.link,
      Fs.and_then, Fs.invoke;
    match goal with
    | |- context [Fs.sym_chmod ?a ?b w] => destruct (Fs.sym_chmod a b w) as [r w']
    | |- context [Fs.sym_remove ?a w] => destruct (Fs.sym_remove a w) as [r w']
    | |- context [Fs.sym_mkdir ?a ?b w] => destruct (Fs.sym_mkdir a b w) as [r w']
    | |- context [Fs.sym_chdir ?a w] => destruct (Fs.sym_chdir a w) as [r w']
    | |- context [Fs.sym_symlink ?a ?b w] =>
        destruct (Fs.sym_symlink a b w) as [r w']
    | |- context [Fs.sym_link ?a ?b w] => destruct (Fs.sym_link a b w) as [r w']
    end; cbn [fst snd];
    rewrite ?c_int32_negative, ?c_int64_negative;
    now destruct (Z.testbit r _).
Qed.

(** The remote [mkdir] of the script fails with the 32-bit -1; [mkdir]
    does not notice. *)
Example mkdir_misses_int_failure :
  fst (@Fs.mkdir DemoFs.short_writes "/tmp/d" 493 DemoFs.blank) = Fs.Done tt.
Proof. reflexivity. Qed.

Section FilesMore.
Context `{R : Fs.Remote} `{E : Fs.Env}.

Lemma write_loop_complete fd content :
  accepts_some fd content ->
  forall fuel buf w,
    (length buf < fuel)%nat ->
    exists w',
      Fs.write_loop fuel fd buf w = (Fs.Done (Some tt), w')
      /\ content w' = content w ++ buf.
Proof.
  intros Hw. induction fuel as [|fuel IH]; intros buf w Hfuel; [lia|].
  destruct buf as [|b buf].
  - exists w. simpl. now rewrite app_nil_r.
  - destruct (Hw w (b :: buf) ltac:(discriminate)) as [Hk Hc].
    cbn [Fs.write_loop]. unfold Fs.and_then, Fs.invoke.
    destruct (Fs.sym_write fd (b :: buf) (Z.of_nat (length (b :: buf))) w)
      as [r w1].
    cbn [fst snd] in Hk, Hc.
    destruct (Z.ltb_spec (Fs.c_int64 r) 0) as [|_]; [lia|].
    destruct (IH (drop (Z.to_nat (Fs.c_int64 r)) (b :: buf)) w1) as (w' & Hrun & Hc').
    { rewrite length_drop. cbn [length] in *. lia. }
    exists w'. split; [exact Hrun|].
    rewrite Hc', Hc, <- app_assoc. f_equal. apply take_drop.
Qed.

Lemma write_loop_spins fd :
  (forall w buf,
     Fs.c_int64 (fst (Fs.sym_write fd buf (Z.of_nat (length buf)) w)) = 0) ->
  forall fuel buf w,
    buf <> [] -> fst (Fs.write_loop fuel fd buf w) = Fs.Done None.
Proof.
  intros Hz. induction fuel as [|fuel IH]; intros buf w Hne; [reflexivity|].
  destruct buf as [|b buf]; [contradiction|].
  cbn [Fs.write_loop]. unfold Fs.and_then, Fs.invoke.
  pose proof (Hz w (b :: buf)) as Hk.
  destruct (Fs.sym_write fd (b :: buf) (Z.of_nat (length (b :: buf))) w)
    as [r w1].
  cbn [fst] in Hk. rewrite Hk. simpl. now apply IH.
Qed.

Lemma read_loop_complete fd rest :
  delivers fd rest ->
  forall fuel buf w,
    (length (rest w) < fuel)%nat ->
    exists w', Fs.read_loop fuel fd buf w = (Fs.Done (Some (buf ++ rest w)), w').
Proof.
  intros Hr. induction fuel as [|fuel IH]; intros buf w Hfuel; [lia|].
  destruct (Hr w) as [Hend Hmore].
  cbn [Fs.read_loop]. unfold Fs.and_then, Fs.invoke.
  destruct (Fs.sym_read fd Fs.CHUNK_SIZE w) as [[k chunk] w1] eqn:Hread.
  cbn [fst snd] in Hend, Hmore. cbn [fst snd].
  destruct (rest w) as [|b more] eqn:Hrest.
  - rewrite (Hend eq_refl). simpl. rewrite app_nil_r. eauto.
  - destruct (Hmore ltac:(discriminate)) as (Hk & Htake & Hdrop).
    destruct (Z.eqb_spec (Fs.c_int64 k) 0) as [|_]; [lia|].
    destruct (Z.ltb_spec (Fs.c_int64 k) 0) as [|_]; [lia|].
    destruct (IH (buf ++ take (Z.to_nat (Fs.c_int64 k)) chunk) w1) as [w' Hrun].
    { rewrite Hdrop, length_drop. cbn [length] in *. lia. }
    exists w'. rewrite Hrun, Hdrop, Htake, <- app_assoc.
    now rewrite take_drop.
Qed.

End FilesMore.

(** X15. [write_file] copes with short writes: when every [write]
    accepts some of the bytes offered and reports how many, the loop
    offers the rest again until the whole buffer, byte for byte and in
    order, has been added to the file, within as many turns as there are
    bytes; then the descriptor is closed. *)
Theorem write_file_writes_everything `{R : Fs.Remote} `{E : Fs.Env}
    (content : Fs.fsworld -> list byte) (fuel : nat) (filename : string)
    (buf : list byte) (mode : Z) (w w1 : Fs.fsworld) (r : Z) :
  Fs.sym_open filename
    (Z.lor (Z.lor Fs.O_WRONLY Fs.O_CREAT) Fs.O_TRUNC) (Some mode) w
  = (r, w1) ->
  0 <= Fs.c_int32 r ->
  accepts_some (Fs.c_int32 r) content ->
  (forall w, content (snd (Fs.sym_close (Fs.c_int32 r) w)) = content w) ->
  (length buf < fuel)%nat ->
  exists w2,
    Fs.write_file fuel filename buf mode w = (Fs.Done (Some tt), w2)
    /\ content w2 = content w1 ++ buf.
Proof.
  intros Hopen Hfd Hw Hclose Hfuel.
  destruct (write_loop_complete _ content Hw fuel buf w1 Hfuel)
    as (w' & Hrun & Hc).
  exists (snd (Fs.sym_close (Fs.c_int32 r) w')). split.
  - unfold Fs.write_file, Fs.and_then, Fs.invoke. rewrite Hopen.
    destruct (Z.ltb_spec (Fs.c_int32 r) 0) as [|_]; [lia|].
    rewrite Hrun. now destruct (Fs.sym_close (Fs.c_int32 r) w').
  - now rewrite Hclose.
Qed.

Lemma c_int64_small (x : Z) :
  0 <= x < 2 ^ 63 -> Fs.c_int64 x = x.
Proof.
  intros Hx. unfold Fs.c_int64.
  change (2 ^ 63) with 9223372036854775808 in *.
  change (2 ^ 64) with 18446744073709551616.
  rewrite Z.mod_small; lia.
Qed.

Lemma demo_accepts_some : @accepts_some DemoFs.short_writes 3 DemoFs.file.
Proof.
  intros w buf Hne. cbn [Fs.sym_write DemoFs.short_writes fst snd DemoFs.file].
  assert (Hlen : (0 < length (take 3 buf) <= 3)%nat).
  { rewrite length_take. destruct buf; [contradiction|cbn [length]; lia]. }
  rewrite c_int64_small, Nat2Z.id
    by (change (2 ^ 63) with 9223372036854775808; lia).
  split.
  - rewrite length_take in *. lia.
  - f_equal. rewrite length_take.
    destruct (Nat.le_ge_cases 3 (length buf)).
    + now rewrite Nat.min_l by lia.
    + rewrite Nat.min_r by lia. now rewrite !take_ge by lia.
Qed.

Lemma write_file_writes_everything_witness :
  exists w2,
    @Fs.write_file DemoFs.short_writes DemoFs.posix 12 "/tmp/f"
      DemoFs.hello 511 DemoFs.blank
    = (Fs.Done (Some tt), w2)
    /\ DemoFs.file w2 = DemoFs.file DemoFs.blank ++ DemoFs.hello.
Proof.
  apply (@write_file_writes_everything DemoFs.short_writes DemoFs.posix
           DemoFs.file 12 "/tmp/f" DemoFs.hello 511 DemoFs.blank
           DemoFs.blank 3).
  - reflexivity.
  - discriminate.
  - exact demo_accepts_some.
  - reflexivity.
  - simpl. lia.
Defined.

(** X16. A [write] that keeps accepting nothing keeps [write_file] in
    its loop: with something to write and every [write] returning 0, it
    never returns and never raises, however many turns it is given. *)
Theorem write_file_spins_on_zero `{R : Fs.Remote} `{E : Fs.Env}
    (fuel : nat) (filename : string) (buf : list byte) (mode : Z)
    (w w1 : Fs.fsworld) (r : Z) :
  Fs.sym_open filename
    (Z.lor (Z.lor Fs.O_WRONLY Fs.O_CREAT) Fs.O_TRUNC) (Some mode) w
  = (r, w1) ->
  0 <= Fs.c_int32 r ->
  (forall w buf,
     Fs.c_int64
       (fst (Fs.sym_write (Fs.c_int32 r) buf (Z.of_nat (length buf)) w)) = 0) ->
  buf <> [] ->
  fst (Fs.write_file fuel filename buf mode w) = Fs.Done None.
Proof.
  intros Hopen Hfd Hz Hne.
  unfold Fs.write_file, Fs.and_then, Fs.invoke. rewrite Hopen.
  destruct (Z.ltb_spec (Fs.c_int32 r) 0) as [|_]; [lia|].
  pose proof (write_loop_spins _ Hz fuel buf w1 Hne) as Hspin.
  destruct (Fs.write_loop fuel (Fs.c_int32 r) buf w1) as [res w2].
  simpl in Hspin. now rewrite Hspin.
Qed.

Lemma write_file_spins_on_zero_witness :
  fst (@Fs.write_file DemoFs.full DemoFs.posix 500 "/tmp/f" DemoFs.hello 511
         DemoFs.blank)
  = Fs.Done None.
Proof.
  apply (@write_file_spins_on_zero DemoFs.full DemoFs.posix 500 "/tmp/f"
           DemoFs.hello 511 DemoFs.blank DemoFs.blank 3).
  - reflexivity.
  - discriminate.
  - reflexivity.
  - discriminate.
Defined.

(** X17. [read_file] returns the whole file: when every [read] delivers
    some first bytes of what is left and reports how many, and 0 at the
    end, the chunks put together are the content that was left when the
    file was opened. *)
Theorem read_file_reads_everything `{R : Fs.Remote} `{E : Fs.Env}
    (rest : Fs.fsworld -> list byte) (fuel : nat) (filename : string)
    (w w1 : Fs.fsworld) (r : Z) :
  Fs.sym_open filename Fs.O_RDONLY None w = (r, w1) ->
  0 <= Fs.c_int32 r ->
  delivers (Fs.c_int32 r) rest ->
  (length (rest w1) < fuel)%nat ->
  exists w2, Fs.read_file fuel filename w = (Fs.Done (Some (rest w1)), w2).
Proof.
  intros Hopen Hfd Hr Hfuel.
  destruct (read_loop_complete _ rest Hr fuel [] w1 Hfuel) as [w' Hrun].
  exists (snd (Fs.sym_close (Fs.c_int32 r) w')).
  unfold Fs.read_file, Fs.and_then, Fs.invoke. rewrite Hopen.
  destruct (Z.ltb_spec (Fs.c_int32 r) 0) as [|_]; [lia|].
  rewrite Hrun. now destruct (Fs.sym_close (Fs.c_int32 r) w').
Qed.

Lemma demo_delivers :
  @delivers DemoFs.short_writes 3
    (fun w => drop (DemoFs.position w) (DemoFs.file w)).
Proof.
  intros w. simpl.
  set (rest := drop (DemoFs.position w) (DemoFs.file w)).
  assert (Hk : Fs.c_int64 (Z.of_nat (length (take 4 rest)))
               = Z.of_nat (length (take 4 rest))).
  { apply c_int64_small. rewrite length_take.
    change (2 ^ 63) with 9223372036854775808. lia. }
  rewrite Hk, Nat2Z.id. split.
  - intros ->. reflexivity.
  - intros Hne. rewrite length_take. repeat split.
    + destruct rest; [contradiction|cbn [length]; lia].
    + lia.
    + rewrite take_take. f_equal. lia.
    + unfold rest. rewrite drop_drop. f_equal.
Qed.

Lemma read_file_reads_everything_witness :
  exists w2,
    @Fs.read_file DemoFs.short_writes DemoFs.posix 12 "/tmp/f"
      {| DemoFs.file := DemoFs.hello; DemoFs.position := 7 |}
    = (Fs.Done (Some DemoFs.hello), w2).
Proof.
  apply (@read_file_reads_everything DemoFs.short_writes DemoFs.posix
           (fun w => drop (DemoFs.position w) (DemoFs.file w)) 12 "/tmp/f"
           {| DemoFs.file := DemoFs.hello; DemoFs.position := 7 |}
           {| DemoFs.file := DemoFs.hello; DemoFs.position := 0 |} 3).
  - reflexivity.
  - discriminate.
  - exact demo_delivers.
  - simpl. lia.
Defined.

Lemma closed_in_app (a b : list Fs.event) :
  Fs.closed_in (a ++ b) = Fs.closed_in a ++ Fs.closed_in b.
Proof.
  induction a as [|ev a IH]; [reflexivity|].
  destruct ev; simpl; now rewrite IH.
Qed.

Lemma write_loop_closes_nothing (R : Fs.Remote) (fuel : nat) :
  forall fd buf (st : @Fs.fsworld (Fs.observed R)),
    Fs.closed_in (snd (snd (@Fs.write_loop (Fs.observed R) fuel fd buf st)))
    = Fs.closed_in (snd st).
Proof.
  induction fuel as [|fuel IH]; intros fd buf st; [reflexivity|].
  destruct buf as [|b buf]; [reflexivity|].
  cbn [Fs.write_loop]. unfold Fs.and_then, Fs.invoke.
  cbn [Fs.sym_write Fs.observed]. unfold Fs.logging.
  destruct (Fs.sym_write fd (b :: buf) _ (fst st)) as [r w1].
  destruct (Fs.c_int64 r <? 0).
  - cbn [snd Fs.fail]. unfold Fs.fail. cbn [snd].
    rewrite closed_in_app. simpl. apply app_nil_r.
  - rewrite IH. cbn [snd]. rewrite closed_in_app. simpl. apply app_nil_r.
Qed.

Lemma read_loop_closes_nothing (R : Fs.Remote) (fuel : nat) :
  forall fd buf (st : @Fs.fsworld (Fs.observed R)),
    Fs.closed_in (snd (snd (@Fs.read_loop (Fs.observed R) fuel fd buf st)))
    = Fs.closed_in (snd st).
Proof.
  induction fuel as [|fuel IH]; intros fd buf st; [reflexivity|].
  cbn [Fs.read_loop]. unfold Fs.and_then, Fs.invoke.
  cbn [Fs.sym_read Fs.observed]. unfold Fs.logging.
  destruct (Fs.sym_read fd Fs.CHUNK_SIZE (fst st)) as [[k chunk] w1].
  cbn [fst snd].
  destruct (Fs.c_int64 k =? 0); [|destruct (Fs.c_int64 k <? 0)].
  - unfold Fs.pure. cbn [snd]. rewrite closed_in_app. simpl. apply app_nil_r.
  - unfold Fs.fail. cbn [snd]. rewrite closed_in_app. simpl. apply app_nil_r.
  - rewrite IH. cbn [snd]. rewrite closed_in_app. simpl. apply app_nil_r.
Qed.

(** X18. [write_file] and [read_file] close the descriptor they opened
    once, and only when they run to their end: when [open] fails nothing
    is closed, and when a [write] or a [read] fails the exception leaves
    with the descriptor still open. *)
Theorem descriptor_closed_only_on_completion (R : Fs.Remote) `{E : Fs.Env}
    (fuel : nat) (filename : string) (buf : list byte) (mode : Z)
    (w : @Fs.fsworld R) :
  (let run :=
     @Fs.write_file (Fs.observed R) E fuel filename buf mode (w, []) in
   Fs.closed_in (snd (snd run)) =
     match fst run with
     | Fs.Done (Some _) =>
         [Fs.c_int32
            (fst (Fs.sym_open filename
                    (Z.lor (Z.lor Fs.O_WRONLY Fs.O_CREAT) Fs.O_TRUNC)
                    (Some mode) w))]
     | _ => []
     end)
  /\ (let run := @Fs.read_file (Fs.observed R) E fuel filename (w, []) in
      Fs.closed_in (snd (snd run)) =
        match fst run with
        | Fs.Done (Some _) =>
            [Fs.c_int32 (fst (Fs.sym_open filename Fs.O_RDONLY None w))]
        | _ => []
        end).
Proof.
  split; cbv zeta.
  - destruct (Fs.sym_open filename
                (Z.lor (Z.lor Fs.O_WRONLY Fs.O_CREAT) Fs.O_TRUNC)
                (Some mode) w) as [r w1] eqn:Hopen.
    set (opened := [Fs.Opened filename
                      (Z.lor (Z.lor Fs.O_WRONLY Fs.O_CREAT) Fs.O_TRUNC)
                      (Some mode)]).
    assert (Hrun :
      @Fs.write_file (Fs.observed R) E fuel filename buf mode (w, []) =
        if Fs.c_int32 r <? 0 then (Fs.Failed Fs.ZShellError, (w1, opened))
        else
          match @Fs.write_loop (Fs.observed R) fuel (Fs.c_int32 r) buf
                  (w1, opened) with
          | (Fs.Done (Some _), (w2, log)) =>
              (Fs.Done (Some tt),
               (snd (Fs.sym_close (Fs.c_int32 r) w2),
                log ++ [Fs.Closed (Fs.c_int32 r)]))
          | other => other
          end).
    { unfold Fs.write_file, Fs.and_then, Fs.invoke.
      cbn [Fs.sym_open Fs.sym_close Fs.observed]. unfold Fs.logging.
      cbn [fst snd]. rewrite Hopen. cbn [app].
      destruct (Fs.c_int32 r <? 0); [reflexivity|].
      destruct (@Fs.write_loop (Fs.observed R) fuel (Fs.c_int32 r) buf _)
        as [[[[]|]|e] [w2 log]]; try reflexivity.
      cbn [fst snd].
      now destruct (Fs.sym_close (Fs.c_int32 r) w2). }
    rewrite Hrun. cbn [fst].
    destruct (Fs.c_int32 r <? 0); [reflexivity|].
    pose proof (write_loop_closes_nothing R fuel (Fs.c_int32 r) buf
                  (w1, opened)) as Hloop.
    destruct (@Fs.write_loop (Fs.observed R) fuel (Fs.c_int32 r) buf _)
      as [[[[]|]|e] [w2 log]]; cbn [fst snd] in *; try exact Hloop.
    now rewrite closed_in_app, Hloop.
  - destruct (Fs.sym_open filename Fs.O_RDONLY None w) as [r w1] eqn:Hopen.
    set (opened := [Fs.Opened filename Fs.O_RDONLY None]).
    assert (Hrun :
      @Fs.read_file (Fs.observed R) E fuel filename (w, []) =
        if Fs.c_int32 r <? 0 then (Fs.Failed Fs.ZShellError, (w1, opened))
        else
          match @Fs.read_loop (Fs.observed R) fuel (Fs.c_int32 r) []
                  (w1, opened) with
          | (Fs.Done (Some data), (w2, log)) =>
              (Fs.Done (Some data),
               (snd (Fs.sym_close (Fs.c_int32 r) w2),
                log ++ [Fs.Closed (Fs.c_int32 r)]))
          | other => other
          end).
    { unfold Fs.read_file, Fs.and_then, Fs.invoke.
      cbn [Fs.sym_open Fs.sym_close Fs.observed]. unfold Fs.logging.
      cbn [fst snd]. rewrite Hopen. cbn [app].
      destruct (Fs.c_int32 r <? 0); [reflexivity|].
      destruct (@Fs.read_loop (Fs.observed R) fuel (Fs.c_int32 r) [] _)
        as [[[data|]|e] [w2 log]]; try reflexivity.
      cbn [fst snd].
      now destruct (Fs.sym_close (Fs.c_int32 r) w2). }
    rewrite Hrun. cbn [fst].
    destruct (Fs.c_int32 r <? 0); [reflexivity|].
    pose proof (read_loop_closes_nothing R fuel (Fs.c_int32 r) []
                  (w1, opened)) as Hloop.
    destruct (@Fs.read_loop (Fs.observed R) fuel (Fs.c_int32 r) [] _)
      as [[[data|]|e] [w2 log]]; cbn [fst snd] in *; try exact Hloop.
    now rewrite closed_in_app, Hloop.
Qed.

(** ** Files: [walk] *)

Section Walk.
Context `{R : Fs.Remote} `{E : Fs.Env}.

Lemma in_blacklist_false (d : string) (l : list string) :
  Fs.in_blacklist d l = false <-> ~ In d l.
Proof.
  unfold Fs.in_blacklist. induction l as [|x l IH]; simpl.
  - tauto.
  - rewrite orb_false_iff, IH.
    destruct (String.eqb_spec d x) as [->|Hne]; intuition congruence.
Qed.

Lemma walked_refl (st st' : Fs.walk_state) :
  Fs.yielded st' = Fs.yielded st -> Fs.blacklist st' = Fs.blacklist st ->
  walked st st' [] /\ sound_walk (Fs.blacklist st) [].
Proof.
  intros Hy Hb. unfold walked, sound_walk. simpl.
  rewrite Hy, Hb, !app_nil_r. repeat split; try constructor. intros d [].
Qed.

Lemma walked_trans (a b c : Fs.walk_state) n1 n2 :
  walked a b n1 -> sound_walk (Fs.blacklist a) n1 ->
  walked b c n2 -> sound_walk (Fs.blacklist b) n2 ->
  walked a c (n1 ++ n2) /\ sound_walk (Fs.blacklist a) (n1 ++ n2).
Proof.
  intros [Hy1 Hb1] (Hnd1 & Hout1 & Hdot1) [Hy2 Hb2] (Hnd2 & Hout2 & Hdot2).
  split; [split|repeat split].
  - now rewrite Hy2, Hy1, app_assoc.
  - now rewrite Hb2, Hb1, map_app, app_assoc.
  - rewrite map_app. apply NoDup_ListNoDup, NoDup_app.
    repeat split; try now apply NoDup_ListNoDup.
    intros d Hd1 Hd2. apply list_elem_of_In in Hd1, Hd2.
    apply (Hout2 d Hd2). rewrite Hb1. apply in_or_app. now right.
  - intros d Hd. rewrite map_app in Hd. apply in_app_or in Hd as [Hd|Hd].
    + now apply Hout1.
    + intros Hbl. apply (Hout2 d Hd). rewrite Hb1. apply in_or_app. now left.
  - apply Forall_app. now split.
Qed.

Lemma on_remote_keeps {A} (f : Fs.fsworld -> Fs.outcome A * Fs.fsworld)
    (st : Fs.walk_state) :
  Fs.yielded (snd (Fs.on_remote f st)) = Fs.yielded st
  /\ Fs.blacklist (snd (Fs.on_remote f st)) = Fs.blacklist st.
Proof.
  unfold Fs.on_remote. now destruct (f (Fs.remote st)).
Qed.

Lemma sort_entries_keeps dirname entries :
  forall dirs files (st : Fs.walk_state),
    Forall (fun n => Fs.is_dot_entry n = false) (dirs ++ files) ->
    let run := Fs.sort_entries dirname entries dirs files st in
    Fs.yielded (snd run) = Fs.yielded st
    /\ Fs.blacklist (snd run) = Fs.blacklist st
    /\ (forall dirs' files', fst run = Fs.Done (dirs', files') ->
        Forall (fun n => Fs.is_dot_entry n = false) (dirs' ++ files')).
Proof.
  induction entries as [|filename entries IH]; intros dirs files st Hclean;
    cbv zeta.
  - simpl. repeat split. now intros dirs' files' [= <- <-].
  - cbn [Fs.sort_entries].
    destruct (Fs.is_dot_entry filename) eqn:Hdot; [now apply IH|].
    unfold Fs.and_then.
    destruct (on_remote_keeps
                (Fs.stat (Fs.posixpath_join dirname filename)) st) as [Hy Hb].
    destruct (Fs.on_remote _ st) as [[st_mode|e] st1]; cbn [snd] in *.
    + rewrite <- Hy, <- Hb.
      destruct (Z.land st_mode Fs.S_IFMT =? Z.land st_mode Fs.S_IFDIR);
        apply IH.
      * rewrite <- app_assoc. apply Forall_app in Hclean as [Hd Hf].
        apply Forall_app. split; [exact Hd|].
        apply Forall_app. split; [|exact Hf]. now repeat constructor.
      * rewrite app_assoc. apply Forall_app. split; [exact Hclean|].
        now repeat constructor.
    + repeat split; try assumption. discriminate.
Qed.

Lemma walk_invariant (fuel : nat) :
  forall dirname (st : Fs.walk_state),
    exists new,
      walked st (snd (Fs.walk fuel dirname st)) new
      /\ sound_walk (Fs.blacklist st) new.
Proof.
  induction fuel as [|fuel IH]; intros dirname st.
  - exists []. now apply walked_refl.
  - cbn [Fs.walk].
    destruct (Fs.in_blacklist dirname (Fs.blacklist st)) eqn:Hbl.
    { exists []. now apply walked_refl. }
    unfold Fs.and_then at 1.
    destruct (on_remote_keeps (Fs.listdir dirname) st) as [Hy1 Hb1].
    destruct (Fs.on_remote (Fs.listdir dirname) st) as [[entries|e] st1];
      cbn [snd] in *.
    2: { exists []. now apply walked_refl. }
    unfold Fs.and_then at 1.
    destruct (sort_entries_keeps dirname entries [] [] st1 ltac:(constructor))
      as (Hy2 & Hb2 & Hclean).
    destruct (Fs.sort_entries dirname entries [] [] st1)
      as [[[dirs files]|e] st2]; cbn [fst snd] in *.
    2: { exists []. apply walked_refl; congruence. }
    specialize (Hclean dirs files eq_refl).
    unfold Fs.and_then at 1. unfold Fs.yield_and_blacklist at 1.
    set (st3 := {| Fs.remote := Fs.remote st2;
                   Fs.blacklist := Fs.blacklist st2 ++ [dirname];
                   Fs.yielded := Fs.yielded st2 ++ [(dirname, dirs, files)] |}).
    assert (Hfirst : walked st st3 [(dirname, dirs, files)]
                     /\ sound_walk (Fs.blacklist st) [(dirname, dirs, files)]).
    { unfold walked, sound_walk, st3. simpl. rewrite Hy2, Hy1, Hb2, Hb1.
      repeat split.
      - repeat constructor. intros [].
      - intros d [<-|[]]. now apply in_blacklist_false.
      - repeat constructor. exact Hclean. }
    destruct Hfirst as [Hw1 Hs1].
    assert (Hloop : forall ds (st4 : Fs.walk_state),
      exists new,
        walked st4
          (snd ((fix each_dir (ds : list string)
                   : Fs.F Fs.walk_state (option unit) :=
                   match ds with
                   | [] => Fs.pure (Some tt)
                   | d :: ds =>
                       Fs.and_then
                         (Fs.walk fuel (Fs.posixpath_join dirname d))
                         (fun finished =>
                            match finished with
                            | None => Fs.pure None
                            | Some _ => each_dir ds
                            end)
                   end) ds st4)) new
        /\ sound_walk (Fs.blacklist st4) new).
    { induction ds as [|d ds IHds]; intros st4.
      - exists []. now apply walked_refl.
      - unfold Fs.and_then.
        destruct (IH (Fs.posixpath_join dirname d) st4) as (n1 & Hn1 & Hs).
        destruct (Fs.walk fuel (Fs.posixpath_join dirname d) st4)
          as [[[[]|]|e] st5]; cbn [snd] in *.
        + destruct (IHds st5) as (n2 & Hn2 & Hs2).
          exists (n1 ++ n2). exact (walked_trans _ _ _ _ _ Hn1 Hs Hn2 Hs2).
        + exists n1. now split.
        + exists n1. now split. }
    destruct (Hloop dirs st3) as (n2 & Hn2 & Hs2).
    exists ([(dirname, dirs, files)] ++ n2).
    exact (walked_trans _ _ _ _ _ Hw1 Hs1 Hn2 Hs2).
Qed.

End Walk.

(** X19. However a walk ends (to its end, on an exception of [listdir]
    or [stat], or still running), it has yielded every directory at most
    once and none that was on the blacklist it was given, and it has
    added exactly the directories it yielded, in the order it yielded
    them, to that blacklist. *)
Theorem walk_yields_each_directory_once `{R : Fs.Remote} `{E : Fs.Env}
    (fuel : nat) (dirname : string) (st : Fs.walk_state) :
  exists new,
    walked st (snd (Fs.walk fuel dirname st)) new
    /\ List.NoDup (map dirname_of new)
    /\ (forall d, In d (map dirname_of new) -> ~ In d (Fs.blacklist st)).
Proof.
  destruct (walk_invariant fuel dirname st) as (new & Hw & Hnd & Hout & _).
  exists new. auto.
Qed.

(** The directory listed twice is walked once. *)
Example walk_on_tree :
  Fs.yielded (snd (@Fs.walk DemoFs.tree DemoFs.posix 5 "/r" DemoFs.fresh))
  = [ ("/r", ["a"; "a"], ["f"]); ("/r/a", [], ["g"]) ]%string.
Proof. reflexivity. Qed.

(** X20. No triple that [walk] yields names ["."], [".."] or the empty
    name among its directories or its files. *)
Theorem walk_hides_dot_entries `{R : Fs.Remote} `{E : Fs.Env}
    (fuel : nat) (dirname : string) (st : Fs.walk_state) :
  exists new,
    Fs.yielded (snd (Fs.walk fuel dirname st)) = Fs.yielded st ++ new
    /\ Forall no_dot_entries new.
Proof.
  destruct (walk_invariant fuel dirname st) as (new & [Hy _] & _ & _ & Hdot).
  exists new. auto.
Qed.

Lemma land_bit (x n : Z) :
  0 <= n -> Z.land x (2 ^ n) = if Z.testbit x n then 2 ^ n else 0.
Proof.
  intros Hn. apply Z.bits_inj'. intros k Hk.
  rewrite Z.land_spec, Z.pow2_bits_eqb by lia.
  destruct (Z.eqb_spec n k) as [<-|Hne].
  - destruct (Z.testbit x n); simpl.
    + now rewrite Z.pow2_bits_true.
    + now rewrite Z.bits_0.
  - rewrite andb_false_r.
    destruct (Z.testbit x n); [|now rewrite Z.bits_0].
    rewrite Z.pow2_bits_eqb by lia. symmetry. now apply Z.eqb_neq.
Qed.

Lemma directory_test (m : Z) :
  (Z.land m 0xf000 =? Z.land m 0x4000) = counts_as_dir m.
Proof.
  unfold counts_as_dir.
  assert (Hb : Z.land m 0x4000 = Z.land (Z.land m 0xf000) 0x4000).
  { now rewrite <- Z.land_assoc. }
  rewrite Hb. set (a := Z.land m 0xf000).
  pose proof (land_bit a 14 ltac:(lia)) as Hbit.
  change (2 ^ 14) with 0x4000 in Hbit. rewrite Hbit.
  destruct (Z.testbit a 14).
  - destruct (Z.eqb_spec a 0x4000) as [|Hne]; [reflexivity|].
    destruct (Z.eqb_spec a 0) as [Hz|]; [|reflexivity].
    rewrite Hz in Hbit. discriminate Hbit.
  - destruct (Z.eqb_spec a 0x4000) as [He|Hne].
    + rewrite He in Hbit. discriminate Hbit.
    + reflexivity.
Qed.

(** X21. With the POSIX values of [S_IFMT] and [S_IFDIR], the test by
    which [walk] sorts an entry, [st_mode & S_IFMT == st_mode & S_IFDIR],
    puts it among the directories exactly when its type bits are those of
    a directory or when it has no type bits at all. *)
Theorem walk_directory_test `{R : Fs.Remote} `{E : Fs.Env}
    (dirname filename : string) (entries dirs files : list string)
    (st : Fs.walk_state) (st_mode : Z) (w' : Fs.fsworld) :
  Fs.S_IFMT = 0xf000 ->
  Fs.S_IFDIR = 0x4000 ->
  Fs.is_dot_entry filename = false ->
  Fs.stat (Fs.posixpath_join dirname filename) (Fs.remote st)
  = (Fs.Done st_mode, w') ->
  Fs.sort_entries dirname (filename :: entries) dirs files st =
    Fs.sort_entries dirname entries
      (if counts_as_dir st_mode then dirs ++ [filename] else dirs)
      (if counts_as_dir st_mode then files else files ++ [filename])
      {| Fs.remote := w';
         Fs.blacklist := Fs.blacklist st;
         Fs.yielded := Fs.yielded st |}.
Proof.
  intros Hfmt Hdir Hdot Hstat.
  cbn [Fs.sort_entries]. rewrite Hdot.
  unfold Fs.and_then, Fs.on_remote. rewrite Hstat, Hfmt, Hdir.
  rewrite directory_test. now destruct (counts_as_dir st_mode).
Qed.

Lemma walk_directory_test_witness :
  fst (@Fs.sort_entries DemoFs.tree DemoFs.posix "/r" ["a"; "f"]%string
         [] [] DemoFs.fresh)
  = Fs.Done (["a"], ["f"])%string.
Proof.
  rewrite (@walk_directory_test DemoFs.tree DemoFs.posix "/r" "a"
             ["f"%string] [] [] DemoFs.fresh 0x41ed 1%nat
             eq_refl eq_refl eq_refl eq_refl).
  reflexivity.
Defined.
